(** * Book-swap charts: aggregation, resize tracking and draw guards

    A shallow embedding of the three chart components of the
    [Homework2/qkma] application:

    - [StackedBarChart]      (components/Example.tsx, first module),
    - [GenreDecadeHeatmap]   (components/Chart2.tsx),
    - [SankeyChart]          (components/Example.tsx, second module).

    Each component loads the CSV rows, reduces them to its own summary
    structure, tracks the size of its container and redraws an SVG.  The
    development first embeds the JavaScript and d3 primitives the reducers
    rely on, then the reducers, the resize handlers and the draw effects,
    and finally states and proves the properties of the specification. *)

From Stdlib Require Import List String Ascii ZArith Lia Bool Arith PeanoNat.
From Stdlib Require Import Permutation Sorted SpecFloat.
Import ListNotations.

Local Open Scope string_scope.
Local Open Scope list_scope.

(* ================================================================== *)
(** * Part I.  Definitions                                             *)
(* ================================================================== *)

(** ** JavaScript values used by the charts *)

Module JS.

(** A value of TypeScript type [string | undefined]; [None] is
    [undefined].  A string is a sequence of code units, here the code
    units below 256. *)
Definition field := option string.

Definition field_eqb (a b : field) : bool :=
  match a, b with
  | Some x, Some y => String.eqb x y
  | None, None => true
  | _, _ => false
  end.

(** [x ?? d] *)
Definition nullish (x : field) (d : string) : string :=
  match x with Some s => s | None => d end.

(** [String(x)], also the coercion of a template literal [`${x}`]. *)
Definition String_ (x : field) : string :=
  match x with Some s => s | None => "undefined" end.

(** [s.toLowerCase()]: among the code units below 256 the letters A-Z and
    the accented capitals 192-222 (215, the multiplication sign, apart)
    have a lower-case form, 32 further; the others are kept. *)
Definition lower_char (c : ascii) : ascii :=
  let n := nat_of_ascii c in
  if ((65 <=? n) && (n <=? 90)
      || (192 <=? n) && (n <=? 222) && negb (n =? 215))%nat
  then ascii_of_nat (n + 32) else c.

Fixpoint toLowerCase (s : string) : string :=
  match s with
  | EmptyString => EmptyString
  | String c s' => String (lower_char c) (toLowerCase s')
  end.

(** [arr.includes(x)] on an array of [string | undefined]
    (SameValueZero). *)
Definition includes (arr : list field) (x : field) : bool :=
  existsb (field_eqb x) arr.

(** [s.split(sep)] for a non-empty separator: the pieces between the
    successive occurrences of [sep], found from the left. *)
Fixpoint strip_prefix (p s : string) : option string :=
  match p, s with
  | EmptyString, _ => Some s
  | String a p', String b s' =>
      if Ascii.eqb a b then strip_prefix p' s' else None
  | String _ _, EmptyString => None
  end.

Fixpoint cut (sep s : string) : string * option string :=
  match strip_prefix sep s with
  | Some rest => (EmptyString, Some rest)
  | None =>
      match s with
      | EmptyString => (EmptyString, None)
      | String c s' => let (a, r) := cut sep s' in (String c a, r)
      end
  end.

Fixpoint split_fuel (fuel : nat) (sep s : string) : list string :=
  let (a, r) := cut sep s in
  match r, fuel with
  | Some rest, S f => a :: split_fuel f sep rest
  | _, _ => [a]
  end.

Definition split (sep s : string) : list string :=
  split_fuel (String.length s) sep s.

(** [Array.from(new Set(arr))]: the first occurrence of every value. *)
Section Unique.
Context {A : Type} (eqb : A -> A -> bool).

Fixpoint unique_from (seen l : list A) : list A :=
  match l with
  | [] => []
  | x :: l' =>
      if existsb (eqb x) seen then unique_from seen l'
      else x :: unique_from (x :: seen) l'
  end.

Definition unique (l : list A) : list A := unique_from [] l.
End Unique.

(** *** [Map] with insertion order: an association list *)

Section Map.
Context {K V : Type} (keq : K -> K -> bool).

Fixpoint map_get (k : K) (m : list (K * V)) : option V :=
  match m with
  | [] => None
  | (k', v) :: m' => if keq k' k then Some v else map_get k m'
  end.

Definition map_has (k : K) (m : list (K * V)) : bool :=
  existsb (fun e => keq (fst e) k) m.

(** [m.set(k, v)]: an existing key keeps its position. *)
Fixpoint map_set (k : K) (v : V) (m : list (K * V)) : list (K * V) :=
  match m with
  | [] => [(k, v)]
  | (k', v') :: m' =>
      if keq k' k then (k', v) :: m' else (k', v') :: map_set k v m'
  end.
End Map.

(** *** Numbers: IEEE 754 binary64 *)

Definition number := spec_float.
Definition prec : Z := 53.
Definition emax : Z := 1024.

Definition NaN : number := S754_nan.
Definition of_Z (z : Z) : number := binary_normalize prec emax z 0 false.

Definition div (x y : number) : number := SFdiv prec emax x y.
Definition mul (x y : number) : number := SFmul prec emax x y.

(** [Math.floor] *)
Definition floor (x : number) : number :=
  match x with
  | S754_finite s m e =>
      if (0 <=? e)%Z then x
      else binary_normalize prec emax
             (Z.shiftr (cond_Zopp s (Zpos m)) (- e)) 0 false
  | _ => x
  end.

Definition is_nan (x : number) : bool :=
  match x with S754_nan => true | _ => false end.

(** [x === y] on numbers. *)
Definition strict_eq (x y : number) : bool := SFeqb x y.

(** SameValueZero, the key equality of [Map]: as [===] but NaN equals
    NaN. *)
Definition same_value_zero (x y : number) : bool :=
  is_nan x && is_nan y || SFeqb x y.

(** The key a [Map] stores for a number: -0 is stored as +0. *)
Definition map_key (x : number) : number :=
  match x with S754_zero _ => S754_zero false | _ => x end.

(** [!x] on a number: true for +0, -0 and NaN. *)
Definition falsy (x : number) : bool :=
  match x with S754_zero _ | S754_nan => true | _ => false end.

(** *** Numeric coercion of a string: unary [+] *)

Definition is_ws (c : ascii) : bool :=
  let n := nat_of_ascii c in
  ((9 <=? n) && (n <=? 13) || (n =? 32) || (n =? 160))%nat.

Fixpoint trim_start (s : list ascii) : list ascii :=
  match s with
  | c :: s' => if is_ws c then trim_start s' else s
  | [] => []
  end.

Definition trim (s : list ascii) : list ascii :=
  rev (trim_start (rev (trim_start s))).

Definition digit_val (c : ascii) : option Z :=
  let n := Z.of_nat (nat_of_ascii c) in
  if (48 <=? n)%Z && (n <=? 57)%Z then Some (n - 48)%Z
  else if (97 <=? n)%Z && (n <=? 102)%Z then Some (n - 87)%Z
  else if (65 <=? n)%Z && (n <=? 70)%Z then Some (n - 55)%Z
  else None.

Definition digit_in (base : Z) (c : ascii) : option Z :=
  match digit_val c with
  | Some d => if (d <? base)%Z then Some d else None
  | None => None
  end.

(** Reads the longest prefix of digits of [base]: the value read (on top
    of [acc]), the number of digits and the rest. *)
Fixpoint read_digits (base acc : Z) (n : nat) (s : list ascii)
  : Z * nat * list ascii :=
  match s with
  | c :: s' =>
      match digit_in base c with
      | Some d => read_digits base (acc * base + d)%Z (S n) s'
      | None => (acc, n, s)
      end
  | [] => (acc, n, [])
  end.

(** The binary64 nearest to [(-1)^s * m * 10^e10] (ties to even). *)
Definition decimal_value (s : bool) (m e10 : Z) : number :=
  match m with
  | Zpos p =>
      if (0 <=? e10)%Z
      then binary_normalize prec emax (cond_Zopp s (m * 10 ^ e10)) 0 s
      else
        let '(q, e', l) :=
          SFdiv_core_binary prec emax m 0 (10 ^ (- e10)) 0 in
        binary_round_aux prec emax s q e' l
  | _ => S754_zero s
  end.

(** [0x..], [0o..], [0b..]: no sign, at least one digit. *)
Definition radix_of (c : ascii) : option Z :=
  match c with
  | "x"%char | "X"%char => Some 16%Z
  | "o"%char | "O"%char => Some 8%Z
  | "b"%char | "B"%char => Some 2%Z
  | _ => None
  end.

Definition parse_exponent (s : list ascii) : option Z :=
  match s with
  | [] => Some 0%Z
  | c :: r =>
      if (Ascii.eqb c "e" || Ascii.eqb c "E")%bool then
        let '(neg, r') :=
          match r with
          | "-"%char :: r' => (true, r')
          | "+"%char :: r' => (false, r')
          | _ => (false, r)
          end in
        match read_digits 10 0 0 r' with
        | (v, S _, []) => Some (cond_Zopp neg v)
        | _ => None
        end
      else None
  end.

Definition parse_unsigned_decimal (s : bool) (l : list ascii) : number :=
  if list_eq_dec ascii_dec l (list_ascii_of_string "Infinity")
  then S754_infinity s
  else
    let '(i, ni, r1) := read_digits 10 0 0 l in
    let '(m, nf, r2) :=
      match r1 with
      | "."%char :: r => read_digits 10 i 0 r
      | _ => (i, 0%nat, r1)
      end in
    match (ni + nf)%nat, parse_exponent r2 with
    | S _, Some e => decimal_value s m (e - Z.of_nat nf)
    | _, _ => NaN
    end.

Definition parse_number (l : list ascii) : number :=
  match l with
  | [] => S754_zero false
  | "-"%char :: r => parse_unsigned_decimal true r
  | "+"%char :: r => parse_unsigned_decimal false r
  | "0"%char :: c :: r =>
      match radix_of c with
      | Some b =>
          match read_digits b 0 0 r with
          | (v, S _, []) => of_Z v
          | _ => NaN
          end
      | None => parse_unsigned_decimal false l
      end
  | _ => parse_unsigned_decimal false l
  end.

(** [+x] for [x : string | undefined]. *)
Definition to_number (x : field) : number :=
  match x with
  | None => NaN
  | Some s => parse_number (trim (list_ascii_of_string s))
  end.

End JS.

(** ** d3-array: [group], [rollup], and the stable [Array.prototype.sort] *)

Module D3.

Section Group.
Context {A K : Type} (keq : K -> K -> bool).

(** One step of the grouping loop: [groups.get(key)] then [push] or
    [groups.set(key, [value])]. *)
Fixpoint group_add (k : K) (a : A) (m : list (K * list A))
  : list (K * list A) :=
  match m with
  | [] => [(k, [a])]
  | (k', vs) :: m' =>
      if keq k' k then (k', vs ++ [a]) :: m'
      else (k', vs) :: group_add k a m'
  end.

(** Groups in the order their key first occurs; values keep the input
    order.  For number keys the key function is composed with
    [JS.map_key]. *)
Definition group (key : A -> K) (data : list A) : list (K * list A) :=
  fold_left (fun m a => group_add (key a) a m) data [].

(** [d3.rollup(data, reduce, key)], as its [entries()]. *)
Definition rollup {R : Type} (reduce : list A -> R) (key : A -> K)
    (data : list A) : list (K * R) :=
  map (fun e => (fst e, reduce (snd e))) (group key data).
End Group.

(** [d3.rollup(data, reduce, key1, key2)]; [d3.rollups] returns the same
    entries as nested arrays. *)
Definition rollup2 {A K1 K2 R : Type} (keq1 : K1 -> K1 -> bool)
    (keq2 : K2 -> K2 -> bool) (reduce : list A -> R)
    (key1 : A -> K1) (key2 : A -> K2) (data : list A)
  : list (K1 * list (K2 * R)) :=
  map (fun e => (fst e, rollup keq2 reduce key2 (snd e)))
      (group keq1 key1 data).

Section Sort.
Context {A : Type} (compare : A -> A -> Z).

Fixpoint insert (x : A) (l : list A) : list A :=
  match l with
  | [] => [x]
  | y :: l' => if (compare x y <=? 0)%Z then x :: l else y :: insert x l'
  end.

(** [arr.sort(compare)]: the sort is stable, so for a consistent
    comparator the result is the one of a stable insertion sort. *)
Definition sort (l : list A) : list A := fold_right insert [] l.
End Sort.

(** The comparator [(a, b) => b[1] - a[1]] on entries with a count. *)
Definition by_count_desc {K : Type} (a b : K * nat) : Z :=
  (Z.of_nat (snd b) - Z.of_nat (snd a))%Z.

(** [Array.from(rollup.entries()).sort(...).slice(0, n).map(d => d[0])] *)
Definition top_keys {K : Type} (n : nat) (counts : list (K * nat))
  : list K :=
  map fst (firstn n (sort by_count_desc counts)).

End D3.

(** ** The rows of the CSV file *)

Module DSV.

(** A row as [d3.csv] yields it: every column is [string | undefined]. *)
Record DSVRowString := {
  genre : JS.field;
  age_category : JS.field;
  publicationYear : JS.field;
  bestseller_status : JS.field;
  adapted_to_movie : JS.field
}.

End DSV.

Definition RawRow : Set := DSV.DSVRowString.

(** ** Container size and the resize notifications *)

Module Tracker.

Record ComponentSize := { width : JS.number; height : JS.number }.

(** A time-stamped size: the time is in milliseconds.  It stands both
    for a notification of the resize observer (the measured size) and
    for a call of [setSize] (the published size). *)
Definition stamped : Type := nat * ComponentSize.

(** *** The debounce of [useDebounceCallback]

    The usehooks-ts package is not part of the sources; its debounce is
    taken as the specification describes it (section 4.3 and glossary): a
    call replaces the pending measurement and restarts the interval, and
    the pending measurement is published once the interval has passed
    without a new call. *)
Section Debounce.
Variable wait : nat.

(** The pending call: its time and its argument. *)
Definition pending : Type := option stamped.

(** Modelled from the spec: the timer of [useDebounceCallback], which is
    not in the sources.  When it has run out at time [now], the pending
    call goes out. *)
Definition expire (now : nat) (p : pending) : list stamped * pending :=
  match p with
  | Some (t0, a) =>
      if (t0 + wait <=? now)%nat then ([(t0 + wait, a)], None) else ([], p)
  | None => ([], None)
  end.

(** Modelled from the spec: a call of the debounced function of
    [useDebounceCallback], which is not in the sources.  The call replaces
    the pending one. *)
Definition call (n : stamped) (p : pending) : list stamped * pending :=
  (fst (expire (fst n) p), Some n).

(** Modelled from the spec: the debounced function of
    [useDebounceCallback], which is not in the sources, over its calls in
    time order, followed by the time that lets the last timer run out. *)
Fixpoint run (ns : list stamped) (p : pending) : list stamped :=
  match ns with
  | [] => match p with Some (t0, a) => [(t0 + wait, a)] | None => [] end
  | n :: ns' => fst (call n p) ++ run ns' (snd (call n p))
  end.
End Debounce.

Definition is_zero (x : JS.number) : bool := JS.strict_eq x (JS.of_Z 0).

End Tracker.

(** ** The marks of a chart *)

Module SVG.

(** What a chart appends to its [svg] element; positions, sizes and
    colours are left out. *)
Inductive mark :=
| Background
| Bars (series categories : list string)
| Cells (n : nat)
| AxisBand (ticks : nat)
| AxisLinear
| Title (text : string)
| Label (text : string)
| Legend (entries : list string)
| ColorLegend (stops : nat)
| OutlineLegend
| Flow (links nodes : nat) (layers : list string).

End SVG.

(** ** Stacked bar chart: genre by age category *)

Module StackedBarChart.

Record StackedBar := { category : string; stack : string; value : nat }.

(** [useDebounceCallback((size) => setSize(size), 200)] as [onResize] of
    [useResizeObserver]: the calls of [setSize] for the notifications
    [ns]. *)
Definition onResize (ns : list Tracker.stamped) : list Tracker.stamped :=
  Tracker.run 200 ns None.

Definition loadData (rawData : list RawRow) : list StackedBar :=
  let grouped :=
    D3.rollup2 JS.field_eqb JS.field_eqb (@List.length RawRow)
               DSV.genre DSV.age_category rawData in
  flat_map
    (fun gm =>
       map (fun ac =>
              {| category := JS.nullish (fst gm) "Unknown";
                 stack := JS.nullish (fst ac) "Unknown";
                 value := snd ac |})
           (snd gm))
    grouped.

Definition drawChart (bars : list StackedBar) (size : Tracker.ComponentSize)
  : list SVG.mark :=
  let genres := JS.unique String.eqb (map category bars) in
  let stacks := JS.unique String.eqb (map stack bars) in
  [ SVG.Background;
    SVG.Bars stacks genres;
    SVG.AxisBand (List.length genres);
    SVG.AxisLinear;
    SVG.Title "Top 1000 Swapped Books by Genre and Age Category";
    SVG.Label "Genre";
    SVG.Label "Counts";
    SVG.Legend stacks ].

(** The effect on [bars] and [size]: the content of [#bar-svg] after it,
    from the content before it. *)
Definition draw_effect (bars : list StackedBar)
    (size : Tracker.ComponentSize) (svg : list SVG.mark) : list SVG.mark :=
  match bars with
  | [] => svg
  | _ =>
      if Tracker.is_zero (Tracker.width size)
         || Tracker.is_zero (Tracker.height size)
      then svg
      else drawChart bars size
  end.

End StackedBarChart.

(** ** Heatmap: genre by publication decade *)

Module GenreDecadeHeatmap.

Record HeatmapData := { genre : JS.field; decade : JS.number; count : nat }.

Definition onResize (ns : list Tracker.stamped) : list Tracker.stamped :=
  Tracker.run 200 ns None.

Definition topGenres (rawData : list RawRow) : list JS.field :=
  D3.top_keys 20
    (D3.rollup JS.field_eqb (@List.length RawRow) DSV.genre rawData).

(** [d => topGenres.includes(d.genre!) ? d.genre! : 'Other'] *)
Definition genre_key (top : list JS.field) (d : RawRow) : JS.field :=
  if JS.includes top (DSV.genre d) then DSV.genre d else Some "Other".

(** [d => Math.floor(+d.publicationYear! / 10) * 10] *)
Definition decade_key (d : RawRow) : JS.number :=
  JS.mul (JS.floor (JS.div (JS.to_number (DSV.publicationYear d))
                           (JS.of_Z 10)))
         (JS.of_Z 10).

Definition grouped (rawData : list RawRow)
  : list (JS.field * list (JS.number * nat)) :=
  D3.rollup2 JS.field_eqb JS.same_value_zero (@List.length RawRow)
             (genre_key (topGenres rawData))
             (fun d => JS.map_key (decade_key d)) rawData.

Definition loadData (rawData : list RawRow) : list HeatmapData :=
  flat_map
    (fun gd =>
       map (fun dc =>
              {| genre := fst gd; decade := fst dc; count := snd dc |})
           (snd gd))
    (grouped rawData).

(** [d3.max(data, d => d.count) || 1] *)
Definition maxCount (data : list HeatmapData) : nat :=
  match fold_right Nat.max 0 (map count data) with
  | 0 => 1
  | n => n
  end.

(** The length of [d3.range(0, maxCount + 1, step)]. *)
Definition legendStops (data : list HeatmapData) : nat :=
  let step := Nat.max 1 (maxCount data / 10) in
  (maxCount data + step) / step.

Definition drawChart (data : list HeatmapData) (size : Tracker.ComponentSize)
  : list SVG.mark :=
  let genres := JS.unique JS.field_eqb (map genre data) in
  let decades := JS.unique JS.same_value_zero (map decade data) in
  [ SVG.Background;
    SVG.Cells (List.length data);
    SVG.AxisBand (List.length decades);
    SVG.AxisBand (List.length genres);
    SVG.Label "Publication Decade";
    SVG.Label "Counts of Genre";
    SVG.Title
      "Trends in Top 20 Genres of Top 1000 Swapped Book Publications";
    SVG.ColorLegend (legendStops data);
    SVG.OutlineLegend ].

Definition draw_effect (data : list HeatmapData)
    (size : Tracker.ComponentSize) (svg : list SVG.mark) : list SVG.mark :=
  match data with
  | [] => svg
  | _ =>
      if Tracker.is_zero (Tracker.width size)
         || Tracker.is_zero (Tracker.height size)
      then svg
      else drawChart data size
  end.

End GenreDecadeHeatmap.

(** ** Sankey diagram: genre, age category, movie adaptation, bestseller *)

Module SankeyChart.

Record MyNode := { name : JS.field; layer : nat }.
Record MyLink := { source : JS.field; target : JS.field; value : nat }.

Definition NodeMap : Type := list (JS.field * MyNode).
Definition LinkMap : Type := list (string * nat).

(** The [ResizeObserver] callback: [setSize] for every entry, as it
    comes. *)
Definition onResize (ns : list Tracker.stamped) : list Tracker.stamped :=
  ns.

Definition topGenres (rawData : list RawRow) : list JS.field :=
  D3.top_keys 10
    (D3.rollup JS.field_eqb (@List.length RawRow) DSV.genre rawData).

Definition addNode (name : JS.field) (layer : nat) (nodeMap : NodeMap)
  : NodeMap :=
  if JS.map_has JS.field_eqb name nodeMap then nodeMap
  else nodeMap ++ [(name, {| name := name; layer := layer |})].

Definition link_key (source target : JS.field) : string :=
  JS.String_ source ++ "|||" ++ JS.String_ target.

Definition addLink (source target : JS.field) (linkMap : LinkMap)
  : LinkMap :=
  let key := link_key source target in
  JS.map_set String.eqb key
    (match JS.map_get String.eqb key linkMap with
     | Some n => n
     | None => 0
     end + 1)
    linkMap.

Definition is_true (x : JS.field) : bool :=
  String.eqb (JS.toLowerCase (JS.String_ x)) "true".

Definition bestsellerStatus (d : RawRow) : string :=
  if is_true (DSV.bestseller_status d)
  then "Bestseller" else "Not Bestseller".

Definition movieStatus (d : RawRow) : string :=
  if is_true (DSV.adapted_to_movie d)
  then "Adapted To Movie" else "Not Adapted To Movie".

(** The body of [rawData.forEach]. *)
Definition visit (top : list JS.field) (st : NodeMap * LinkMap)
    (d : RawRow) : NodeMap * LinkMap :=
  let genre := DSV.genre d in
  if negb (JS.includes top genre) then st
  else
    let age := DSV.age_category d in
    let bs := Some (bestsellerStatus d) in
    let ms := Some (movieStatus d) in
    (addNode bs 3 (addNode ms 2 (addNode age 1 (addNode genre 0 (fst st)))),
     addLink ms bs (addLink age ms (addLink genre age (snd st)))).

(** [const [source, target] = key.split('|||')] *)
Definition decode_link (e : string * nat) : MyLink :=
  let parts := JS.split "|||" (fst e) in
  {| source := nth_error parts 0;
     target := nth_error parts 1;
     value := snd e |}.

(** The node and link state after [loadData]; both start empty and stay
    so when there are no rows. *)
Definition loadData (rawData : list RawRow) : list MyNode * list MyLink :=
  match rawData with
  | [] => ([], [])
  | _ =>
      let st := fold_left (visit (topGenres rawData)) rawData ([], []) in
      (map snd (fst st), map decode_link (snd st))
  end.

Definition layerNames : list string :=
  ["Genre"; "Age Category"; "Movie Adaptation"; "Bestseller Status"].

(** *** The layout of [d3-sankey], as far as it can fail

    [sankey({nodes, links})] with [nodeId(d => d.name)] and
    [nodeAlign(d => d.layer)] runs [computeNodeLinks], [computeNodeValues],
    [computeNodeDepths], [computeNodeHeights] and [computeNodeBreadths].
    It throws when a link names no node, when the links have a cycle, and
    when a column is left without a node; nodes are numbered as they come
    in [nodes]. *)

(** [nodeById.get(id)] for
    [nodeById = new Map(nodes.map(d => [d.name, d]))]: the last node of
    that name, from the number [i] on. *)
Fixpoint find_from (i : nat) (nodes : list MyNode) (id : JS.field)
  : option nat :=
  match nodes with
  | [] => None
  | n :: nodes' =>
      match find_from (S i) nodes' id with
      | Some j => Some j
      | None => if JS.field_eqb (name n) id then Some i else None
      end
  end.

(** [find(nodeById, id)]; [None] is [throw new Error("missing: " + id)]. *)
Definition find (nodes : list MyNode) (id : JS.field) : option nat :=
  find_from 0 nodes id.

(** [computeNodeLinks]: every link gets the nodes of its source and of
    its target. *)
Fixpoint computeNodeLinks (nodes : list MyNode) (links : list MyLink)
  : option (list (nat * nat)) :=
  match links with
  | [] => Some []
  | l :: links' =>
      match find nodes (source l), find nodes (target l) with
      | Some s, Some t =>
          match computeNodeLinks nodes links' with
          | Some edges => Some ((s, t) :: edges)
          | None => None
          end
      | _, _ => None
      end
  end.

(** [for (const node of current) for (const {target} of node.sourceLinks)
     next.add(target)] *)
Definition successors (edges : list (nat * nat)) (current : list nat)
  : list nat :=
  JS.unique Nat.eqb
    (flat_map
       (fun u => map snd (filter (fun e => (fst e =? u)%nat) edges))
       current).

(** [for (const node of current) for (const {source} of node.targetLinks)
     next.add(source)] *)
Definition predecessors (edges : list (nat * nat)) (current : list nat)
  : list nat :=
  JS.unique Nat.eqb
    (flat_map
       (fun u => map fst (filter (fun e => (snd e =? u)%nat) edges))
       current).

(** [while (current.size) { ...; if (++x > n) throw new Error("circular
    link"); current = next; }] with [k = n - x]: the value of [x] after
    the loop. *)
Fixpoint sweep (k : nat) (step : list nat -> list nat) (current : list nat)
  : option nat :=
  match current with
  | [] => Some 0
  | _ :: _ =>
      match k with
      | 0 => None
      | S k' =>
          match sweep k' step (step current) with
          | Some x => Some (S x)
          | None => None
          end
      end
  end.

(** [computeNodeDepths]: the largest depth and 1, which is the number of
    rounds of the loop. *)
Definition computeNodeDepths (n : nat) (edges : list (nat * nat))
  : option nat :=
  sweep n (successors edges) (seq 0 n).

Definition computeNodeHeights (n : nat) (edges : list (nat * nat))
  : option nat :=
  sweep n (predecessors edges) (seq 0 n).

(** [Math.max(0, Math.min(x - 1, Math.floor(align(node, x))))] for
    [align = d => d.layer]. *)
Definition column (x : nat) (n : MyNode) : nat :=
  Nat.max 0 (Nat.min (x - 1) (layer n)).

(** No entry of [columns = new Array(x)] is left empty:
    [max(columns, c => c.length)] in [computeNodeBreadths] throws a
    [TypeError] on an empty one. *)
Definition columns_filled (x : nat) (nodes : list MyNode) : bool :=
  forallb (fun i => existsb (fun n => (column x n =? i)%nat) nodes)
    (seq 0 x).

(** The layout: the number of columns, or [None] when it throws.  Without
    a node, [new Array(NaN)] throws a [RangeError]. *)
Definition layout (nodes : list MyNode) (links : list MyLink)
  : option nat :=
  match computeNodeLinks nodes links with
  | None => None
  | Some edges =>
      let n := List.length nodes in
      match computeNodeDepths n edges, computeNodeHeights n edges with
      | Some x, Some _ =>
          if (n =? 0)%nat then None
          else if columns_filled x nodes then Some x else None
      | _, _ => None
      end
  end.

(** What the effect draws after it has cleared the [svg]: the layout
    comes first, and when it throws the [svg] is left without a mark. *)
Definition drawChart (nodeData : list MyNode) (linkData : list MyLink)
    (size : Tracker.ComponentSize) : list SVG.mark :=
  match layout nodeData linkData with
  | None => []
  | Some _ =>
      [ SVG.Flow (List.length linkData) (List.length nodeData) layerNames;
        SVG.Title "Top 1000 Swapped Books Sankey Diagram" ]
  end.

(** [if (!nodeData.length || !linkData.length) return;
     if (!size.width || !size.height) return;] *)
Definition draw_effect (nodeData : list MyNode) (linkData : list MyLink)
    (size : Tracker.ComponentSize) (svg : list SVG.mark) : list SVG.mark :=
  if (List.length nodeData =? 0)%nat || (List.length linkData =? 0)%nat
  then svg
  else if JS.falsy (Tracker.width size) || JS.falsy (Tracker.height size)
  then svg
  else drawChart nodeData linkData size.

End SankeyChart.

(** ** The three charts of the page *)

Inductive chart := StackedBar | Heatmap | Sankey.

(** What a chart publishes with [setSize] for the resize notifications
    [ns]. *)
Definition size_updates (c : chart) (ns : list Tracker.stamped)
  : list Tracker.stamped :=
  match c with
  | StackedBar => StackedBarChart.onResize ns
  | Heatmap => GenreDecadeHeatmap.onResize ns
  | Sankey => SankeyChart.onResize ns
  end.

(* ================================================================== *)
(** * Part I, continued.  The vocabulary of the properties             *)
(* ================================================================== *)

(** ** Grouping *)

Section GroupSpec.
Context {A K : Type} (keq : K -> K -> bool) (key : A -> K).

(** The row [x] has the key [k]. *)
Definition same_key (k : K) (x : A) : bool := keq k (key x).

(** The groups of [data]: keys are distinct keys of rows, and the group
    of a key holds the rows of that key in input order. *)
Definition grouped_ok (data : list A) (m : list (K * list A)) : Prop :=
  NoDup (map fst m)
  /\ (forall k vs, In (k, vs) m ->
        exists a, In a data /\ k = key a /\ vs = filter (same_key k) data)
  /\ (forall a, In a data -> In (key a, filter (same_key (key a)) data) m).
End GroupSpec.

(** The number of rows in the groups. *)
Definition total {A K : Type} (m : list (K * list A)) : nat :=
  list_sum (map (fun e => List.length (snd e)) m).

(** Counts from the largest to the smallest. *)
Definition descending {K : Type} (l : list (K * nat)) : Prop :=
  StronglySorted (fun a b => snd b <= snd a) l.

(** ** Counting with a map *)

Section CountSpec.
Context {K : Type} (keq : K -> K -> bool).

(** [m.set(k, (m.get(k) ?? 0) + 1)] *)
Definition bump (m : list (K * nat)) (k : K) : list (K * nat) :=
  JS.map_set keq k
    (match JS.map_get keq k m with Some n => n | None => 0 end + 1) m.

(** The number of occurrences of [k] in [ks]. *)
Definition occurrences (k : K) (ks : list K) : nat :=
  List.length (filter (keq k) ks).

(** The map built by counting the keys [ks] one by one. *)
Definition counted (ks : list K) : list (K * nat) := fold_left bump ks [].
End CountSpec.

(** ** Stacked bar chart *)

Definition bar_total (bars : list StackedBarChart.StackedBar) : nat :=
  list_sum (map StackedBarChart.value bars).

(** The rows with the genre and the age category of [r]. *)
Definition same_genre_age (r : RawRow) (rows : list RawRow) : list RawRow :=
  filter (fun x => JS.field_eqb (DSV.age_category r) (DSV.age_category x))
    (filter (fun x => JS.field_eqb (DSV.genre r) (DSV.genre x)) rows).

Definition nonempty (s : string) : bool := negb (String.eqb s "").

(** C3, as the specification states it, counts the rows whose fields are
    not empty: with a missing field read as ["Unknown"], neither the genre
    nor the age category is the empty string. *)
Definition fields_nonempty (r : RawRow) : bool :=
  nonempty (JS.nullish (DSV.genre r) "Unknown")
  && nonempty (JS.nullish (DSV.age_category r) "Unknown").

(** ** Numbers and numerals *)

(** Equality of two numbers as data. *)
Definition number_eqb (x y : JS.number) : bool :=
  match x, y with
  | S754_zero a, S754_zero b => Bool.eqb a b
  | S754_infinity a, S754_infinity b => Bool.eqb a b
  | S754_nan, S754_nan => true
  | S754_finite a m e, S754_finite b m' e' =>
      Bool.eqb a b && Pos.eqb m m' && Z.eqb e e'
  | _, _ => false
  end.

(** [Math.floor(x / 10) * 10] *)
Definition decade_of_number (x : JS.number) : JS.number :=
  JS.mul (JS.floor (JS.div x (JS.of_Z 10))) (JS.of_Z 10).

(** A check of [f] on the [fuel] integers from [n] on. *)
Fixpoint all_from (f : Z -> bool) (fuel : nat) (n : Z) : bool :=
  match fuel with
  | O => true
  | S k => f n && all_from f k (n + 1)
  end.

(** The decade of the year [n], computed in binary64, is [10 * (n / 10)]. *)
Definition decade_exact (n : Z) : bool :=
  number_eqb (decade_of_number (JS.decimal_value false n 0))
             (JS.of_Z (10 * (n / 10))).

(** A decimal digit and its value. *)
Definition digit_of (c : ascii) : option Z :=
  match c with
  | "0"%char => Some 0%Z | "1"%char => Some 1%Z | "2"%char => Some 2%Z
  | "3"%char => Some 3%Z | "4"%char => Some 4%Z | "5"%char => Some 5%Z
  | "6"%char => Some 6%Z | "7"%char => Some 7%Z | "8"%char => Some 8%Z
  | "9"%char => Some 9%Z
  | _ => None
  end.

(** The value of a string of decimal digits, on top of [acc]. *)
Fixpoint numeral (acc : Z) (s : list ascii) : option Z :=
  match s with
  | [] => Some acc
  | c :: s' =>
      match digit_of c with
      | Some d => numeral (10 * acc + d) s'
      | None => None
      end
  end.

(** The integer a non-empty string of decimal digits denotes. *)
Definition year_literal (s : string) : option Z :=
  match list_ascii_of_string s with
  | [] => None
  | l => numeral 0 l
  end.

(** ** Heatmap *)

Definition heat_total (data : list GenreDecadeHeatmap.HeatmapData) : nat :=
  list_sum (map GenreDecadeHeatmap.count data).

(** The rows that share the heatmap cell of [r]: the same genre label and
    the same decade key. *)
Definition same_cell (rows : list RawRow) (r : RawRow) : list RawRow :=
  let top := GenreDecadeHeatmap.topGenres rows in
  filter (fun x => JS.same_value_zero
                     (JS.map_key (GenreDecadeHeatmap.decade_key r))
                     (JS.map_key (GenreDecadeHeatmap.decade_key x)))
    (filter (fun x => JS.field_eqb (GenreDecadeHeatmap.genre_key top r)
                                   (GenreDecadeHeatmap.genre_key top x))
       rows).

(** A row is numeric when the coercion of its year is not NaN. *)
Definition numeric_year (r : RawRow) : bool :=
  negb (JS.is_nan (JS.to_number (DSV.publicationYear r))).

(** C1, as the specification states it: no datum has a NaN decade, and the
    data count the rows with a numeric year only. *)
Definition excludes_non_numeric_years (rows : list RawRow) : Prop :=
  (forall d, In d (GenreDecadeHeatmap.loadData rows) ->
             JS.is_nan (GenreDecadeHeatmap.decade d) = false)
  /\ heat_total (GenreDecadeHeatmap.loadData rows)
     = List.length (filter numeric_year rows).

(** ** Genre frequencies *)

(** The number of rows of genre [g]. *)
Definition freq (g : JS.field) (rows : list RawRow) : nat :=
  List.length (filter (fun x => JS.field_eqb g (DSV.genre x)) rows).

(** [d3.rollup(rawData, v => v.length, d => d.genre)], the counts both
    [topGenres] sort. *)
Definition genre_counts (rows : list RawRow) : list (JS.field * nat) :=
  D3.rollup JS.field_eqb (@List.length RawRow) DSV.genre rows.

(** [g] occurs in [l] before any [h] does. *)
Definition occurs_before {A : Type} (g h : A) (l : list A) : Prop :=
  exists pre post, l = pre ++ g :: post /\ ~ In h pre.

(** [a] comes before [b] in [l]. *)
Definition precedes {A : Type} (a b : A) (l : list A) : Prop :=
  exists l1 l2, l = l1 ++ a :: l2 /\ In b l2.

(** The order of a stable sort by descending count of the entries of
    [l]: a larger count first, and for equal counts the order of [l]. *)
Definition stable_desc {K : Type} (l : list (K * nat)) (a b : K * nat)
  : Prop :=
  snd b < snd a \/ (snd a = snd b /\ precedes a b l).

(** ** Links of the Sankey diagram *)

(** The string has a ["|"] in it. *)
Fixpoint has_bar (s : string) : bool :=
  match s with
  | EmptyString => false
  | String c s' => Ascii.eqb c "|" || has_bar s'
  end.

(** The key of the link from [fst p] to [snd p]. *)
Definition pair_key (p : string * string) : string :=
  fst p ++ "|||" ++ snd p.

(** Neither label of the pair has a ["|"] in it. *)
Definition bar_free (p : string * string) : Prop :=
  has_bar (fst p) = false /\ has_bar (snd p) = false.

Definition pair_eqb (p q : string * string) : bool :=
  String.eqb (fst p) (fst q) && String.eqb (snd p) (snd q).

(** The number of occurrences of the pair [p] in [l]. *)
Definition count_pair (p : string * string) (l : list (string * string))
  : nat :=
  List.length (filter (pair_eqb p) l).

(** The row is among the rows the flow reducer processes. *)
Definition survives (rows : list RawRow) (d : RawRow) : bool :=
  JS.includes (SankeyChart.topGenres rows) (DSV.genre d).

(** The rows the flow reducer processes, in input order. *)
Definition surviving (rows : list RawRow) : list RawRow :=
  filter (survives rows) rows.

(** The three transitions of a row, between labels as the links name
    them. *)
Definition transitions (d : RawRow) : list (string * string) :=
  [ (JS.String_ (DSV.genre d), JS.String_ (DSV.age_category d));
    (JS.String_ (DSV.age_category d), SankeyChart.movieStatus d);
    (SankeyChart.movieStatus d, SankeyChart.bestsellerStatus d) ].

(** The transitions of all surviving rows, in the order [addLink] sees
    them. *)
Definition all_transitions (rows : list RawRow) : list (string * string) :=
  flat_map transitions (surviving rows).

(** The surviving rows one of whose transitions is [p]. *)
Definition rows_producing (p : string * string) (rows : list RawRow) : nat :=
  List.length (filter (fun d => existsb (pair_eqb p) (transitions d))
                 (surviving rows)).

(** The links from [fst p] to [snd p] among [links]. *)
Definition links_of (p : string * string)
    (links : list SankeyChart.MyLink) : list SankeyChart.MyLink :=
  filter (fun l => JS.field_eqb (SankeyChart.source l) (Some (fst p))
                   && JS.field_eqb (SankeyChart.target l) (Some (snd p)))
    links.

(** No genre or age label of a surviving row has a ["|"] in it. *)
Definition labels_bar_free (rows : list RawRow) : Prop :=
  forall d, In d (surviving rows) ->
    has_bar (JS.String_ (DSV.genre d)) = false
    /\ has_bar (JS.String_ (DSV.age_category d)) = false.

(** [c] is the bar of the separator. *)
Definition is_bar (c : ascii) : bool := Ascii.eqb c "|".

(** The string starts with the separator ["|||"]. *)
Definition starts_with_sep (s : string) : bool :=
  match s with
  | String a (String b (String c _)) => is_bar a && is_bar b && is_bar c
  | _ => false
  end.

(** The string has the separator ["|||"] in it. *)
Fixpoint has_sep (s : string) : bool :=
  starts_with_sep s
  || match s with
     | EmptyString => false
     | String _ s' => has_sep s'
     end.

(** The last character of the string is a ["|"]. *)
Fixpoint ends_with_bar (s : string) : bool :=
  match s with
  | EmptyString => false
  | String c EmptyString => is_bar c
  | String _ s' => ends_with_bar s'
  end.

(** A label that a key keeps apart from what follows it: it has no
    separator in it and does not end with a bar. *)
Definition separable_label (s : string) : Prop :=
  has_sep s = false /\ ends_with_bar s = false.

(** The source of the pair is such a label, and the target has no
    separator in it. *)
Definition separable (p : string * string) : Prop :=
  separable_label (fst p) /\ has_sep (snd p) = false.

(** No genre or age label of a surviving row has a ["|||"] in it or ends
    with a ["|"]. *)
Definition labels_separable (rows : list RawRow) : Prop :=
  forall d, In d (surviving rows) ->
    separable_label (JS.String_ (DSV.genre d))
    /\ separable_label (JS.String_ (DSV.age_category d)).

(** C6, as the specification states it: every transition of a surviving
    row has exactly one link, and its weight is the number of surviving
    rows with that transition. *)
Definition flow_links_as_specified (rows : list RawRow) : Prop :=
  forall p, In p (all_transitions rows) ->
    exists l, links_of p (snd (SankeyChart.loadData rows)) = [l]
              /\ SankeyChart.value l = rows_producing p rows.

(** ** Status labels *)

Definition is_upper (c : ascii) : bool :=
  let n := nat_of_ascii c in ((65 <=? n) && (n <=? 90))%nat.

(** The same character, or the same letter in the other case. *)
Definition same_letter (a b : ascii) : bool :=
  Ascii.eqb a b
  || is_upper a && (nat_of_ascii a + 32 =? nat_of_ascii b)%nat
  || is_upper b && (nat_of_ascii b + 32 =? nat_of_ascii a)%nat.

Fixpoint equal_ignoring_case (s t : string) : bool :=
  match s, t with
  | EmptyString, EmptyString => true
  | String a s', String b t' => same_letter a b && equal_ignoring_case s' t'
  | _, _ => false
  end.

(** The field is there and reads ["true"] in any mix of cases. *)
Definition says_true (x : JS.field) : bool :=
  match x with
  | Some s => equal_ignoring_case s "true"
  | None => false
  end.

(** ** Nodes of the Sankey diagram *)

(** Where a node comes from: a row [d] gave its name to [addNode] with its
    layer. *)
Definition node_of_row (d : RawRow) (n : SankeyChart.MyNode) : Prop :=
  (SankeyChart.layer n = 0 /\ SankeyChart.name n = DSV.genre d)
  \/ (SankeyChart.layer n = 1 /\ SankeyChart.name n = DSV.age_category d)
  \/ (SankeyChart.layer n = 2
      /\ SankeyChart.name n = Some (SankeyChart.movieStatus d))
  \/ (SankeyChart.layer n = 3
      /\ SankeyChart.name n = Some (SankeyChart.bestsellerStatus d)).

Section NodeSpec.
Variable top : list JS.field.

(** The row is one of [seen] and its genre is among [top]. *)
Definition processed (seen : list RawRow) (d : RawRow) : Prop :=
  In d seen /\ JS.includes top (DSV.genre d) = true.

(** The node map after the rows [seen]: names are distinct, every node
    comes from a processed row, and every processed row has its four
    nodes. *)
Definition nodes_ok (seen : list RawRow) (nm : SankeyChart.NodeMap) : Prop :=
  NoDup (map fst nm)
  /\ (forall k n, In (k, n) nm ->
        SankeyChart.name n = k
        /\ exists d, processed seen d /\ node_of_row d n)
  /\ (forall d, processed seen d ->
        In (DSV.genre d) (map fst nm)
        /\ In (DSV.age_category d) (map fst nm)
        /\ In (Some (SankeyChart.movieStatus d)) (map fst nm)
        /\ In (Some (SankeyChart.bestsellerStatus d)) (map fst nm)).
End NodeSpec.

(** ** Drawing *)

(** The aggregated data of a chart. *)
Definition chart_data (c : chart) : Type :=
  match c with
  | StackedBar => list StackedBarChart.StackedBar
  | Heatmap => list GenreDecadeHeatmap.HeatmapData
  | Sankey => (list SankeyChart.MyNode * list SankeyChart.MyLink)%type
  end.

(** The aggregated data is empty; the Sankey chart checks its nodes and
    its links. *)
Definition data_empty (c : chart) : chart_data c -> Prop :=
  match c with
  | StackedBar => fun bars => bars = []
  | Heatmap => fun data => data = []
  | Sankey => fun nl => fst nl = [] \/ snd nl = []
  end.

(** The draw effect of a chart: the marks of its [svg] after it, from the
    marks before it. *)
Definition draw_effect (c : chart)
  : chart_data c -> Tracker.ComponentSize -> list SVG.mark -> list SVG.mark :=
  match c with
  | StackedBar => StackedBarChart.draw_effect
  | Heatmap => GenreDecadeHeatmap.draw_effect
  | Sankey => fun nl => SankeyChart.draw_effect (fst nl) (snd nl)
  end.

(** What the chart draws once its guard is passed. *)
Definition drawChart (c : chart)
  : chart_data c -> Tracker.ComponentSize -> list SVG.mark :=
  match c with
  | StackedBar => StackedBarChart.drawChart
  | Heatmap => GenreDecadeHeatmap.drawChart
  | Sankey => fun nl => SankeyChart.drawChart (fst nl) (snd nl)
  end.

(** ** Resize notifications *)

(** Every notification comes less than [wait] after the one before it,
    the first one after time [t]. *)
Fixpoint within (wait t : nat) (ns : list Tracker.stamped) : Prop :=
  match ns with
  | [] => True
  | n :: ns' => t <= fst n < t + wait /\ within wait (fst n) ns'
  end.

(** A burst: notifications that follow one another within the window. *)
Definition burst (wait : nat) (ns : list Tracker.stamped) : Prop :=
  match ns with
  | [] => False
  | n :: ns' => within wait (fst n) ns'
  end.

(** The most recent notification. *)
Definition latest (ns : list Tracker.stamped) : option Tracker.stamped :=
  match ns with
  | [] => None
  | n :: ns' => Some (last ns' n)
  end.

(** C2, as the specification states it: the chart publishes one update,
    with the most recent measurement. *)
Definition coalesces (c : chart) (ns : list Tracker.stamped) : Prop :=
  exists t n, latest ns = Some n /\ size_updates c ns = [(t, snd n)].

(** ** Cells, domains and highlights *)

(** The vocabulary of the further properties, and the parts of
    [drawChart] of the heatmap they are about. *)

(** The entries of [d3.rollup(data, v => v.length, key1, key2)] one by
    one, as the two nested loops of the reducers visit them: outer key,
    inner key, count. *)
Definition rollup_cells {A K1 K2 : Type} (keq1 : K1 -> K1 -> bool)
    (keq2 : K2 -> K2 -> bool) (key1 : A -> K1) (key2 : A -> K2)
    (data : list A) : list (K1 * K2 * nat) :=
  flat_map (fun e => map (fun e2 => (fst e, fst e2, snd e2)) (snd e))
    (D3.rollup2 keq1 keq2 (@List.length A) key1 key2 data).

(** The rows of [data] with both keys of [a]. *)
Definition same_keys {A K1 K2 : Type} (keq1 : K1 -> K1 -> bool)
    (keq2 : K2 -> K2 -> bool) (key1 : A -> K1) (key2 : A -> K2)
    (a : A) (data : list A) : list A :=
  filter (fun x => keq2 (key2 a) (key2 x))
    (filter (fun x => keq1 (key1 a) (key1 x)) data).

(** The bar of a cell of the rollup. *)
Definition bar_of_cell (c : JS.field * JS.field * nat)
  : StackedBarChart.StackedBar :=
  {| StackedBarChart.category := JS.nullish (fst (fst c)) "Unknown";
     StackedBarChart.stack := JS.nullish (snd (fst c)) "Unknown";
     StackedBarChart.value := snd c |}.

Definition bar_cells (rows : list RawRow) : list (JS.field * JS.field * nat) :=
  rollup_cells JS.field_eqb JS.field_eqb DSV.genre DSV.age_category rows.

(** The rows whose labels, with ["Unknown"] for a missing field, are those
    of the bar [b]. *)
Definition rows_labelled (b : StackedBarChart.StackedBar)
    (rows : list RawRow) : list RawRow :=
  filter (fun r =>
            String.eqb (JS.nullish (DSV.genre r) "Unknown")
                       (StackedBarChart.category b)
            && String.eqb (JS.nullish (DSV.age_category r) "Unknown")
                          (StackedBarChart.stack b))
    rows.

(** The datum of a cell of the rollup. *)
Definition heat_of_cell (c : JS.field * JS.number * nat)
  : GenreDecadeHeatmap.HeatmapData :=
  {| GenreDecadeHeatmap.genre := fst (fst c);
     GenreDecadeHeatmap.decade := snd (fst c);
     GenreDecadeHeatmap.count := snd c |}.

Definition heat_cells (rows : list RawRow)
  : list (JS.field * JS.number * nat) :=
  rollup_cells JS.field_eqb JS.same_value_zero
    (GenreDecadeHeatmap.genre_key (GenreDecadeHeatmap.topGenres rows))
    (fun d => JS.map_key (GenreDecadeHeatmap.decade_key d)) rows.

(** Only white space, or nothing at all. *)
Definition blank (s : string) : bool :=
  forallb JS.is_ws (list_ascii_of_string s).

(** The magnitude of a numeral with a minus sign: ["-"] then decimal
    digits. *)
Definition negative_year_literal (s : string) : option Z :=
  match list_ascii_of_string s with
  | "-"%char :: c :: l => numeral 0 (c :: l)
  | _ => None
  end.

(** The decade of the year [- n], computed in binary64 and stored as a map
    key, is [10 * (- n / 10)], with the division rounding down. *)
Definition decade_exact_neg (n : Z) : bool :=
  number_eqb
    (JS.map_key (decade_of_number (JS.decimal_value true n 0)))
    (JS.of_Z (10 * (- n / 10))).

Module HeatmapDraw.

(** [g !== 'Other'] fails. *)
Definition is_Other (g : JS.field) : bool := JS.field_eqb g (Some "Other").

(** [d3.rollup(data, v => d3.sum(v, d => d.count), d => d.genre)] *)
Definition genreCounts (data : list GenreDecadeHeatmap.HeatmapData)
  : list (JS.field * nat) :=
  D3.rollup JS.field_eqb
    (fun v => list_sum (map GenreDecadeHeatmap.count v))
    GenreDecadeHeatmap.genre data.

(** The domain of the y scale: the genres but ['Other'] by descending
    count, then ['Other'] if it is a genre of the data. *)
Definition genres (data : list GenreDecadeHeatmap.HeatmapData)
  : list JS.field :=
  map fst
    (D3.sort D3.by_count_desc
       (filter (fun e => negb (is_Other (fst e))) (genreCounts data)))
  ++ (if JS.map_has JS.field_eqb (Some "Other") (genreCounts data)
      then [Some "Other"] else []).

(** [d3.max(v, d => d.count)] on a group. *)
Definition max_count (v : list GenreDecadeHeatmap.HeatmapData) : nat :=
  fold_right Nat.max 0 (map GenreDecadeHeatmap.count v).

(** [d3.rollup(data.filter(d => d.genre !== 'Other'),
               v => d3.max(v, d => d.count)!, d => d.decade)] *)
Definition maxByDecade (data : list GenreDecadeHeatmap.HeatmapData)
  : list (JS.number * nat) :=
  D3.rollup JS.same_value_zero max_count
    (fun d => JS.map_key (GenreDecadeHeatmap.decade d))
    (filter (fun d => negb (is_Other (GenreDecadeHeatmap.genre d))) data).

(** [d.genre !== 'Other' && d.count === maxByDecade.get(d.decade)]: the
    cell gets the black stroke of width 2.5. *)
Definition dominant (data : list GenreDecadeHeatmap.HeatmapData)
    (d : GenreDecadeHeatmap.HeatmapData) : bool :=
  negb (is_Other (GenreDecadeHeatmap.genre d))
  && match JS.map_get JS.same_value_zero (GenreDecadeHeatmap.decade d)
             (maxByDecade data) with
     | Some m => (GenreDecadeHeatmap.count d =? m)%nat
     | None => false
     end.

End HeatmapDraw.

(** The sum of the counts of the data of genre [g]. *)
Definition genre_total (g : JS.field)
    (data : list GenreDecadeHeatmap.HeatmapData) : nat :=
  list_sum (map GenreDecadeHeatmap.count
              (filter (fun d => JS.field_eqb g (GenreDecadeHeatmap.genre d))
                 data)).

(** The two data are of the same decade, as a map sees it. *)
Definition same_decade (d d' : GenreDecadeHeatmap.HeatmapData) : bool :=
  JS.same_value_zero (GenreDecadeHeatmap.decade d)
                     (GenreDecadeHeatmap.decade d').

(** The current set of the loop of [sweep] after [j] rounds. *)
Fixpoint rounds (j : nat) (step : list nat -> list nat) (current : list nat)
  : list nat :=
  match j with
  | 0 => current
  | S j' => rounds j' step (step current)
  end.

(** Every number of [current] is the number of a node of [nodes] whose
    layer is at least [j]. *)
Definition from_layer (nodes : list SankeyChart.MyNode) (j : nat)
    (current : list nat) : Prop :=
  forall u, In u current ->
    exists n, nth_error nodes u = Some n /\ j <= SankeyChart.layer n.

(** Every number of [current] is the number of a node of [nodes] whose
    layer is at most [3 - j]. *)
Definition to_layer (nodes : list SankeyChart.MyNode) (j : nat)
    (current : list nat) : Prop :=
  forall u, In u current ->
    exists n, nth_error nodes u = Some n /\ SankeyChart.layer n + j <= 3.

(** The labels of the surviving rows keep to their columns: no genre or
    age label has a ["|||"] in it or ends with a ["|"], every surviving row
    has a genre and an age category, and no label has two roles: a genre
    is no age category and no status label, and an age category is no
    status label. *)
Definition labels_layered (rows : list RawRow) : Prop :=
  labels_separable rows
  /\ forall d d', In d (surviving rows) -> In d' (surviving rows) ->
       DSV.genre d <> None /\ DSV.age_category d <> None
       /\ DSV.genre d <> DSV.age_category d'
       /\ DSV.genre d <> Some (SankeyChart.movieStatus d')
       /\ DSV.genre d <> Some (SankeyChart.bestsellerStatus d')
       /\ DSV.age_category d <> Some (SankeyChart.movieStatus d')
       /\ DSV.age_category d <> Some (SankeyChart.bestsellerStatus d').

(** What the load effect of a chart leaves in its state for the rows of
    the file. *)
Definition aggregate (c : chart) (rows : list RawRow) : chart_data c :=
  match c with
  | StackedBar => StackedBarChart.loadData rows
  | Heatmap => GenreDecadeHeatmap.loadData rows
  | Sankey => SankeyChart.loadData rows
  end.

(** The nodes of a column of the diagram. *)
Definition at_layer (k : nat) (nodes : list SankeyChart.MyNode)
  : list SankeyChart.MyNode :=
  filter (fun n => (SankeyChart.layer n =? k)%nat) nodes.

(** The rows under the genre label [g] in the heatmap. *)
Definition rows_of_label (g : JS.field) (rows : list RawRow) : list RawRow :=
  filter
    (same_key JS.field_eqb
       (GenreDecadeHeatmap.genre_key (GenreDecadeHeatmap.topGenres rows)) g)
    rows.

(* ================================================================== *)
(** * Part II.  Properties                                             *)
(* ================================================================== *)

(** ** Grouping *)

Section GroupFacts.
Context {A K : Type} (keq : K -> K -> bool) (key : A -> K).

(** On the keys that occur, the key equality of the map is equality. *)
Hypothesis keq_spec : forall a b, keq (key a) (key b) = true <-> key a = key b.

Lemma group_snoc data a :
  D3.group keq key (data ++ [a])
  = D3.group_add keq (key a) a (D3.group keq key data).
Proof. unfold D3.group. now rewrite fold_left_app. Qed.

Lemma group_add_miss k (a : A) (m : list (K * list A)) :
  (forall e, In e m -> keq (fst e) k = false) ->
  D3.group_add keq k a m = m ++ [(k, [a])].
Proof.
  induction m as [|[k' vs] m IH]; intros Hm; simpl; [reflexivity|].
  pose proof (Hm (k', vs) (or_introl eq_refl)) as E. simpl in E. rewrite E.
  f_equal. apply IH. intros e He. apply Hm. now right.
Qed.

Lemma group_add_hit k (a : A) (m1 : list (K * list A)) k' vs m2 :
  (forall e, In e m1 -> keq (fst e) k = false) ->
  keq k' k = true ->
  D3.group_add keq k a (m1 ++ (k', vs) :: m2)
  = m1 ++ (k', vs ++ [a]) :: m2.
Proof.
  induction m1 as [|[k1 v1] m1 IH]; intros Hm Hk; simpl.
  - now rewrite Hk.
  - pose proof (Hm (k1, v1) (or_introl eq_refl)) as E. simpl in E.
    rewrite E.
    f_equal. apply IH; [|assumption]. intros e He. apply Hm. now right.
Qed.

(** Either no stored key equals [k], or the first one that does splits
    the map. *)
Lemma first_hit k (m : list (K * list A)) :
  (forall e, In e m -> keq (fst e) k = false)
  \/ exists m1 k' vs m2,
      m = m1 ++ (k', vs) :: m2
      /\ (forall e, In e m1 -> keq (fst e) k = false)
      /\ keq k' k = true.
Proof.
  induction m as [|[k' vs] m IH].
  - left. intros e [].
  - destruct (keq k' k) eqn:E.
    + right. exists [], k', vs, m. repeat split; [intros e []|assumption].
    + destruct IH as [IH|(m1 & k1 & v1 & m2 & -> & H1 & H2)].
      * left. intros e [<-|He]; [assumption|now apply IH].
      * right. exists ((k', vs) :: m1), k1, v1, m2.
        repeat split; [|assumption].
        intros e [<-|He]; [assumption|now apply H1].
Qed.

Lemma filter_snoc (f : A -> bool) data a :
  filter f (data ++ [a]) = filter f data ++ (if f a then [a] else []).
Proof. rewrite filter_app. simpl. now destruct (f a). Qed.

Lemma filter_none (f : A -> bool) data :
  (forall x, In x data -> f x = false) -> filter f data = [].
Proof.
  induction data as [|x data IH]; intros H; simpl; [reflexivity|].
  rewrite (H x) by now left. apply IH. intros y Hy. apply H. now right.
Qed.

Lemma keq_refl a : keq (key a) (key a) = true.
Proof. now apply keq_spec. Qed.

Lemma keq_sym a b : keq (key a) (key b) = keq (key b) (key a).
Proof.
  destruct (keq (key a) (key b)) eqn:E1, (keq (key b) (key a)) eqn:E2;
    try reflexivity.
  - apply keq_spec in E1. symmetry in E1. apply keq_spec in E1. congruence.
  - apply keq_spec in E2. symmetry in E2. apply keq_spec in E2. congruence.
Qed.

Lemma filter_same_fresh data a :
  (forall x, In x data -> keq (key x) (key a) = false) ->
  filter (same_key keq key (key a)) (data ++ [a]) = [a].
Proof.
  intros Hfresh. rewrite filter_snoc. unfold same_key at 2.
  rewrite keq_refl. rewrite filter_none; [reflexivity|].
  intros x Hx. unfold same_key. rewrite keq_sym. now apply Hfresh.
Qed.

Lemma group_ok data : grouped_ok keq key data (D3.group keq key data).
Proof.
  induction data as [|a data IH] using rev_ind.
  - repeat split; simpl; [constructor|intros k vs []|intros a []].
  - rewrite group_snoc.
    destruct IH as (Hnd & Hsound & Hcompl).
    set (m := D3.group keq key data) in *.
    destruct (first_hit (key a) m)
      as [Hmiss|(m1 & k' & vs & m2 & Hm & Hmiss & Hhit)].
    + (* a new key *)
      rewrite (group_add_miss _ _ _ Hmiss).
      assert (Hfresh : forall x, In x data -> keq (key x) (key a) = false).
      { intros x Hx. apply (Hmiss _ (Hcompl x Hx)). }
      repeat split.
      * rewrite map_app. simpl.
        apply NoDup_app; [assumption|repeat constructor; intros []| ].
        intros k Hk [<-|[]].
        apply in_map_iff in Hk. destruct Hk as ([k1 v1] & Hk1 & He).
        simpl in Hk1. subst k1.
        destruct (Hsound _ _ He) as (x & Hx & Hkx & _).
        pose proof (Hfresh x Hx) as F. rewrite <- Hkx, keq_refl in F.
        discriminate.
      * intros k vs' Hin. apply in_app_or in Hin.
        destruct Hin as [Hin|[Heq|[]]].
        -- destruct (Hsound _ _ Hin) as (x & Hx & -> & ->).
           exists x. split; [apply in_or_app; now left|].
           split; [reflexivity|].
           rewrite filter_snoc. unfold same_key at 3.
           rewrite (Hfresh x Hx). now rewrite app_nil_r.
        -- inversion Heq; subst k vs'. exists a.
           split; [apply in_or_app; right; now left|].
           split; [reflexivity|].
           symmetry. now apply filter_same_fresh.
      * intros x Hx. apply in_app_or in Hx. apply in_or_app.
        destruct Hx as [Hx|[<-|[]]].
        -- left. rewrite filter_snoc. unfold same_key at 2.
           rewrite (Hfresh x Hx), app_nil_r. now apply Hcompl.
        -- right. left. f_equal. symmetry. now apply filter_same_fresh.
    + (* a key already stored *)
      rewrite Hm, (group_add_hit _ _ _ _ _ _ Hmiss Hhit).
      assert (Hin0 : In (k', vs) m) by (rewrite Hm; apply in_elt).
      destruct (Hsound _ _ Hin0) as (x0 & Hx0 & Hk' & Hvs).
      assert (Ek : k' = key a) by (subst k'; now apply keq_spec).
      assert (Hkeys : map fst (m1 ++ (k', vs ++ [a]) :: m2) = map fst m).
      { rewrite Hm, !map_app. reflexivity. }
      assert (Hother : forall k v, In (k, v) (m1 ++ (k', vs ++ [a]) :: m2) ->
                (k = k' /\ v = vs ++ [a]) \/ (k <> k' /\ In (k, v) m)).
      { intros k v Hin. apply in_app_or in Hin.
        rewrite Hm in Hnd. rewrite map_app in Hnd. simpl in Hnd.
        apply NoDup_remove_2 in Hnd.
        destruct Hin as [Hin|[Heq|Hin]].
        - right. split.
          + intros ->. apply Hnd. apply in_or_app. left.
            change k' with (fst (k', v)). now apply in_map.
          + rewrite Hm. apply in_or_app. now left.
        - left. now inversion Heq.
        - right. split.
          + intros ->. apply Hnd. apply in_or_app. right.
            change k' with (fst (k', v)). now apply in_map.
          + rewrite Hm. apply in_or_app. right. now right. }
      assert (Hmine : filter (same_key keq key (key a)) (data ++ [a]) = vs ++ [a]).
      { rewrite filter_snoc. unfold same_key at 2. rewrite keq_refl.
        now rewrite Hvs, Ek. }
      repeat split.
      * now rewrite Hkeys.
      * intros k v Hin. destruct (Hother _ _ Hin) as [[-> ->]|[Hne Hin']].
        -- exists a. split; [apply in_or_app; right; now left|].
           split; [assumption|]. now rewrite Ek, Hmine.
        -- destruct (Hsound _ _ Hin') as (x & Hx & Hkx & Hv).
           exists x. split; [apply in_or_app; now left|].
           split; [assumption|].
           rewrite filter_snoc, Hv. unfold same_key at 3.
           destruct (keq k (key a)) eqn:E; [|now rewrite app_nil_r].
           exfalso. apply Hne. rewrite Ek. subst k. now apply keq_spec.
      * intros x Hx. apply in_app_or in Hx.
        destruct Hx as [Hx|[<-|[]]].
        -- destruct (keq (key x) (key a)) eqn:E.
           ++ apply keq_spec in E. rewrite E, Hmine, <- Ek. apply in_elt.
           ++ rewrite filter_snoc. unfold same_key at 2. rewrite E, app_nil_r.
              specialize (Hcompl x Hx).
              rewrite Hm in Hcompl. apply in_app_or in Hcompl.
              apply in_or_app.
              destruct Hcompl as [H|[H|H]]; [now left| |right; now right].
              inversion H as [[H1 H2]]. rewrite <- Ek, H1, keq_refl in E.
              discriminate.
        -- rewrite Hmine, <- Ek. apply in_elt.
Qed.

End GroupFacts.

(** Every row lands in exactly one group. *)
Section GroupCount.
Context {A K : Type} (keq : K -> K -> bool) (key : A -> K).

Lemma total_group_add k (a : A) (m : list (K * list A)) :
  total (D3.group_add keq k a m) = S (total m).
Proof.
  unfold total. induction m as [|[k' vs] m IH]; simpl; [reflexivity|].
  destruct (keq k' k); simpl.
  - rewrite length_app. simpl. lia.
  - rewrite IH. lia.
Qed.

Lemma total_group data : total (D3.group keq key data) = List.length data.
Proof.
  induction data as [|a data IH] using rev_ind; [reflexivity|].
  unfold D3.group in *. rewrite fold_left_app. simpl.
  rewrite total_group_add, IH, length_app. simpl. lia.
Qed.

Lemma rollup_length_sum data :
  list_sum (map snd (D3.rollup keq (@List.length A) key data))
  = List.length data.
Proof.
  unfold D3.rollup. rewrite map_map. simpl. apply total_group.
Qed.
End GroupCount.

Lemma list_sum_flat_map {A B : Type} (f : A -> list B) (g : B -> nat) l :
  list_sum (map g (flat_map f l))
  = list_sum (map (fun a => list_sum (map g (f a))) l).
Proof.
  induction l as [|a l IH]; simpl; [reflexivity|].
  now rewrite map_app, list_sum_app, IH.
Qed.

Lemma field_eqb_spec (a b : JS.field) : JS.field_eqb a b = true <-> a = b.
Proof.
  destruct a as [x|], b as [y|]; simpl; try (split; congruence).
  rewrite String.eqb_eq. split; congruence.
Qed.

(** ** Stacked bar chart *)

Lemma bar_total_rows rows :
  bar_total (StackedBarChart.loadData rows) = List.length rows.
Proof.
  unfold bar_total, StackedBarChart.loadData, D3.rollup2.
  rewrite list_sum_flat_map, map_map. simpl.
  etransitivity; [|apply (total_group JS.field_eqb DSV.genre rows)].
  unfold total. f_equal. apply map_ext. intros [g vs]. simpl.
  rewrite map_map. simpl. apply rollup_length_sum.
Qed.

Lemma bar_row_datum rows r :
  In r rows ->
  In {| StackedBarChart.category := JS.nullish (DSV.genre r) "Unknown";
        StackedBarChart.stack := JS.nullish (DSV.age_category r) "Unknown";
        StackedBarChart.value := List.length (same_genre_age r rows) |}
     (StackedBarChart.loadData rows).
Proof.
  intros Hr.
  unfold StackedBarChart.loadData, D3.rollup2, D3.rollup.
  destruct (group_ok JS.field_eqb DSV.genre
              (fun a b => field_eqb_spec _ _) rows) as (_ & _ & Hc).
  specialize (Hc r Hr). set (vs := filter _ rows) in Hc.
  assert (Hrv : In r vs).
  { apply filter_In. split; [assumption|]. now apply field_eqb_spec. }
  destruct (group_ok JS.field_eqb DSV.age_category
              (fun a b => field_eqb_spec _ _) vs) as (_ & _ & Hc').
  specialize (Hc' r Hrv).
  apply in_flat_map.
  eexists. split.
  { apply in_map_iff. eexists. split; [reflexivity|exact Hc]. }
  simpl. apply in_map_iff. eexists. split.
  2:{ apply in_map_iff. eexists. split; [reflexivity|exact Hc']. }
  reflexivity.
Qed.

Lemma same_genre_age_self rows r :
  In r rows -> In r (same_genre_age r rows).
Proof.
  intros Hr. unfold same_genre_age.
  apply filter_In. split; [|now apply field_eqb_spec].
  apply filter_In. split; [assumption|now apply field_eqb_spec].
Qed.

(** C8.  The three rows (Fiction, Adult), (Fiction, Adult), (Fiction, Teen)
    give exactly the two bars (Fiction, Adult, 2) and (Fiction, Teen, 1),
    whatever their other columns hold. *)
Theorem bar_example_three_rows (y1 y2 y3 b1 b2 b3 m1 m2 m3 : JS.field) :
  StackedBarChart.loadData
    [ DSV.Build_DSVRowString (Some "Fiction") (Some "Adult") y1 b1 m1;
      DSV.Build_DSVRowString (Some "Fiction") (Some "Adult") y2 b2 m2;
      DSV.Build_DSVRowString (Some "Fiction") (Some "Teen") y3 b3 m3 ]
  = [ {| StackedBarChart.category := "Fiction";
         StackedBarChart.stack := "Adult";
         StackedBarChart.value := 2 |};
      {| StackedBarChart.category := "Fiction";
         StackedBarChart.stack := "Teen";
         StackedBarChart.value := 1 |} ].
Proof. reflexivity. Qed.

(** C3, as the code has it.  The values of the bars add up to the number of
    input rows: every row is counted, also one whose genre or age category
    is missing or the empty string. *)
Theorem bar_values_sum_to_row_count (rows : list RawRow) :
  bar_total (StackedBarChart.loadData rows) = List.length rows.
Proof. apply bar_total_rows. Qed.

(** C3, as the specification states it, fails: a row with an empty genre is
    counted by a bar although its genre field is empty. *)
Lemma bar_values_sum_counts_empty_fields :
  let rows := [ DSV.Build_DSVRowString (Some "") (Some "Adult")
                  (Some "1994") (Some "false") (Some "false") ] in
  bar_total (StackedBarChart.loadData rows) = 1
  /\ List.length (filter fields_nonempty rows) = 0
  /\ bar_total (StackedBarChart.loadData rows)
     <> List.length (filter fields_nonempty rows).
Proof. repeat split. discriminate. Qed.

(** C4.  A row whose genre (age category) is missing is counted by a bar
    whose category (stack) is ["Unknown"]; the bar counts the rows with the
    same genre and age category, this row among them. *)
Theorem bar_missing_field_is_Unknown (rows : list RawRow) (r : RawRow) :
  In r rows ->
  DSV.genre r = None \/ DSV.age_category r = None ->
  exists b,
    In b (StackedBarChart.loadData rows)
    /\ StackedBarChart.value b = List.length (same_genre_age r rows)
    /\ 1 <= StackedBarChart.value b
    /\ StackedBarChart.category b = JS.nullish (DSV.genre r) "Unknown"
    /\ StackedBarChart.stack b = JS.nullish (DSV.age_category r) "Unknown"
    /\ (DSV.genre r = None -> StackedBarChart.category b = "Unknown")
    /\ (DSV.age_category r = None -> StackedBarChart.stack b = "Unknown")
    /\ (StackedBarChart.category b = "Unknown"
        \/ StackedBarChart.stack b = "Unknown").
Proof.
  intros Hr Hmiss. eexists. split; [apply (bar_row_datum rows r Hr)|]. simpl.
  split; [reflexivity|]. split.
  { pose proof (same_genre_age_self rows r Hr) as H.
    destruct (same_genre_age r rows); [destruct H|simpl; lia]. }
  split; [reflexivity|]. split; [reflexivity|].
  split; [now intros ->|]. split; [now intros ->|].
  destruct Hmiss as [E|E]; rewrite E; [now left|now right].
Qed.

Lemma bar_missing_field_is_Unknown_witness :
  let r := DSV.Build_DSVRowString None (Some "Teen") None None None in
  exists b,
    In b (StackedBarChart.loadData [r])
    /\ StackedBarChart.value b = List.length (same_genre_age r [r])
    /\ 1 <= StackedBarChart.value b
    /\ StackedBarChart.category b = JS.nullish (DSV.genre r) "Unknown"
    /\ StackedBarChart.stack b = JS.nullish (DSV.age_category r) "Unknown"
    /\ (DSV.genre r = None -> StackedBarChart.category b = "Unknown")
    /\ (DSV.age_category r = None -> StackedBarChart.stack b = "Unknown")
    /\ (StackedBarChart.category b = "Unknown"
        \/ StackedBarChart.stack b = "Unknown").
Proof.
  apply (bar_missing_field_is_Unknown
           [DSV.Build_DSVRowString None (Some "Teen") None None None]).
  - simpl. left. reflexivity.
  - simpl. left. reflexivity.
Defined.

(** ** Numbers *)

Lemma number_eqb_eq x y : number_eqb x y = true -> x = y.
Proof.
  destruct x, y; simpl; try discriminate; try reflexivity.
  - intros H. apply eqb_prop in H. now subst.
  - intros H. apply eqb_prop in H. now subst.
  - intros H. apply andb_prop in H. destruct H as [H He].
    apply andb_prop in H. destruct H as [Hs Hm].
    apply eqb_prop in Hs. apply Pos.eqb_eq in Hm. apply Z.eqb_eq in He.
    now subst.
Qed.

Lemma decade_key_number d :
  GenreDecadeHeatmap.decade_key d
  = decade_of_number (JS.to_number (DSV.publicationYear d)).
Proof. reflexivity. Qed.

Lemma all_from_spec f fuel : forall n z,
  all_from f fuel n = true ->
  (n <= z < n + Z.of_nat fuel)%Z -> f z = true.
Proof.
  induction fuel as [|k IH]; intros n z H Hz; [lia|].
  simpl in H. apply andb_prop in H. destruct H as [H0 H1].
  destruct (Z.eq_dec z n) as [->|Hne]; [assumption|].
  apply (IH (n + 1)%Z); [assumption|lia].
Qed.

(** For the years 0 to 9999 the decade computed in binary64 is the integer
    [10 * (n / 10)]. *)
Lemma decade_of_year n :
  (0 <= n < 10000)%Z ->
  decade_of_number (JS.decimal_value false n 0) = JS.of_Z (10 * (n / 10)).
Proof.
  intros Hn. apply number_eqb_eq.
  apply (all_from_spec decade_exact (Z.to_nat 10000) 0%Z).
  - vm_compute. reflexivity.
  - rewrite Z2Nat.id; lia.
Qed.

(** *** Decimal numerals *)

Lemma digit_of_facts c d :
  digit_of c = Some d ->
  JS.digit_in 10 c = Some d
  /\ JS.is_ws c = false
  /\ JS.radix_of c = None
  /\ c <> "-"%char /\ c <> "+"%char /\ c <> "I"%char /\ c <> "."%char
  /\ (0 <= d <= 9)%Z.
Proof.
  destruct c as [[] [] [] [] [] [] [] []]; simpl; try discriminate;
    intros H; inversion H; subst d;
    (repeat split; try reflexivity; try discriminate; try lia).
Qed.

Lemma read_digits_numeral l : forall acc n v,
  numeral acc l = Some v ->
  JS.read_digits 10 acc n l = (v, n + List.length l, []).
Proof.
  induction l as [|c l IH]; intros acc n v H; simpl in *.
  - inversion H. now rewrite Nat.add_0_r.
  - destruct (digit_of c) as [d|] eqn:E; [|discriminate].
    destruct (digit_of_facts _ _ E) as (-> & _).
    rewrite (IH _ (S n) v).
    + now rewrite Nat.add_succ_r.
    + replace (acc * 10 + d)%Z with (10 * acc + d)%Z by lia. exact H.
Qed.

Lemma numeral_last_digit l : forall acc v,
  numeral acc l = Some v -> forall c, In c l -> JS.is_ws c = false.
Proof.
  induction l as [|c l IH]; intros acc v H x Hx; [destruct Hx|].
  simpl in H. destruct (digit_of c) as [d|] eqn:E; [|discriminate].
  destruct Hx as [<-|Hx].
  - now destruct (digit_of_facts _ _ E) as (_ & -> & _).
  - now apply (IH _ _ H).
Qed.

Lemma trim_start_id l :
  (forall c, In c l -> JS.is_ws c = false) -> JS.trim_start l = l.
Proof.
  destruct l as [|c l]; intros H; simpl; [reflexivity|].
  now rewrite (H c (or_introl eq_refl)).
Qed.

Lemma trim_id l :
  (forall c, In c l -> JS.is_ws c = false) -> JS.trim l = l.
Proof.
  intros H. unfold JS.trim. rewrite (trim_start_id l H).
  rewrite trim_start_id; [apply rev_involutive|].
  intros c Hc. apply H. now apply in_rev.
Qed.

Lemma parse_unsigned_numeral l v :
  l <> [] -> numeral 0 l = Some v ->
  JS.parse_unsigned_decimal false l = JS.decimal_value false v 0.
Proof.
  intros Hne H. unfold JS.parse_unsigned_decimal.
  destruct (list_eq_dec ascii_dec l (list_ascii_of_string "Infinity"))
    as [->|_]; [discriminate H|].
  rewrite (read_digits_numeral l 0%Z 0 v H). simpl.
  destruct l as [|c l]; [congruence|]. simpl. reflexivity.
Qed.

Lemma parse_number_numeral l v :
  l <> [] -> numeral 0 l = Some v ->
  JS.parse_number l = JS.decimal_value false v 0.
Proof.
  intros Hne H. pose proof (parse_unsigned_numeral l v Hne H) as P.
  destruct l as [|c l]; [congruence|].
  simpl in H. destruct (digit_of c) as [d|] eqn:E; [|discriminate].
  destruct (digit_of_facts _ _ E) as (_ & _ & _ & Hm & Hp & _).
  assert (Hrad : forall c2 l2, l = c2 :: l2 -> JS.radix_of c2 = None).
  { intros c2 l2 ->. simpl in H.
    destruct (digit_of c2) as [d2|] eqn:E2; [|discriminate].
    now destruct (digit_of_facts _ _ E2) as (_ & _ & -> & _). }
  unfold JS.parse_number.
  destruct c as [[] [] [] [] [] [] [] []]; try congruence;
    try exact P; try discriminate E.
  destruct l as [|c2 l2]; [exact P|].
  rewrite (Hrad c2 l2 eq_refl). exact P.
Qed.

Lemma to_number_year s n :
  year_literal s = Some n ->
  JS.to_number (Some s) = JS.decimal_value false n 0.
Proof.
  unfold year_literal, JS.to_number. intros H.
  destruct (list_ascii_of_string s) as [|c l] eqn:E; [discriminate|].
  rewrite trim_id by (apply (numeral_last_digit _ _ _ H)).
  apply parse_number_numeral; [discriminate|assumption].
Qed.

(** On the keys a map stores, SameValueZero is equality. *)
Lemma same_value_zero_map_key x y :
  JS.same_value_zero (JS.map_key x) (JS.map_key y) = true
  <-> JS.map_key x = JS.map_key y.
Proof.
  split.
  - destruct x as [s| s| |s m e], y as [s'| s'| |s' m' e'];
      unfold JS.same_value_zero, SFeqb; simpl; intros H;
      try discriminate H; try reflexivity;
      try (destruct s; discriminate H); try (destruct s'; discriminate H).
    + destruct s, s'; simpl in H; try discriminate H; reflexivity.
    + revert H. destruct s, s'; try discriminate;
        destruct (Z.compare_spec e e'); try discriminate; subst;
        change (Pos.compare_cont Eq m m') with (Pos.compare m m');
        destruct (Pos.compare_spec m m'); try discriminate; subst;
        reflexivity.
  - intros ->. destruct (JS.map_key y) as [s| s| |s m e];
      unfold JS.same_value_zero, SFeqb; simpl; try reflexivity.
    + now destruct s.
    + destruct s; rewrite Z.compare_refl;
        change (Pos.compare_cont Eq m m) with (Pos.compare m m);
        now rewrite Pos.compare_refl.
Qed.

Lemma map_key_of_Z z : (0 <= z)%Z -> JS.map_key (JS.of_Z z) = JS.of_Z z.
Proof.
  intros Hz. unfold JS.of_Z, binary_normalize.
  destruct z as [|p|p]; [reflexivity| |lia].
  unfold binary_round.
  destruct (shl_align p 0 (fexp JS.prec JS.emax (Z.pos (digits2_pos p) + 0)))
    as [mz ez].
  unfold binary_round_aux.
  destruct (shr_fexp JS.prec JS.emax (Z.pos mz) ez loc_Exact) as [mrs e1].
  destruct (shr_fexp JS.prec JS.emax _ e1 loc_Exact) as [mrs' e2].
  destruct (shr_m mrs'); try reflexivity.
  now destruct (e2 <=? JS.emax - JS.prec)%Z.
Qed.

Lemma decade_of_NaN x :
  JS.is_nan x = true -> decade_of_number x = JS.NaN.
Proof. destruct x; try discriminate. reflexivity. Qed.

(** ** Heatmap *)

Lemma heat_total_rows rows :
  heat_total (GenreDecadeHeatmap.loadData rows) = List.length rows.
Proof.
  unfold heat_total, GenreDecadeHeatmap.loadData,
    GenreDecadeHeatmap.grouped, D3.rollup2.
  rewrite list_sum_flat_map, map_map. simpl.
  etransitivity;
    [|apply (total_group JS.field_eqb
               (GenreDecadeHeatmap.genre_key
                  (GenreDecadeHeatmap.topGenres rows)) rows)].
  unfold total. f_equal. apply map_ext. intros [g vs]. simpl.
  rewrite map_map. simpl. apply rollup_length_sum.
Qed.

Lemma heat_row_datum rows r :
  In r rows ->
  In {| GenreDecadeHeatmap.genre :=
          GenreDecadeHeatmap.genre_key (GenreDecadeHeatmap.topGenres rows) r;
        GenreDecadeHeatmap.decade :=
          JS.map_key (GenreDecadeHeatmap.decade_key r);
        GenreDecadeHeatmap.count := List.length (same_cell rows r) |}
     (GenreDecadeHeatmap.loadData rows).
Proof.
  intros Hr.
  unfold GenreDecadeHeatmap.loadData, GenreDecadeHeatmap.grouped,
    D3.rollup2, D3.rollup.
  set (top := GenreDecadeHeatmap.topGenres rows).
  destruct (group_ok JS.field_eqb (GenreDecadeHeatmap.genre_key top)
              (fun a b => field_eqb_spec _ _) rows) as (_ & _ & Hc).
  specialize (Hc r Hr). set (vs := filter _ rows) in Hc.
  assert (Hrv : In r vs).
  { apply filter_In. split; [assumption|]. now apply field_eqb_spec. }
  destruct (group_ok JS.same_value_zero
              (fun d => JS.map_key (GenreDecadeHeatmap.decade_key d))
              (fun a b => same_value_zero_map_key _ _) vs) as (_ & _ & Hc').
  specialize (Hc' r Hrv).
  apply in_flat_map.
  eexists. split.
  { apply in_map_iff. eexists. split; [reflexivity|exact Hc]. }
  simpl. apply in_map_iff. eexists. split.
  2:{ apply in_map_iff. eexists. split; [reflexivity|exact Hc']. }
  reflexivity.
Qed.

Lemma same_cell_self rows r : In r rows -> In r (same_cell rows r).
Proof.
  intros Hr. unfold same_cell.
  apply filter_In. split; [|now apply same_value_zero_map_key].
  apply filter_In. split; [assumption|now apply field_eqb_spec].
Qed.

Lemma same_cell_count rows r : In r rows -> 1 <= List.length (same_cell rows r).
Proof.
  intros Hr. pose proof (same_cell_self rows r Hr) as H.
  destruct (same_cell rows r); [destruct H|simpl; lia].
Qed.

Lemma field_eqb_refl g : JS.field_eqb g g = true.
Proof. now apply field_eqb_spec. Qed.

(** The rows of 1994 and of 1996 share one cell, of decade 1990. *)
Lemma heatmap_example_1994_1996 (g a1 a2 b1 b2 m1 m2 : JS.field) :
  GenreDecadeHeatmap.loadData
    [ DSV.Build_DSVRowString g a1 (Some "1994") b1 m1;
      DSV.Build_DSVRowString g a2 (Some "1996") b2 m2 ]
  = [ {| GenreDecadeHeatmap.genre := g;
         GenreDecadeHeatmap.decade := JS.of_Z 1990;
         GenreDecadeHeatmap.count := 2 |} ].
Proof.
  set (r1 := DSV.Build_DSVRowString g a1 (Some "1994") b1 m1).
  set (r2 := DSV.Build_DSVRowString g a2 (Some "1996") b2 m2).
  assert (Htop : GenreDecadeHeatmap.topGenres [r1; r2] = [g]).
  { unfold GenreDecadeHeatmap.topGenres, D3.rollup, D3.group. simpl.
    rewrite field_eqb_refl. reflexivity. }
  assert (Hk : forall r, DSV.genre r = g ->
             GenreDecadeHeatmap.genre_key [g] r = g).
  { intros r <-. unfold GenreDecadeHeatmap.genre_key, JS.includes. simpl.
    now rewrite field_eqb_refl. }
  assert (Hd1 : JS.map_key (GenreDecadeHeatmap.decade_key r1) = JS.of_Z 1990)
    by (vm_compute; reflexivity).
  assert (Hd2 : JS.map_key (GenreDecadeHeatmap.decade_key r2) = JS.of_Z 1990)
    by (vm_compute; reflexivity).
  unfold GenreDecadeHeatmap.loadData, GenreDecadeHeatmap.grouped,
    D3.rollup2, D3.rollup, D3.group.
  rewrite Htop. cbn [fold_left D3.group_add].
  rewrite (Hk r1 eq_refl), (Hk r2 eq_refl), field_eqb_refl.
  cbn [map flat_map fst snd app fold_left D3.group_add List.length].
  rewrite Hd1, Hd2.
  replace (JS.same_value_zero (JS.of_Z 1990) (JS.of_Z 1990)) with true
    by (vm_compute; reflexivity).
  reflexivity.
Qed.

(** C9.  The decade of a row is [Math.floor(year / 10) * 10] on the numeric
    coercion of its publication year.  For a year written as a decimal
    numeral [n] below 10000 the decade is the integer [10 * (n / 10)]; the
    row is counted in the cell of that decade under its genre label,
    together with every row of the same label whose year has the same
    [n / 10] (as 1994 and 1996, both of decade 1990). *)
Theorem heatmap_decade_of_year (rows : list RawRow) (r : RawRow)
    (s : string) (n : Z) :
  In r rows ->
  DSV.publicationYear r = Some s ->
  year_literal s = Some n ->
  (0 <= n < 10000)%Z ->
  let top := GenreDecadeHeatmap.topGenres rows in
  GenreDecadeHeatmap.decade_key r
  = JS.mul (JS.floor (JS.div (JS.to_number (Some s)) (JS.of_Z 10)))
           (JS.of_Z 10)
  /\ GenreDecadeHeatmap.decade_key r = JS.of_Z (10 * (n / 10))
  /\ In {| GenreDecadeHeatmap.genre := GenreDecadeHeatmap.genre_key top r;
           GenreDecadeHeatmap.decade := JS.of_Z (10 * (n / 10));
           GenreDecadeHeatmap.count := List.length (same_cell rows r) |}
        (GenreDecadeHeatmap.loadData rows)
  /\ (forall r' s' n',
        In r' rows ->
        DSV.publicationYear r' = Some s' ->
        year_literal s' = Some n' ->
        (0 <= n' < 10000)%Z ->
        (n' / 10 = n / 10)%Z ->
        GenreDecadeHeatmap.genre_key top r'
        = GenreDecadeHeatmap.genre_key top r ->
        In r' (same_cell rows r)).
Proof.
  intros Hr Hy Hs Hn top.
  assert (Hdec : forall x sx nx,
            DSV.publicationYear x = Some sx -> year_literal sx = Some nx ->
            (0 <= nx < 10000)%Z ->
            GenreDecadeHeatmap.decade_key x = JS.of_Z (10 * (nx / 10))).
  { intros x sx nx Hx Hsx Hnx.
    rewrite decade_key_number, Hx, (to_number_year sx nx Hsx).
    now apply decade_of_year. }
  pose proof (Hdec r s n Hy Hs Hn) as Hd.
  split; [|split; [exact Hd|split]].
  - unfold GenreDecadeHeatmap.decade_key. now rewrite Hy.
  - pose proof (heat_row_datum rows r Hr) as H.
    rewrite Hd, map_key_of_Z in H; [exact H|].
    apply Z.mul_nonneg_nonneg; [lia|]. apply Z.div_pos; lia.
  - intros r' s' n' Hr' Hy' Hs' Hn' Hsame Hg.
    unfold same_cell. apply filter_In. split.
    + apply filter_In. split; [assumption|].
      apply field_eqb_spec. symmetry. exact Hg.
    + apply same_value_zero_map_key.
      now rewrite Hd, (Hdec r' s' n' Hy' Hs' Hn'), Hsame.
Qed.

Lemma heatmap_decade_of_year_witness :
  let r1 := DSV.Build_DSVRowString (Some "Fiction") (Some "Adult")
              (Some "1994") (Some "false") (Some "false") in
  let r2 := DSV.Build_DSVRowString (Some "Fiction") (Some "Teen")
              (Some "1996") (Some "true") (Some "false") in
  let rows := [r1; r2] in
  let top := GenreDecadeHeatmap.topGenres rows in
  GenreDecadeHeatmap.decade_key r1
  = JS.mul (JS.floor (JS.div (JS.to_number (Some "1994")) (JS.of_Z 10)))
           (JS.of_Z 10)
  /\ GenreDecadeHeatmap.decade_key r1 = JS.of_Z (10 * (1994 / 10))
  /\ In {| GenreDecadeHeatmap.genre := GenreDecadeHeatmap.genre_key top r1;
           GenreDecadeHeatmap.decade := JS.of_Z (10 * (1994 / 10));
           GenreDecadeHeatmap.count := List.length (same_cell rows r1) |}
        (GenreDecadeHeatmap.loadData rows)
  /\ (forall r' s' n',
        In r' rows ->
        DSV.publicationYear r' = Some s' ->
        year_literal s' = Some n' ->
        (0 <= n' < 10000)%Z ->
        (n' / 10 = 1994 / 10)%Z ->
        GenreDecadeHeatmap.genre_key top r'
        = GenreDecadeHeatmap.genre_key top r1 ->
        In r' (same_cell rows r1)).
Proof.
  apply (heatmap_decade_of_year
           [ DSV.Build_DSVRowString (Some "Fiction") (Some "Adult")
               (Some "1994") (Some "false") (Some "false");
             DSV.Build_DSVRowString (Some "Fiction") (Some "Teen")
               (Some "1996") (Some "true") (Some "false") ]
           _ "1994" 1994%Z).
  - simpl. left. reflexivity.
  - reflexivity.
  - reflexivity.
  - lia.
Defined.

(** C1 fails on the code: a row whose year is not numeric is kept, in a
    cell whose decade is NaN. *)
Lemma heatmap_keeps_non_numeric_year :
  let r := DSV.Build_DSVRowString (Some "Fiction") (Some "Adult")
             (Some "unknown") (Some "false") (Some "false") in
  numeric_year r = false
  /\ GenreDecadeHeatmap.loadData [r]
     = [ {| GenreDecadeHeatmap.genre := Some "Fiction";
            GenreDecadeHeatmap.decade := JS.NaN;
            GenreDecadeHeatmap.count := 1 |} ]
  /\ ~ excludes_non_numeric_years [r].
Proof.
  split; [reflexivity|]. split; [reflexivity|].
  intros [H _]. specialize (H _ (or_introl eq_refl)). discriminate H.
Qed.

(** C1, as the code has it.  A row whose publication year is not numeric is
    not excluded: it is counted in a cell of its genre label whose decade is
    NaN, and the counts of all cells add up to the number of rows. *)
Theorem heatmap_groups_non_numeric_year (rows : list RawRow) (r : RawRow) :
  In r rows ->
  numeric_year r = false ->
  In {| GenreDecadeHeatmap.genre :=
          GenreDecadeHeatmap.genre_key (GenreDecadeHeatmap.topGenres rows) r;
        GenreDecadeHeatmap.decade := JS.NaN;
        GenreDecadeHeatmap.count := List.length (same_cell rows r) |}
     (GenreDecadeHeatmap.loadData rows)
  /\ 1 <= List.length (same_cell rows r)
  /\ heat_total (GenreDecadeHeatmap.loadData rows) = List.length rows.
Proof.
  intros Hr Hn. split; [|split].
  - pose proof (heat_row_datum rows r Hr) as H.
    rewrite decade_key_number, decade_of_NaN in H; [exact H|].
    unfold numeric_year in Hn. now apply negb_false_iff in Hn.
  - now apply same_cell_count.
  - apply heat_total_rows.
Qed.

Lemma heatmap_groups_non_numeric_year_witness :
  let r := DSV.Build_DSVRowString (Some "Fiction") (Some "Adult")
             (Some "unknown") (Some "false") (Some "false") in
  In {| GenreDecadeHeatmap.genre :=
          GenreDecadeHeatmap.genre_key (GenreDecadeHeatmap.topGenres [r]) r;
        GenreDecadeHeatmap.decade := JS.NaN;
        GenreDecadeHeatmap.count := List.length (same_cell [r] r) |}
     (GenreDecadeHeatmap.loadData [r])
  /\ 1 <= List.length (same_cell [r] r)
  /\ heat_total (GenreDecadeHeatmap.loadData [r]) = List.length [r].
Proof.
  apply (heatmap_groups_non_numeric_year
           [ DSV.Build_DSVRowString (Some "Fiction") (Some "Adult")
               (Some "unknown") (Some "false") (Some "false") ]).
  - simpl. left. reflexivity.
  - reflexivity.
Defined.

(** ** Sorting by count and the most frequent keys *)

Section SortFacts.
Context {A : Type} (compare : A -> A -> Z).

Lemma insert_perm x l : Permutation (D3.insert compare x l) (x :: l).
Proof.
  induction l as [|y l IH]; simpl; [reflexivity|].
  destruct (compare x y <=? 0)%Z; [reflexivity|].
  rewrite IH. apply perm_swap.
Qed.

Lemma sort_perm l : Permutation (D3.sort compare l) l.
Proof.
  induction l as [|x l IH]; simpl; [reflexivity|].
  rewrite insert_perm. now constructor.
Qed.
End SortFacts.

Lemma in_firstn_in {A : Type} n (l : list A) x : In x (firstn n l) -> In x l.
Proof.
  intros H. rewrite <- (firstn_skipn n l). apply in_or_app. now left.
Qed.

Lemma in_skipn_in {A : Type} n (l : list A) x : In x (skipn n l) -> In x l.
Proof.
  intros H. rewrite <- (firstn_skipn n l). apply in_or_app. now right.
Qed.

Lemma NoDup_map_inv_pair {K V : Type} (l : list (K * V)) :
  NoDup (map fst l) ->
  forall k v v', In (k, v) l -> In (k, v') l -> v = v'.
Proof.
  induction l as [|[k0 v0] l IH]; intros Hnd k v v' H1 H2; [destruct H1|].
  simpl in Hnd. inversion Hnd as [|? ? Hnot Hnd']; subst.
  destruct H1 as [H1|H1], H2 as [H2|H2].
  - congruence.
  - inversion H1; subst. exfalso. apply Hnot.
    change k with (fst (k, v')). now apply in_map.
  - inversion H2; subst. exfalso. apply Hnot.
    change k with (fst (k, v)). now apply in_map.
  - now apply (IH Hnd' k).
Qed.

Section TopKeys.
Context {K : Type}.

Lemma insert_descending (x : K * nat) l :
  descending l -> descending (D3.insert D3.by_count_desc x l).
Proof.
  unfold descending. induction l as [|y l IH]; intros Hl; simpl.
  - constructor; constructor.
  - inversion Hl as [|? ? Hl' Hy]; subst.
    destruct (D3.by_count_desc x y <=? 0)%Z eqn:E.
    + apply Z.leb_le in E. unfold D3.by_count_desc in E.
      constructor; [assumption|].
      constructor; [lia|].
      eapply Forall_impl; [|exact Hy]. simpl. intros b Hb. lia.
    + apply Z.leb_gt in E. unfold D3.by_count_desc in E.
      constructor; [now apply IH|].
      apply Forall_forall. intros b Hb.
      apply (Permutation_in _ (insert_perm _ x l)) in Hb.
      destruct Hb as [<-|Hb]; [lia|].
      rewrite Forall_forall in Hy. now apply Hy.
Qed.

Lemma sort_descending (l : list (K * nat)) : descending (D3.sort D3.by_count_desc l).
Proof.
  induction l as [|x l IH]; simpl; [constructor|].
  now apply insert_descending.
Qed.

Lemma descending_split n : forall (l : list (K * nat)) a b,
  descending l -> In a (firstn n l) -> In b (skipn n l) -> snd b <= snd a.
Proof.
  induction n as [|n IH]; intros l a b Hl Ha Hb; [destruct Ha|].
  destruct l as [|x l]; [destruct Ha|].
  inversion Hl as [|? ? Hl' Hx]; subst. simpl in Ha, Hb.
  destruct Ha as [<-|Ha].
  - rewrite Forall_forall in Hx. apply Hx.
    apply (in_skipn_in _ _ _ Hb).
  - now apply (IH l).
Qed.

Lemma top_keys_incl n (counts : list (K * nat)) k :
  In k (D3.top_keys n counts) -> In k (map fst counts).
Proof.
  unfold D3.top_keys. intros H. apply in_map_iff in H.
  destruct H as (e & <- & He). apply in_map.
  apply (Permutation_in _ (sort_perm D3.by_count_desc counts)).
  apply (in_firstn_in _ _ _ He).
Qed.

Lemma top_keys_length n (counts : list (K * nat)) :
  List.length (D3.top_keys n counts) <= n.
Proof.
  unfold D3.top_keys. rewrite length_map. apply firstn_le_length.
Qed.

Lemma top_keys_NoDup n (counts : list (K * nat)) :
  NoDup (map fst counts) -> NoDup (D3.top_keys n counts).
Proof.
  intros H. unfold D3.top_keys.
  assert (Hs : NoDup (map fst (D3.sort D3.by_count_desc counts))).
  { apply (Permutation_NoDup (l := map fst counts)); [|assumption].
    apply Permutation_map. symmetry. apply sort_perm. }
  rewrite <- (firstn_skipn n (D3.sort D3.by_count_desc counts)) in Hs.
  rewrite map_app in Hs. now apply NoDup_app_remove_r in Hs.
Qed.

(** A key outside the first [n] has a count no larger than a key inside. *)
Lemma top_keys_most n (counts : list (K * nat)) g h cg ch :
  NoDup (map fst counts) ->
  In (g, cg) counts -> In (h, ch) counts ->
  In g (D3.top_keys n counts) -> ~ In h (D3.top_keys n counts) ->
  ch <= cg.
Proof.
  intros Hnd Hg Hh Hin Hout.
  set (s := D3.sort D3.by_count_desc counts).
  assert (Hp : Permutation s counts) by apply sort_perm.
  assert (Hnds : NoDup (map fst s)).
  { apply (Permutation_NoDup (l := map fst counts)); [|assumption].
    apply Permutation_map. now symmetry. }
  assert (Huniq : forall k c c', In (k, c) s -> In (k, c') s -> c = c').
  { intros k c c' H1 H2.
    apply (NoDup_map_inv_pair s Hnds k c c' H1 H2). }
  assert (Hg1 : In (g, cg) (firstn n s)).
  { unfold D3.top_keys in Hin. apply in_map_iff in Hin.
    destruct Hin as ([g' c] & Hfst & He). simpl in Hfst. subst g'.
    assert (c = cg).
    { apply (Huniq g); [apply (in_firstn_in _ _ _ He)|].
      apply (Permutation_in _ (Permutation_sym Hp) Hg). }
    now subst c. }
  assert (Hh1 : In (h, ch) (skipn n s)).
  { assert (Hhs : In (h, ch) s)
      by apply (Permutation_in _ (Permutation_sym Hp) Hh).
    rewrite <- (firstn_skipn n s) in Hhs. apply in_app_or in Hhs.
    destruct Hhs as [Hhs|Hhs]; [|assumption].
    exfalso. apply Hout. unfold D3.top_keys.
    change h with (fst (h, ch)). now apply in_map. }
  apply (descending_split n s (g, cg) (h, ch)); try assumption.
  apply sort_descending.
Qed.
End TopKeys.

(** ** Genre frequencies *)

Lemma genre_counts_NoDup rows : NoDup (map fst (genre_counts rows)).
Proof.
  unfold genre_counts, D3.rollup. rewrite map_map. simpl.
  apply (group_ok JS.field_eqb DSV.genre (fun a b => field_eqb_spec _ _)).
Qed.

Lemma genre_counts_sound rows g c :
  In (g, c) (genre_counts rows) ->
  c = freq g rows /\ exists r, In r rows /\ DSV.genre r = g.
Proof.
  unfold genre_counts, D3.rollup. intros H. apply in_map_iff in H.
  destruct H as ([g' vs] & Heq & Hin). simpl in Heq. inversion Heq; subst.
  destruct (group_ok JS.field_eqb DSV.genre
              (fun a b => field_eqb_spec _ _) rows) as (_ & Hs & _).
  destruct (Hs _ _ Hin) as (a & Ha & Hg & Hvs).
  split; [now rewrite Hvs|]. exists a. now split.
Qed.

Lemma genre_counts_complete rows r :
  In r rows -> In (DSV.genre r, freq (DSV.genre r) rows) (genre_counts rows).
Proof.
  intros Hr. unfold genre_counts, D3.rollup.
  destruct (group_ok JS.field_eqb DSV.genre
              (fun a b => field_eqb_spec _ _) rows) as (_ & _ & Hc).
  apply in_map_iff. eexists. split; [|apply (Hc r Hr)]. reflexivity.
Qed.

Lemma genre_counts_key rows g :
  In g (map fst (genre_counts rows)) -> In (g, freq g rows) (genre_counts rows).
Proof.
  intros H. apply in_map_iff in H. destruct H as ([g' c] & Hg & Hin).
  simpl in Hg. subst g'.
  destruct (genre_counts_sound _ _ _ Hin) as (-> & _). exact Hin.
Qed.

Lemma includes_In top x : JS.includes top x = true <-> In x top.
Proof.
  unfold JS.includes. rewrite existsb_exists. split.
  - intros (y & Hy & E). apply field_eqb_spec in E. now subst.
  - intros H. exists x. split; [assumption|now apply field_eqb_spec].
Qed.

Lemma includes_not_In top x : JS.includes top x = false <-> ~ In x top.
Proof.
  rewrite <- includes_In. destruct (JS.includes top x); split; congruence.
Qed.

(** The most frequent genres: distinct genres of rows, at most [n] of them,
    and no genre left out is more frequent than one taken. *)
Lemma top_genres_spec n rows :
  let top := D3.top_keys n (genre_counts rows) in
  NoDup top
  /\ List.length top <= n
  /\ (forall g, In g top -> exists r, In r rows /\ DSV.genre r = g)
  /\ (forall g r, In g top -> In r rows -> ~ In (DSV.genre r) top ->
        freq (DSV.genre r) rows <= freq g rows).
Proof.
  intros top. split; [|split; [|split]].
  - apply top_keys_NoDup, genre_counts_NoDup.
  - apply top_keys_length.
  - intros g Hg. apply top_keys_incl in Hg. apply genre_counts_key in Hg.
    now destruct (genre_counts_sound _ _ _ Hg) as (_ & H).
  - intros g r Hg Hr Hout.
    apply (top_keys_most n (genre_counts rows) g (DSV.genre r));
      try assumption.
    + apply genre_counts_NoDup.
    + apply genre_counts_key. now apply (top_keys_incl n).
    + now apply genre_counts_complete.
Qed.

Lemma heat_labels rows g :
  In g (map GenreDecadeHeatmap.genre (GenreDecadeHeatmap.loadData rows))
  <-> exists r, In r rows
        /\ GenreDecadeHeatmap.genre_key (GenreDecadeHeatmap.topGenres rows) r
           = g.
Proof.
  split.
  - intros H. apply in_map_iff in H. destruct H as (d & <- & Hd).
    unfold GenreDecadeHeatmap.loadData, GenreDecadeHeatmap.grouped,
      D3.rollup2 in Hd.
    apply in_flat_map in Hd. destruct Hd as ([g' ds] & Hg & Hd).
    apply in_map_iff in Hd. destruct Hd as (dc & <- & _). simpl.
    apply in_map_iff in Hg. destruct Hg as ([k vs] & Heq & Hin).
    simpl in Heq. inversion Heq; subst.
    destruct (group_ok JS.field_eqb
                (GenreDecadeHeatmap.genre_key
                   (GenreDecadeHeatmap.topGenres rows))
                (fun a b => field_eqb_spec _ _) rows) as (_ & Hs & _).
    destruct (Hs _ _ Hin) as (a & Ha & Hk & _). exists a. now split.
  - intros (r & Hr & <-).
    apply in_map_iff. eexists. split; [|apply (heat_row_datum rows r Hr)].
    reflexivity.
Qed.

(** ** Arrays without duplicates *)

Section UniqueFacts.
Context {A : Type} (eqb : A -> A -> bool).
Hypothesis eqb_spec : forall x y, eqb x y = true <-> x = y.

Lemma existsb_eqb_In x (seen : list A) :
  existsb (eqb x) seen = true <-> In x seen.
Proof.
  rewrite existsb_exists. split.
  - intros (y & Hy & E). apply eqb_spec in E. now subst.
  - intros H. exists x. split; [assumption|now apply eqb_spec].
Qed.

Lemma unique_from_In (l : list A) : forall seen x,
  In x (JS.unique_from eqb seen l) <-> In x l /\ ~ In x seen.
Proof.
  induction l as [|y l IH]; intros seen x; simpl; [tauto|].
  destruct (existsb (eqb y) seen) eqn:E.
  - apply existsb_eqb_In in E. rewrite IH. split.
    + intros [H1 H2]. tauto.
    + intros [[->|H1] H2]; tauto.
  - assert (Hy : ~ In y seen).
    { intros H. apply existsb_eqb_In in H. congruence. }
    simpl. rewrite IH. simpl. split.
    + intros [->|[H1 H2]]; tauto.
    + intros [[->|H1] H2]; [now left|].
      destruct (eqb y x) eqn:Eyx.
      * apply eqb_spec in Eyx. now left.
      * right. split; [assumption|]. intros [->|H]; [|contradiction].
        assert (eqb x x = true) by now apply eqb_spec. congruence.
Qed.

Lemma unique_from_NoDup (l : list A) : forall seen,
  NoDup (JS.unique_from eqb seen l).
Proof.
  induction l as [|y l IH]; intros seen; simpl; [constructor|].
  destruct (existsb (eqb y) seen); [apply IH|].
  constructor; [|apply IH].
  intros H. apply unique_from_In in H. destruct H as [_ H].
  apply H. now left.
Qed.

Lemma unique_In (l : list A) x : In x (JS.unique eqb l) <-> In x l.
Proof. unfold JS.unique. rewrite unique_from_In. simpl. tauto. Qed.

Lemma unique_NoDup (l : list A) : NoDup (JS.unique eqb l).
Proof. apply unique_from_NoDup. Qed.

Lemma unique_from_length (l : list A) : forall seen,
  List.length (JS.unique_from eqb seen l) <= List.length l.
Proof.
  induction l as [|y l IH]; intros seen; simpl; [lia|].
  destruct (existsb (eqb y) seen); simpl.
  - specialize (IH seen). lia.
  - specialize (IH (y :: seen)). lia.
Qed.
End UniqueFacts.

(** ** The order of a stable sort *)

Lemma precedes_cons {A : Type} (x a b : A) l :
  precedes a b l -> precedes a b (x :: l).
Proof.
  intros (l1 & l2 & -> & Hb). exists (x :: l1), l2. now split.
Qed.

Lemma precedes_head {A : Type} (x b : A) l : In b l -> precedes x b (x :: l).
Proof. intros Hb. exists [], l. now split. Qed.

Lemma precedes_map {A B : Type} (f : A -> B) a b l :
  precedes a b l -> precedes (f a) (f b) (map f l).
Proof.
  intros (l1 & l2 & -> & Hb). exists (map f l1), (map f l2).
  split; [now rewrite map_app|now apply in_map].
Qed.

Lemma occurs_before_app {A : Type} (g h : A) l l' :
  occurs_before g h l -> occurs_before g h (l ++ l').
Proof.
  intros (pre & post & -> & H). exists pre, (post ++ l').
  split; [now rewrite <- app_assoc|assumption].
Qed.

Lemma StronglySorted_impl {A : Type} (R R' : A -> A -> Prop) l :
  (forall a b, R a b -> R' a b) ->
  StronglySorted R l -> StronglySorted R' l.
Proof.
  intros H. induction 1 as [|a l Hl IH Ha]; constructor; [assumption|].
  eapply Forall_impl; [|exact Ha]. intros b. apply H.
Qed.

Lemma StronglySorted_app_inv {A : Type} (R : A -> A -> Prop) l1 l2 a b :
  StronglySorted R (l1 ++ l2) -> In a l1 -> In b l2 -> R a b.
Proof.
  induction l1 as [|x l1 IH]; intros Hs Ha Hb; [destruct Ha|].
  simpl in Hs. inversion Hs as [|? ? Hs' Hx]; subst.
  destruct Ha as [<-|Ha].
  - rewrite Forall_forall in Hx. apply Hx. apply in_or_app. now right.
  - now apply IH.
Qed.

Section Stable.
Context {K : Type}.

Lemma stable_desc_cons (x : K * nat) l a b :
  stable_desc l a b -> stable_desc (x :: l) a b.
Proof.
  intros [H|[H1 H2]]; [now left|right]. split; [assumption|].
  now apply precedes_cons.
Qed.

Lemma stable_desc_le (l : list (K * nat)) a b :
  stable_desc l a b -> snd b <= snd a.
Proof. intros [H|[H _]]; lia. Qed.

Lemma insert_stable (x : K * nat) l : forall s,
  (forall y, In y s -> In y l) ->
  StronglySorted (stable_desc (x :: l)) s ->
  StronglySorted (stable_desc (x :: l)) (D3.insert D3.by_count_desc x s).
Proof.
  induction s as [|y s IH]; intros Hin Hs; simpl.
  - constructor; constructor.
  - inversion Hs as [|? ? Hs' Hy]; subst.
    destruct (D3.by_count_desc x y <=? 0)%Z eqn:E.
    + apply Z.leb_le in E. unfold D3.by_count_desc in E.
      constructor; [assumption|].
      apply Forall_forall. intros z Hz.
      assert (Hle : snd z <= snd x).
      { destruct Hz as [<-|Hz]; [lia|].
        rewrite Forall_forall in Hy.
        pose proof (stable_desc_le _ _ _ (Hy z Hz)). lia. }
      destruct (Nat.eq_dec (snd x) (snd z)) as [Heq|Hne].
      * right. split; [assumption|]. apply precedes_head. now apply Hin.
      * left. lia.
    + apply Z.leb_gt in E. unfold D3.by_count_desc in E.
      constructor.
      * apply IH; [|assumption]. intros z Hz. apply Hin. now right.
      * apply Forall_forall. intros w Hw.
        apply (Permutation_in _ (insert_perm _ x s)) in Hw.
        destruct Hw as [<-|Hw]; [left; lia|].
        rewrite Forall_forall in Hy. now apply Hy.
Qed.

(** [Array.prototype.sort] is stable: entries of equal count keep their
    order. *)
Lemma sort_stable (l : list (K * nat)) :
  StronglySorted (stable_desc l) (D3.sort D3.by_count_desc l).
Proof.
  induction l as [|x l IH]; simpl; [constructor|].
  apply insert_stable.
  - intros y Hy. apply (Permutation_in _ (sort_perm _ l) Hy).
  - apply (StronglySorted_impl (stable_desc l)); [|assumption].
    intros a b. apply stable_desc_cons.
Qed.

(** Of two keys of the same count, the one taken comes first. *)
Lemma top_keys_ties n (counts : list (K * nat)) g h c :
  NoDup (map fst counts) ->
  In (g, c) counts -> In (h, c) counts ->
  In g (D3.top_keys n counts) -> ~ In h (D3.top_keys n counts) ->
  precedes (g, c) (h, c) counts.
Proof.
  intros Hnd Hg Hh Hin Hout.
  set (s := D3.sort D3.by_count_desc counts).
  assert (Hp : Permutation s counts) by apply sort_perm.
  assert (Hnds : NoDup (map fst s)).
  { apply (Permutation_NoDup (l := map fst counts)); [|assumption].
    apply Permutation_map. now symmetry. }
  unfold D3.top_keys in Hin, Hout. fold s in Hin, Hout.
  apply in_map_iff in Hin. destruct Hin as ([g' c'] & Eg & Hfirst).
  simpl in Eg. subst g'.
  assert (c' = c).
  { apply (NoDup_map_inv_pair s Hnds g c' c).
    - apply (in_firstn_in _ _ _ Hfirst).
    - apply (Permutation_in _ (Permutation_sym Hp) Hg). }
  subst c'.
  assert (Hskip : In (h, c) (skipn n s)).
  { assert (Hs : In (h, c) s)
      by apply (Permutation_in _ (Permutation_sym Hp) Hh).
    rewrite <- (firstn_skipn n s) in Hs. apply in_app_or in Hs.
    destruct Hs as [Hs|Hs]; [|assumption].
    elim Hout. apply in_map_iff. exists (h, c). now split. }
  pose proof (sort_stable counts) as Hsorted. fold s in Hsorted.
  rewrite <- (firstn_skipn n s) in Hsorted.
  destruct (StronglySorted_app_inv _ _ _ _ _ Hsorted Hfirst Hskip)
    as [H|[_ H]]; [simpl in H; lia|exact H].
Qed.
End Stable.

Section GroupOrder.
Context {A K : Type} (keq : K -> K -> bool) (key : A -> K).
Hypothesis keq_spec : forall a b, keq (key a) (key b) = true <-> key a = key b.

(** The keys of the groups come in the order of their first rows. *)
Lemma group_keys_order data : forall g h,
  precedes g h (map fst (D3.group keq key data)) ->
  occurs_before g h (map key data).
Proof.
  induction data as [|a data IH] using rev_ind; intros g h Hp.
  - destruct Hp as (l1 & l2 & E & _). destruct l1; discriminate E.
  - rewrite map_app. simpl. rewrite group_snoc in Hp.
    destruct (group_ok keq key keq_spec data) as (Hnd & Hsound & Hcompl).
    set (m := D3.group keq key data) in *.
    destruct (first_hit keq (key a) m)
      as [Hmiss|(m1 & k' & vs & m2 & Hm & Hmiss & Hhit)].
    + rewrite (group_add_miss _ _ _ _ Hmiss) in Hp.
      rewrite map_app in Hp. simpl in Hp.
      destruct Hp as (l1 & l2 & E & Hh).
      destruct (exists_last (l := l2)) as (l2' & z & ->);
        [intros ->; destruct Hh|].
      change (l1 ++ g :: l2' ++ [z]) with (l1 ++ (g :: l2') ++ [z]) in E.
      rewrite app_assoc in E. apply app_inj_tail in E.
      destruct E as [E Ez]. subst z.
      apply in_app_or in Hh. destruct Hh as [Hh|[<-|[]]].
      * apply occurs_before_app. apply IH. exists l1, l2'. now split.
      * assert (Hg : In g (map fst m))
          by (rewrite E; apply in_or_app; right; now left).
        apply in_map_iff in Hg. destruct Hg as ([g' vs] & Eg & Hin).
        simpl in Eg. subst g'.
        destruct (Hsound g vs Hin) as (x & Hx & -> & _).
        destruct (in_split _ _ (in_map key _ _ Hx)) as (pre & post & Ed).
        exists pre, (post ++ [key a]). split.
        -- rewrite Ed, <- app_assoc. reflexivity.
        -- intros Hpre.
           assert (Hk : In (key a) (map key data))
             by (rewrite Ed; apply in_or_app; now left).
           apply in_map_iff in Hk. destruct Hk as (y & Ey & Hy).
           pose proof (Hmiss _ (Hcompl y Hy)) as F. simpl in F.
           rewrite Ey in F.
           assert (keq (key a) (key a) = true) by now apply keq_spec.
           congruence.
    + rewrite Hm, (group_add_hit _ _ _ _ _ _ _ Hmiss Hhit) in Hp.
      apply occurs_before_app. apply IH. rewrite Hm.
      rewrite map_app in *. simpl in *. exact Hp.
Qed.
End GroupOrder.

(** Of two genres of the same frequency, the one among the [n] most
    frequent occurs first in the file. *)
Lemma top_genres_ties n rows g h :
  In g (D3.top_keys n (genre_counts rows)) ->
  ~ In h (D3.top_keys n (genre_counts rows)) ->
  (exists r, In r rows /\ DSV.genre r = h) ->
  freq h rows = freq g rows ->
  occurs_before g h (map DSV.genre rows).
Proof.
  intros Hg Hout (r & Hr & <-) Hfreq.
  assert (Hgc : In (g, freq g rows) (genre_counts rows)).
  { apply genre_counts_key. now apply (top_keys_incl n). }
  pose proof (genre_counts_complete rows r Hr) as Hhc.
  rewrite Hfreq in Hhc.
  pose proof (top_keys_ties n (genre_counts rows) g (DSV.genre r)
                (freq g rows) (genre_counts_NoDup rows) Hgc Hhc Hg Hout)
    as Hp.
  apply (precedes_map fst) in Hp. simpl in Hp.
  apply (group_keys_order JS.field_eqb DSV.genre
           (fun a b => field_eqb_spec _ _)).
  unfold genre_counts, D3.rollup in Hp. rewrite map_map in Hp.
  exact Hp.
Qed.

(** ** How many top genres there are *)

Lemma top_keys_count {K : Type} n (counts : list (K * nat)) :
  List.length (D3.top_keys n counts) = Nat.min n (List.length counts).
Proof.
  unfold D3.top_keys. rewrite length_map, length_firstn.
  now rewrite (Permutation_length (sort_perm D3.by_count_desc counts)).
Qed.

Lemma top_keys_all {K : Type} n (counts : list (K * nat)) k :
  List.length counts <= n ->
  In k (map fst counts) -> In k (D3.top_keys n counts).
Proof.
  intros Hlen Hk. unfold D3.top_keys. rewrite firstn_all2.
  - apply in_map_iff in Hk. destruct Hk as (e & <- & He).
    apply in_map.
    apply (Permutation_in _ (Permutation_sym (sort_perm _ counts)) He).
  - now rewrite (Permutation_length (sort_perm D3.by_count_desc counts)).
Qed.

(** The rollup has one entry for every distinct genre of the rows. *)
Lemma genre_counts_distinct rows :
  List.length (genre_counts rows)
  = List.length (JS.unique JS.field_eqb (map DSV.genre rows)).
Proof.
  rewrite <- (length_map fst (genre_counts rows)).
  apply Permutation_length, NoDup_Permutation.
  - apply genre_counts_NoDup.
  - apply (unique_NoDup _ field_eqb_spec).
  - intros g. rewrite (unique_In _ field_eqb_spec). split.
    + intros H. apply genre_counts_key in H.
      destruct (genre_counts_sound _ _ _ H) as (_ & r & Hr & <-).
      now apply in_map.
    + intros H. apply in_map_iff in H. destruct H as (r & <- & Hr).
      apply in_map_iff.
      exists (DSV.genre r, freq (DSV.genre r) rows).
      split; [reflexivity|now apply genre_counts_complete].
Qed.

(** The [n] most frequent genres: as many as there are distinct genres,
    up to [n]; when a row has a genre outside them there are [n]. *)
Lemma top_genres_count n rows :
  let top := D3.top_keys n (genre_counts rows) in
  List.length top
  = Nat.min n (List.length (JS.unique JS.field_eqb (map DSV.genre rows)))
  /\ ((forall r, In r rows -> In (DSV.genre r) top)
      \/ List.length top = n).
Proof.
  intros top. unfold top.
  rewrite top_keys_count, genre_counts_distinct. split; [reflexivity|].
  rewrite <- genre_counts_distinct.
  destruct (Nat.le_gt_cases (List.length (genre_counts rows)) n) as [H|H].
  - left. intros r Hr. apply top_keys_all; [assumption|].
    apply in_map_iff. exists (DSV.genre r, freq (DSV.genre r) rows).
    split; [reflexivity|now apply genre_counts_complete].
  - right. lia.
Qed.

(** C5.  The genre labels of the heatmap data are the 20 most frequent
    genres, and ["Other"] as well exactly when some row has a genre outside
    them; there are never more than 21 distinct labels.  The most frequent
    genres are distinct genres of rows, as many as the rows have distinct
    genres up to 20, so that they are 20 whenever a row has a genre outside
    them; no genre left out is more frequent than one of them, and one
    that is as frequent occurs later in the file. *)
Theorem heatmap_genre_labels (rows : list RawRow) :
  let top := GenreDecadeHeatmap.topGenres rows in
  let labels :=
    map GenreDecadeHeatmap.genre (GenreDecadeHeatmap.loadData rows) in
  (forall g, In g labels <->
     In g top
     \/ (g = Some "Other" /\ exists r, In r rows /\ ~ In (DSV.genre r) top))
  /\ (forall l, NoDup l -> incl l labels -> List.length l <= 21)
  /\ NoDup top
  /\ List.length top <= 20
  /\ List.length top
     = Nat.min 20
         (List.length (JS.unique JS.field_eqb (map DSV.genre rows)))
  /\ ((forall r, In r rows -> In (DSV.genre r) top)
      \/ List.length top = 20)
  /\ (forall g, In g top -> exists r, In r rows /\ DSV.genre r = g)
  /\ (forall g r, In g top -> In r rows -> ~ In (DSV.genre r) top ->
        freq (DSV.genre r) rows <= freq g rows)
  /\ (forall g r, In g top -> In r rows -> ~ In (DSV.genre r) top ->
        freq (DSV.genre r) rows = freq g rows ->
        occurs_before g (DSV.genre r) (map DSV.genre rows)).
Proof.
  intros top labels.
  assert (Hties : forall g r, In g top -> In r rows ->
            ~ In (DSV.genre r) top ->
            freq (DSV.genre r) rows = freq g rows ->
            occurs_before g (DSV.genre r) (map DSV.genre rows)).
  { intros g r Hg Hr Hout Hf.
    apply (top_genres_ties 20 rows g (DSV.genre r) Hg Hout); [|exact Hf].
    exists r. now split. }
  pose proof (top_genres_spec 20 rows) as Hspec. cbv zeta in Hspec.
  change (D3.top_keys 20 (genre_counts rows)) with top in Hspec.
  destruct Hspec as (Hnd & Hlen & Hsrc & Hmost).
  pose proof (top_genres_count 20 rows) as Hcount. cbv zeta in Hcount.
  change (D3.top_keys 20 (genre_counts rows)) with top in Hcount.
  destruct Hcount as (Hmin & Hfull).
  assert (Hlab : forall g, In g labels <->
     In g top
     \/ (g = Some "Other" /\ exists r, In r rows /\ ~ In (DSV.genre r) top)).
  { intros g. unfold labels. rewrite heat_labels. fold top. split.
    - intros (r & Hr & Hk). unfold GenreDecadeHeatmap.genre_key in Hk.
      destruct (JS.includes top (DSV.genre r)) eqn:E.
      + left. apply includes_In in E. now subst g.
      + right. apply includes_not_In in E. split; [now subst g|].
        exists r. now split.
    - intros [Hg|(-> & r & Hr & Hout)].
      + destruct (Hsrc g Hg) as (r & Hr & Hgr). exists r. split; [assumption|].
        unfold GenreDecadeHeatmap.genre_key. rewrite Hgr.
        apply includes_In in Hg. now rewrite Hg.
      + exists r. split; [assumption|].
        unfold GenreDecadeHeatmap.genre_key.
        apply includes_not_In in Hout. now rewrite Hout. }
  repeat split; try assumption; try (now apply Hlab).
  intros l Hl Hincl.
  assert (Hsub : incl l (Some "Other" :: top)).
  { intros g Hg. apply Hincl, Hlab in Hg.
    destruct Hg as [Hg|(-> & _)]; [now right|now left]. }
  pose proof (NoDup_incl_length Hl Hsub) as H. simpl in H. lia.
Qed.

(** ** Counting with a map *)

Section CountMap.
Context {K : Type} (keq : K -> K -> bool).
Hypothesis keq_eq : forall x y, keq x y = true <-> x = y.

Lemma keq_refl_eq x : keq x x = true.
Proof. now apply keq_eq. Qed.

Lemma keq_sym_eq x y : keq x y = keq y x.
Proof.
  destruct (keq x y) eqn:E1, (keq y x) eqn:E2; try reflexivity.
  - apply keq_eq in E1. subst. now rewrite keq_refl_eq in E2.
  - apply keq_eq in E2. subst. now rewrite keq_refl_eq in E1.
Qed.

Lemma map_get_set (m : list (K * nat)) k v k' :
  JS.map_get keq k' (JS.map_set keq k v m)
  = if keq k k' then Some v else JS.map_get keq k' m.
Proof.
  induction m as [|[k0 v0] m IH]; simpl.
  - reflexivity.
  - destruct (keq k0 k) eqn:E; simpl.
    + apply keq_eq in E. subst k0. now destruct (keq k k').
    + destruct (keq k0 k') eqn:E'; [|exact IH].
      apply keq_eq in E'. subst k0. now rewrite keq_sym_eq, E.
Qed.

Lemma map_set_keys (m : list (K * nat)) k v :
  map fst (JS.map_set keq k v m)
  = if JS.map_has keq k m then map fst m else map fst m ++ [k].
Proof.
  unfold JS.map_has. induction m as [|[k0 v0] m IH]; simpl; [reflexivity|].
  destruct (keq k0 k) eqn:E; simpl; [reflexivity|].
  rewrite IH. now destruct (existsb _ m).
Qed.

Lemma map_has_In (m : list (K * nat)) k :
  JS.map_has keq k m = true <-> In k (map fst m).
Proof.
  unfold JS.map_has. rewrite existsb_exists, in_map_iff. split.
  - intros (e & He & E). apply keq_eq in E. now exists e.
  - intros (e & E & He). exists e. split; [assumption|].
    rewrite E. apply keq_refl_eq.
Qed.

Lemma map_get_In (m : list (K * nat)) k v :
  NoDup (map fst m) -> (JS.map_get keq k m = Some v <-> In (k, v) m).
Proof.
  induction m as [|[k0 v0] m IH]; intros Hnd; simpl.
  - split; [discriminate|intros []].
  - inversion Hnd as [|? ? Hnot Hnd']; subst.
    destruct (keq k0 k) eqn:E.
    + apply keq_eq in E. subst k0. split.
      * intros H. left. congruence.
      * intros [H|H]; [congruence|].
        exfalso. apply Hnot. change k with (fst (k, v)). now apply in_map.
    + rewrite (IH Hnd'). split; [now right|].
      intros [H|H]; [|assumption].
      inversion H; subst. now rewrite keq_refl_eq in E.
Qed.

Lemma map_get_None (m : list (K * nat)) k :
  JS.map_get keq k m = None <-> ~ In k (map fst m).
Proof.
  induction m as [|[k0 v0] m IH]; simpl.
  - split; [intros _ []|reflexivity].
  - destruct (keq k0 k) eqn:E.
    + apply keq_eq in E. split; [discriminate|]. intros H. exfalso. now apply H; left.
    + rewrite IH. split.
      * intros H [H'|H']; [subst; now rewrite keq_refl_eq in E|now apply H].
      * intros H H'. apply H. now right.
Qed.

Lemma occurrences_snoc k ks k' :
  occurrences keq k (ks ++ [k'])
  = occurrences keq k ks + (if keq k k' then 1 else 0).
Proof.
  unfold occurrences. rewrite filter_app, length_app. simpl.
  now destruct (keq k k').
Qed.

Lemma counted_spec ks :
  NoDup (map fst (counted keq ks))
  /\ forall k,
       JS.map_get keq k (counted keq ks)
       = match occurrences keq k ks with 0 => None | n => Some n end.
Proof.
  induction ks as [|k' ks IH] using rev_ind.
  - split; [constructor|reflexivity].
  - destruct IH as (Hnd & Hget).
    unfold counted in *. rewrite fold_left_app. simpl.
    set (m := fold_left (bump keq) ks []) in *.
    split.
    + unfold bump. rewrite map_set_keys.
      destruct (JS.map_has keq k' m) eqn:E; [assumption|].
      apply NoDup_app; [assumption|repeat constructor; intros []|].
      intros k Hk [<-|[]].
      apply map_has_In in Hk. congruence.
    + intros k. unfold bump. rewrite map_get_set, occurrences_snoc.
      rewrite (keq_sym_eq k' k).
      destruct (keq k k') eqn:E.
      * apply keq_eq in E. subst k'. rewrite Hget.
        destruct (occurrences keq k ks); simpl; reflexivity.
      * rewrite Hget, Nat.add_0_r. reflexivity.
Qed.

Lemma counted_In ks k c :
  In (k, c) (counted keq ks) <-> In k ks /\ c = occurrences keq k ks.
Proof.
  destruct (counted_spec ks) as (Hnd & Hget).
  rewrite <- (map_get_In _ _ _ Hnd), Hget.
  assert (Hocc : occurrences keq k ks <> 0 <-> In k ks).
  { unfold occurrences. split.
    - intros H. destruct (filter (keq k) ks) as [|x l] eqn:E; [now simpl in H|].
      assert (Hx : In x (filter (keq k) ks)) by (rewrite E; now left).
      apply filter_In in Hx. destruct Hx as (Hx & Ek).
      apply keq_eq in Ek. now subst.
    - intros H E.
      assert (Hk : In k (filter (keq k) ks)).
      { apply filter_In. split; [assumption|apply keq_refl_eq]. }
      destruct (filter (keq k) ks); [destruct Hk|discriminate]. }
  destruct (occurrences keq k ks) as [|n] eqn:E.
  - split; [discriminate|]. intros (H & _). apply Hocc in H. congruence.
  - split.
    + intros H. inversion H. split; [|reflexivity]. apply Hocc. discriminate.
    + intros (_ & ->). reflexivity.
Qed.
End CountMap.

(** ** Link keys and their decoding *)

Lemma pair_eqb_eq p q : pair_eqb p q = true <-> p = q.
Proof.
  destruct p as [a b], q as [c d]. unfold pair_eqb. simpl.
  rewrite andb_true_iff, !String.eqb_eq. split.
  - intros [-> ->]. reflexivity.
  - intros H. inversion H. now split.
Qed.

Lemma cut_unfold sep s :
  JS.cut sep s
  = match JS.strip_prefix sep s with
    | Some rest => (EmptyString, Some rest)
    | None =>
        match s with
        | EmptyString => (EmptyString, None)
        | String c s' => let (a, r) := JS.cut sep s' in (String c a, r)
        end
    end.
Proof. destruct s; reflexivity. Qed.

Lemma strip_prefix_no_bar c x :
  Ascii.eqb c "|" = false -> JS.strip_prefix "|||" (String c x) = None.
Proof.
  intros H.
  change (JS.strip_prefix "|||" (String c x))
    with (if Ascii.eqb "|" c then JS.strip_prefix "||" x else None).
  now rewrite Ascii.eqb_sym, H.
Qed.

Lemma cut_before_bars s rest :
  has_bar s = false ->
  JS.cut "|||" (s ++ "|||" ++ rest) = (s, Some rest).
Proof.
  induction s as [|c s IH]; intros H.
  - reflexivity.
  - simpl in H. apply orb_false_iff in H. destruct H as [Hc Hs].
    rewrite cut_unfold.
    change (String c s ++ "|||" ++ rest)%string
      with (String c (s ++ "|||" ++ rest)).
    rewrite (strip_prefix_no_bar c _ Hc). now rewrite (IH Hs).
Qed.

Lemma cut_no_bar s : has_bar s = false -> JS.cut "|||" s = (s, None).
Proof.
  induction s as [|c s IH]; intros H.
  - reflexivity.
  - simpl in H. apply orb_false_iff in H. destruct H as [Hc Hs].
    rewrite cut_unfold, (strip_prefix_no_bar c _ Hc). now rewrite (IH Hs).
Qed.

Lemma length_app_string (s t : string) :
  String.length (s ++ t) = String.length s + String.length t.
Proof. induction s as [|c s IH]; simpl; [reflexivity|now rewrite IH]. Qed.

Lemma length_key s rest :
  String.length (s ++ "|||" ++ rest)
  = S (String.length s + 2 + String.length rest).
Proof. rewrite !length_app_string. simpl. lia. Qed.

Lemma split_pair_key p :
  bar_free p -> JS.split "|||" (pair_key p) = [fst p; snd p].
Proof.
  destruct p as [s t]. intros [Hs Ht]. simpl in *.
  unfold JS.split, pair_key. simpl fst. simpl snd. rewrite length_key.
  cbn [JS.split_fuel]. rewrite (cut_before_bars s t Hs).
  destruct (String.length s + 2 + String.length t);
    cbn [JS.split_fuel]; now rewrite (cut_no_bar t Ht).
Qed.

Lemma pair_key_inj p q :
  bar_free p -> bar_free q -> pair_key p = pair_key q -> p = q.
Proof.
  intros Hp Hq H. apply (f_equal (JS.split "|||")) in H.
  rewrite (split_pair_key p Hp), (split_pair_key q Hq) in H.
  destruct p, q. simpl in H. now inversion H.
Qed.

Lemma occurrences_pair_key p l :
  bar_free p -> (forall q, In q l -> bar_free q) ->
  occurrences String.eqb (pair_key p) (map pair_key l) = count_pair p l.
Proof.
  intros Hp Hl. unfold occurrences, count_pair.
  induction l as [|q l IH]; simpl; [reflexivity|].
  assert (E : String.eqb (pair_key p) (pair_key q) = pair_eqb p q).
  { destruct (pair_eqb p q) eqn:E.
    - apply pair_eqb_eq in E. subst. apply String.eqb_refl.
    - apply String.eqb_neq. intros H.
      apply (pair_key_inj p q Hp (Hl q (or_introl eq_refl))) in H.
      apply pair_eqb_eq in H. congruence. }
  rewrite E. destruct (pair_eqb p q); simpl; rewrite IH; try reflexivity;
    intros x Hx; apply Hl; now right.
Qed.

Lemma decode_pair_key p c :
  bar_free p ->
  SankeyChart.decode_link (pair_key p, c)
  = {| SankeyChart.source := Some (fst p);
       SankeyChart.target := Some (snd p);
       SankeyChart.value := c |}.
Proof.
  intros Hp. unfold SankeyChart.decode_link. simpl fst. simpl snd.
  now rewrite (split_pair_key p Hp).
Qed.

(** ** Sankey diagram *)

Lemma visit_links top st d :
  snd (SankeyChart.visit top st d)
  = if JS.includes top (DSV.genre d)
    then fold_left (bump String.eqb) (map pair_key (transitions d)) (snd st)
    else snd st.
Proof.
  unfold SankeyChart.visit. destruct (JS.includes top (DSV.genre d));
    reflexivity.
Qed.

Lemma fold_visit_links top rows : forall st,
  snd (fold_left (SankeyChart.visit top) rows st)
  = fold_left (bump String.eqb)
      (map pair_key
         (flat_map transitions
            (filter (fun d => JS.includes top (DSV.genre d)) rows)))
      (snd st).
Proof.
  induction rows as [|d rows IH]; intros st; simpl; [reflexivity|].
  rewrite IH, visit_links.
  destruct (JS.includes top (DSV.genre d)); [|reflexivity].
  cbn [flat_map]. rewrite map_app, fold_left_app. reflexivity.
Qed.

Lemma sankey_links rows :
  snd (SankeyChart.loadData rows)
  = map SankeyChart.decode_link
      (counted String.eqb (map pair_key (all_transitions rows))).
Proof.
  unfold SankeyChart.loadData. destruct rows as [|d rows]; [reflexivity|].
  cbv zeta. cbn [snd]. now rewrite fold_visit_links.
Qed.

Lemma status_no_bar d :
  has_bar (SankeyChart.movieStatus d) = false
  /\ has_bar (SankeyChart.bestsellerStatus d) = false.
Proof.
  unfold SankeyChart.movieStatus, SankeyChart.bestsellerStatus.
  destruct (SankeyChart.is_true (DSV.adapted_to_movie d)),
    (SankeyChart.is_true (DSV.bestseller_status d)); split; reflexivity.
Qed.

Lemma transitions_bar_free rows :
  labels_bar_free rows ->
  forall p, In p (all_transitions rows) -> bar_free p.
Proof.
  intros H p Hp. unfold all_transitions in Hp. apply in_flat_map in Hp.
  destruct Hp as (d & Hd & Hp). destruct (H d Hd) as [Hg Ha].
  destruct (status_no_bar d) as [Hm Hb].
  destruct Hp as [<-|[<-|[<-|[]]]]; split; assumption.
Qed.

Lemma filter_key_unique {V : Type} (l : list (string * V)) k v :
  NoDup (map fst l) -> In (k, v) l ->
  filter (fun e => String.eqb (fst e) k) l = [(k, v)].
Proof.
  induction l as [|[k0 v0] l IH]; intros Hnd Hin; [destruct Hin|].
  simpl in Hnd. inversion Hnd as [|? ? Hnot Hnd']; subst. simpl.
  destruct Hin as [Heq|Hin].
  - inversion Heq; subst. rewrite String.eqb_refl. f_equal.
    apply filter_none. intros [k1 v1] H1. simpl.
    apply String.eqb_neq. intros ->. apply Hnot.
    change k with (fst (k, v1)). now apply in_map.
  - destruct (String.eqb k0 k) eqn:E.
    + apply String.eqb_eq in E. subst k0. exfalso. apply Hnot.
      change k with (fst (k, v)). now apply in_map.
    + now apply IH.
Qed.

Lemma filter_map_comm {A B : Type} (f : A -> B) (g : B -> bool) l :
  filter g (map f l) = map f (filter (fun x => g (f x)) l).
Proof.
  induction l as [|x l IH]; simpl; [reflexivity|].
  destruct (g (f x)); simpl; now rewrite IH.
Qed.

(** ** Status labels *)

Lemma lower_t c : Ascii.eqb (JS.lower_char c) "t" = same_letter c "t".
Proof. destruct c as [[] [] [] [] [] [] [] []]; reflexivity. Qed.

Lemma lower_r c : Ascii.eqb (JS.lower_char c) "r" = same_letter c "r".
Proof. destruct c as [[] [] [] [] [] [] [] []]; reflexivity. Qed.

Lemma lower_u c : Ascii.eqb (JS.lower_char c) "u" = same_letter c "u".
Proof. destruct c as [[] [] [] [] [] [] [] []]; reflexivity. Qed.

Lemma lower_e c : Ascii.eqb (JS.lower_char c) "e" = same_letter c "e".
Proof. destruct c as [[] [] [] [] [] [] [] []]; reflexivity. Qed.

Lemma is_true_says_true x : SankeyChart.is_true x = says_true x.
Proof.
  destruct x as [s|]; [|reflexivity].
  unfold SankeyChart.is_true, says_true, JS.String_.
  destruct s as [|c1 [|c2 [|c3 [|c4 [|c5 s]]]]];
    cbn [JS.toLowerCase String.eqb equal_ignoring_case];
    rewrite ?lower_t, ?lower_r, ?lower_u, ?lower_e;
    try reflexivity;
    repeat (match goal with
            | |- context [same_letter ?a ?b] => destruct (same_letter a b)
            end; cbn [andb]; try reflexivity).
Qed.

(** ** The nodes of the Sankey diagram *)

Section Nodes.
Variable top : list JS.field.

Lemma node_has_In (nm : SankeyChart.NodeMap) k :
  JS.map_has JS.field_eqb k nm = true <-> In k (map fst nm).
Proof.
  unfold JS.map_has. rewrite existsb_exists, in_map_iff. split.
  - intros (e & He & E). apply field_eqb_spec in E. now exists e.
  - intros (e & E & He). exists e. split; [assumption|].
    now apply field_eqb_spec.
Qed.

Lemma addNode_keys k l nm x :
  In x (map fst (SankeyChart.addNode k l nm)) <-> In x (map fst nm) \/ x = k.
Proof.
  unfold SankeyChart.addNode.
  destruct (JS.map_has JS.field_eqb k nm) eqn:E.
  - apply node_has_In in E. split; [now left|].
    intros [H| ->]; assumption.
  - rewrite map_app, in_app_iff. simpl. split.
    + intros [H|[H|[]]]; [now left|now right].
    + intros [H|H]; [now left|right; now left].
Qed.

Lemma addNode_NoDup k l nm :
  NoDup (map fst nm) -> NoDup (map fst (SankeyChart.addNode k l nm)).
Proof.
  intros H. unfold SankeyChart.addNode.
  destruct (JS.map_has JS.field_eqb k nm) eqn:E; [assumption|].
  rewrite map_app. simpl.
  apply NoDup_app; [assumption|repeat constructor; intros []|].
  intros x Hx [<-|[]]. apply node_has_In in Hx. congruence.
Qed.

Lemma addNode_In k l nm x n :
  In (x, n) (SankeyChart.addNode k l nm) ->
  In (x, n) nm
  \/ (x = k /\ n = {| SankeyChart.name := k; SankeyChart.layer := l |}).
Proof.
  unfold SankeyChart.addNode.
  destruct (JS.map_has JS.field_eqb k nm); [now left|].
  intros H. apply in_app_or in H. destruct H as [H|[H|[]]]; [now left|].
  right. now inversion H.
Qed.

Lemma visit_nodes st d :
  fst (SankeyChart.visit top st d)
  = if JS.includes top (DSV.genre d)
    then SankeyChart.addNode (Some (SankeyChart.bestsellerStatus d)) 3
           (SankeyChart.addNode (Some (SankeyChart.movieStatus d)) 2
              (SankeyChart.addNode (DSV.age_category d) 1
                 (SankeyChart.addNode (DSV.genre d) 0 (fst st))))
    else fst st.
Proof.
  unfold SankeyChart.visit. now destruct (JS.includes top (DSV.genre d)).
Qed.

Lemma processed_snoc seen d x :
  processed top (seen ++ [d]) x <->
  processed top seen x \/ (x = d /\ JS.includes top (DSV.genre d) = true).
Proof.
  unfold processed. rewrite in_app_iff. simpl. split.
  - intros [[H|[<-|[]]] E]; [left; now split|right; now split].
  - intros [[H E]|[-> E]]; (split; [|assumption]); [now left|right; now left].
Qed.

Lemma visit_nodes_ok seen st d :
  nodes_ok top seen (fst st) ->
  nodes_ok top (seen ++ [d]) (fst (SankeyChart.visit top st d)).
Proof.
  intros (Hnd & Hsound & Hcompl). rewrite visit_nodes.
  destruct (JS.includes top (DSV.genre d)) eqn:E.
  - split; [|split].
    + now repeat apply addNode_NoDup.
    + intros k n Hin.
      assert (Hd : processed top (seen ++ [d]) d).
      { apply processed_snoc. right. now split. }
      repeat (apply addNode_In in Hin;
              destruct Hin as [Hin|[-> ->]];
              [|split; [reflexivity|]; exists d; split; [exact Hd|];
                unfold node_of_row; simpl; tauto]).
      destruct (Hsound k n Hin) as (Hk & x & Hx & Hn).
      split; [assumption|]. exists x. split; [|assumption].
      apply processed_snoc. now left.
    + intros x Hx. apply processed_snoc in Hx.
      rewrite !addNode_keys.
      destruct Hx as [Hx|[-> _]]; [|tauto].
      destruct (Hcompl x Hx) as (H1 & H2 & H3 & H4). tauto.
  - split; [assumption|split].
    + intros k n Hin. destruct (Hsound k n Hin) as (Hk & x & Hx & Hn).
      split; [assumption|]. exists x. split; [|assumption].
      apply processed_snoc. now left.
    + intros x Hx. apply processed_snoc in Hx.
      destruct Hx as [Hx|[-> E']]; [now apply Hcompl|congruence].
Qed.

Lemma fold_visit_nodes_ok rows : forall seen st,
  nodes_ok top seen (fst st) ->
  nodes_ok top (seen ++ rows) (fst (fold_left (SankeyChart.visit top) rows st)).
Proof.
  induction rows as [|d rows IH]; intros seen st H; simpl.
  - now rewrite app_nil_r.
  - replace (seen ++ d :: rows) with ((seen ++ [d]) ++ rows)
      by (rewrite <- app_assoc; reflexivity).
    apply IH. now apply visit_nodes_ok.
Qed.
End Nodes.

Lemma nodes_ok_nil top : nodes_ok top [] [].
Proof.
  split; [simpl; constructor|split].
  - intros k n [].
  - intros d [[] _].
Qed.

Lemma sankey_nodes_ok rows :
  exists nm,
    fst (SankeyChart.loadData rows) = map snd nm
    /\ nodes_ok (SankeyChart.topGenres rows) rows nm.
Proof.
  destruct rows as [|d rows].
  - exists []. split; [reflexivity|apply nodes_ok_nil].
  - eexists. split; [reflexivity|].
    apply (fold_visit_nodes_ok (SankeyChart.topGenres (d :: rows))
             (d :: rows) [] ([], [])).
    apply nodes_ok_nil.
Qed.

Lemma processed_surviving rows d :
  processed (SankeyChart.topGenres rows) rows d <-> In d (surviving rows).
Proof.
  unfold processed, surviving, survives. now rewrite filter_In.
Qed.

Lemma status_labels_differ d d' :
  SankeyChart.movieStatus d <> SankeyChart.bestsellerStatus d'.
Proof.
  unfold SankeyChart.movieStatus, SankeyChart.bestsellerStatus.
  destruct (SankeyChart.is_true _), (SankeyChart.is_true _); discriminate.
Qed.

Lemma sankey_node_names rows :
  exists nm,
    fst (SankeyChart.loadData rows) = map snd nm
    /\ map SankeyChart.name (fst (SankeyChart.loadData rows)) = map fst nm
    /\ nodes_ok (SankeyChart.topGenres rows) rows nm.
Proof.
  destruct (sankey_nodes_ok rows) as (nm & Hn & Hok).
  exists nm. split; [assumption|]. split; [|assumption].
  rewrite Hn, map_map. apply map_ext_in. intros [k n] Hin. simpl.
  destruct Hok as (_ & Hs & _). now destruct (Hs k n Hin).
Qed.

Lemma sankey_node_origin rows n :
  In n (fst (SankeyChart.loadData rows)) ->
  exists d, In d (surviving rows) /\ node_of_row d n.
Proof.
  intros Hn.
  destruct (sankey_node_names rows) as (nm & Hnodes & _ & _ & Hs & _).
  rewrite Hnodes in Hn. apply in_map_iff in Hn.
  destruct Hn as ([k n'] & <- & Hin).
  destruct (Hs k n' Hin) as (_ & d & Hd & Hof).
  exists d. split; [exact (proj1 (processed_surviving rows d) Hd)|exact Hof].
Qed.

(** ** Labels that the link keys keep apart *)

Lemma strip_prefix_sep s :
  JS.strip_prefix "|||" s
  = if starts_with_sep s
    then match s with
         | String _ (String _ (String _ rest)) => Some rest
         | _ => None
         end
    else None.
Proof.
  destruct s as [|a [|b [|c s]]]; unfold starts_with_sep, is_bar;
    cbn [JS.strip_prefix];
    rewrite ?(Ascii.eqb_sym "|" a), ?(Ascii.eqb_sym "|" b),
      ?(Ascii.eqb_sym "|" c);
    repeat match goal with
           | |- context [Ascii.eqb ?x "|"] => destruct (Ascii.eqb x "|")
           end; reflexivity.
Qed.

Lemma starts_with_sep_app x y :
  starts_with_sep x = true -> starts_with_sep (x ++ y) = true.
Proof. destruct x as [|a [|b [|c x]]]; simpl; congruence. Qed.

(** A separator that starts in [x] and ends in the two bars after it also
    ends in the three bars of a key. *)
Lemma starts_with_sep_key x rest :
  starts_with_sep (x ++ "||") = true ->
  starts_with_sep (x ++ "|||" ++ rest) = true.
Proof.
  destruct x as [|a [|b [|c x]]]; unfold starts_with_sep, is_bar; simpl;
    try congruence;
    repeat match goal with
           | |- context [Ascii.eqb ?x "|"] => destruct (Ascii.eqb x "|")
           end; simpl; congruence.
Qed.

Lemma has_sep_unfold s :
  has_sep s
  = starts_with_sep s
    || match s with EmptyString => false | String _ s' => has_sep s' end.
Proof. destruct s; reflexivity. Qed.

Lemma has_sep_app x y : has_sep (x ++ y) = false -> has_sep x = false.
Proof.
  induction x as [|c x IH]; [reflexivity|].
  change (String c x ++ y)%string with (String c (x ++ y)).
  rewrite (has_sep_unfold (String c x)), (has_sep_unfold (String c (x ++ y))).
  intros H. apply orb_false_iff in H. destruct H as [H1 H2].
  apply orb_false_iff. split; [|now apply IH].
  destruct (starts_with_sep (String c x)) eqn:E; [|reflexivity].
  apply (starts_with_sep_app _ y) in E.
  change (String c x ++ y)%string with (String c (x ++ y)) in E. congruence.
Qed.

(** A label followed by two bars has a separator in it when the label has
    one or ends with a bar. *)
Lemma has_sep_two_bars s :
  has_sep (s ++ "||") = has_sep s || ends_with_bar s.
Proof.
  induction s as [|a s IH]; [reflexivity|].
  change (String a s ++ "||")%string with (String a (s ++ "||")).
  rewrite (has_sep_unfold (String a s)),
    (has_sep_unfold (String a (s ++ "||"))), IH.
  destruct s as [|b [|c s]].
  - unfold starts_with_sep. simpl. destruct (is_bar a); reflexivity.
  - unfold starts_with_sep. simpl.
    destruct (is_bar a), (is_bar b); reflexivity.
  - change (starts_with_sep (String a (String b (String c s) ++ "||")))
      with (starts_with_sep (String a (String b (String c s)))).
    change (ends_with_bar (String a (String b (String c s))))
      with (ends_with_bar (String b (String c s))).
    destruct (starts_with_sep _), (has_sep _), (ends_with_bar _);
      reflexivity.
Qed.

Lemma separable_label_spec s :
  separable_label s <-> has_sep (s ++ "||") = false.
Proof.
  unfold separable_label. rewrite has_sep_two_bars, orb_false_iff. tauto.
Qed.

(** What [cut] returns: the piece before the first separator and what
    comes after it. *)
Lemma cut_spec s : forall a r,
  JS.cut "|||" s = (a, r) ->
  match r with
  | Some rest => s = (a ++ "|||" ++ rest)%string
                 /\ has_sep (a ++ "||") = false
  | None => a = s /\ has_sep s = false
  end.
Proof.
  induction s as [|c s IH]; intros a r H.
  - simpl in H. inversion H; subst. now split.
  - rewrite cut_unfold, strip_prefix_sep in H.
    destruct (starts_with_sep (String c s)) eqn:E.
    + destruct s as [|b [|c' s]]; try discriminate E.
      inversion H; subst. split; [|reflexivity].
      unfold starts_with_sep, is_bar in E.
      apply andb_true_iff in E. destruct E as [E E3].
      apply andb_true_iff in E. destruct E as [E1 E2].
      apply Ascii.eqb_eq in E1, E2, E3. now subst.
    + destruct (JS.cut "|||" s) as [a' r'] eqn:Ec.
      inversion H; subst. specialize (IH a' r eq_refl).
      destruct r as [rest|].
      * destruct IH as [-> Hs]. split; [reflexivity|].
        change (String c a' ++ "||")%string with (String c (a' ++ "||")).
        rewrite has_sep_unfold, Hs, orb_false_r.
        destruct (starts_with_sep (String c (a' ++ "||"))) eqn:E';
          [|reflexivity].
        apply (starts_with_sep_key (String c a') rest) in E'.
        change (String c a' ++ "|||" ++ rest)%string
          with (String c (a' ++ "|||" ++ rest)) in E'. congruence.
      * destruct IH as [-> Hs]. split; [reflexivity|].
        now rewrite has_sep_unfold, E, Hs.
Qed.

Lemma cut_before_sep a rest :
  has_sep (a ++ "||") = false ->
  JS.cut "|||" (a ++ "|||" ++ rest) = (a, Some rest).
Proof.
  induction a as [|c a IH]; intros H; [reflexivity|].
  change (String c a ++ "||")%string with (String c (a ++ "||")) in H.
  rewrite has_sep_unfold in H. apply orb_false_iff in H.
  destruct H as [H1 H2].
  change (String c a ++ "|||" ++ rest)%string
    with (String c (a ++ "|||" ++ rest)).
  rewrite cut_unfold, strip_prefix_sep.
  destruct (starts_with_sep (String c (a ++ "|||" ++ rest))) eqn:E.
  - exfalso.
    destruct a as [|b [|c' a]]; unfold starts_with_sep, is_bar in *;
      simpl in *;
      repeat match goal with
             | H : context [Ascii.eqb ?x "|"] |- _ =>
                 destruct (Ascii.eqb x "|")
             end; simpl in *; congruence.
  - now rewrite (IH H2).
Qed.

Lemma cut_no_sep s : has_sep s = false -> JS.cut "|||" s = (s, None).
Proof.
  induction s as [|c s IH]; intros H; [reflexivity|].
  rewrite has_sep_unfold in H. apply orb_false_iff in H.
  destruct H as [H1 H2].
  rewrite cut_unfold, strip_prefix_sep, H1. now rewrite (IH H2).
Qed.

Lemma split_separable p :
  separable p -> JS.split "|||" (pair_key p) = [fst p; snd p].
Proof.
  destruct p as [s t]. intros [Hs Ht]. simpl in *.
  apply separable_label_spec in Hs.
  unfold JS.split, pair_key. simpl fst. simpl snd. rewrite length_key.
  cbn [JS.split_fuel]. rewrite (cut_before_sep s t Hs).
  destruct (String.length s + 2 + String.length t);
    cbn [JS.split_fuel]; now rewrite (cut_no_sep t Ht).
Qed.

(** The first two pieces of any key are a separable pair. *)
Lemma split_gives_separable k s t :
  nth_error (JS.split "|||" k) 0 = Some s ->
  nth_error (JS.split "|||" k) 1 = Some t ->
  separable (s, t).
Proof.
  unfold JS.split. destruct (String.length k) as [|f].
  - cbn [JS.split_fuel]. destruct (JS.cut "|||" k) as [a [rest|]];
      simpl; discriminate.
  - cbn [JS.split_fuel].
    destruct (JS.cut "|||" k) as [a [rest|]] eqn:E;
      [|simpl; discriminate].
    apply cut_spec in E. destruct E as [_ Ha].
    intros H0 H1. simpl in H0. inversion H0; subst a. clear H0.
    split; [now apply separable_label_spec|]. simpl fst. simpl snd.
    simpl in H1.
    assert (Hh : exists r2, JS.cut "|||" rest = (t, r2)).
    { destruct f as [|f]; cbn [JS.split_fuel] in H1;
        destruct (JS.cut "|||" rest) as [a2 [rest2|]];
        simpl in H1; inversion H1; subst; eauto. }
    destruct Hh as (r2 & E2). apply cut_spec in E2.
    destruct r2 as [rest2|].
    + destruct E2 as [_ H]. now apply has_sep_app in H.
    + destruct E2 as [-> H]. exact H.
Qed.

Lemma decode_separable p c :
  separable p ->
  SankeyChart.decode_link (pair_key p, c)
  = {| SankeyChart.source := Some (fst p);
       SankeyChart.target := Some (snd p);
       SankeyChart.value := c |}.
Proof.
  intros Hp. unfold SankeyChart.decode_link. simpl fst. simpl snd.
  now rewrite (split_separable p Hp).
Qed.

(** A key is decoded to its pair exactly when the pair is separable. *)
Lemma decode_separable_iff p c :
  SankeyChart.decode_link (pair_key p, c)
  = {| SankeyChart.source := Some (fst p);
       SankeyChart.target := Some (snd p);
       SankeyChart.value := c |}
  <-> separable p.
Proof.
  split; [|apply decode_separable].
  unfold SankeyChart.decode_link. simpl fst. simpl snd. intros H.
  inversion H as [[H0 H1]]. destruct p as [s t].
  now apply (split_gives_separable (pair_key (s, t))).
Qed.

Lemma pair_key_inj_separable p q :
  separable p -> separable q -> pair_key p = pair_key q -> p = q.
Proof.
  intros Hp Hq H. apply (f_equal (JS.split "|||")) in H.
  rewrite (split_separable p Hp), (split_separable q Hq) in H.
  destruct p, q. simpl in H. now inversion H.
Qed.

Lemma occurrences_separable p l :
  separable p -> (forall q, In q l -> separable q) ->
  occurrences String.eqb (pair_key p) (map pair_key l) = count_pair p l.
Proof.
  intros Hp Hl. unfold occurrences, count_pair.
  induction l as [|q l IH]; simpl; [reflexivity|].
  assert (E : String.eqb (pair_key p) (pair_key q) = pair_eqb p q).
  { destruct (pair_eqb p q) eqn:E.
    - apply pair_eqb_eq in E. subst. apply String.eqb_refl.
    - apply String.eqb_neq. intros H.
      apply (pair_key_inj_separable p q Hp (Hl q (or_introl eq_refl))) in H.
      apply pair_eqb_eq in H. congruence. }
  rewrite E. destruct (pair_eqb p q); simpl; rewrite IH; try reflexivity;
    intros x Hx; apply Hl; now right.
Qed.

Lemma status_separable d :
  separable_label (SankeyChart.movieStatus d)
  /\ has_sep (SankeyChart.bestsellerStatus d) = false.
Proof.
  unfold SankeyChart.movieStatus, SankeyChart.bestsellerStatus.
  destruct (SankeyChart.is_true (DSV.adapted_to_movie d)),
    (SankeyChart.is_true (DSV.bestseller_status d)); repeat split.
Qed.

Lemma separable_label_no_sep s : separable_label s -> has_sep s = false.
Proof. now intros [H _]. Qed.

Lemma transitions_separable rows :
  labels_separable rows <->
  forall p, In p (all_transitions rows) -> separable p.
Proof.
  split.
  - intros H p Hp. unfold all_transitions in Hp. apply in_flat_map in Hp.
    destruct Hp as (d & Hd & Hp). destruct (H d Hd) as [Hg Ha].
    destruct (status_separable d) as [Hm Hb].
    destruct Hp as [<-|[<-|[<-|[]]]]; split; simpl;
      try assumption; now apply separable_label_no_sep.
  - intros H d Hd.
    assert (Hin : forall p, In p (transitions d) ->
                    In p (all_transitions rows)).
    { intros p Hp. unfold all_transitions. apply in_flat_map.
      exists d. now split. }
    split.
    + apply (H (JS.String_ (DSV.genre d), JS.String_ (DSV.age_category d))).
      apply Hin. now left.
    + apply (H (JS.String_ (DSV.age_category d), SankeyChart.movieStatus d)).
      apply Hin. right. now left.
Qed.

(** The links are the decoded entries of the link map, one for every key
    of a transition of a surviving row, with the number of transitions of
    that key. *)
Lemma sankey_links_In rows l :
  In l (snd (SankeyChart.loadData rows)) <->
  exists p, In p (all_transitions rows)
    /\ l = SankeyChart.decode_link
             (pair_key p,
              occurrences String.eqb (pair_key p)
                (map pair_key (all_transitions rows))).
Proof.
  rewrite sankey_links, in_map_iff. split.
  - intros ([k c] & <- & He).
    apply (counted_In String.eqb String.eqb_eq) in He.
    destruct He as (Hk & ->). apply in_map_iff in Hk.
    destruct Hk as (p & <- & Hp). exists p. now split.
  - intros (p & Hp & ->). eexists. split; [reflexivity|].
    apply (counted_In String.eqb String.eqb_eq). split; [|reflexivity].
    now apply in_map.
Qed.

Lemma sankey_links_separable rows :
  labels_separable rows ->
  let links := snd (SankeyChart.loadData rows) in
  let link_of p :=
    {| SankeyChart.source := Some (fst p);
       SankeyChart.target := Some (snd p);
       SankeyChart.value := count_pair p (all_transitions rows) |} in
  (forall p, In p (all_transitions rows) -> links_of p links = [link_of p])
  /\ (forall l, In l links ->
        exists p, In p (all_transitions rows) /\ l = link_of p).
Proof.
  intros Hsep links link_of.
  unfold links, link_of. rewrite sankey_links.
  set (T := all_transitions rows).
  set (lm := counted String.eqb (map pair_key T)).
  pose proof (proj1 (transitions_separable rows) Hsep) as HT. fold T in HT.
  destruct (counted_spec String.eqb String.eqb_eq (map pair_key T))
    as (Hnd & _). fold lm in Hnd.
  assert (Hlm : forall e, In e lm ->
            exists p, In p T /\ e = (pair_key p, count_pair p T)).
  { intros [k c] He.
    apply (counted_In String.eqb String.eqb_eq) in He.
    destruct He as (Hk & ->). apply in_map_iff in Hk.
    destruct Hk as (p & <- & Hp). exists p. split; [assumption|].
    f_equal. apply occurrences_separable; [now apply HT|assumption]. }
  split.
  - intros p Hp.
    assert (Hin : In (pair_key p, count_pair p T) lm).
    { apply (counted_In String.eqb String.eqb_eq). split.
      - now apply in_map.
      - symmetry. apply occurrences_separable; [now apply HT|assumption]. }
    unfold links_of. rewrite filter_map_comm.
    rewrite (filter_ext_in _ (fun e => String.eqb (fst e) (pair_key p))).
    + rewrite (filter_key_unique lm _ _ Hnd Hin). simpl.
      now rewrite (decode_separable p _ (HT p Hp)).
    + intros e He. destruct (Hlm e He) as (q & Hq & ->).
      rewrite (decode_separable q _ (HT q Hq)). simpl.
      destruct (String.eqb (pair_key q) (pair_key p)) eqn:E.
      * apply String.eqb_eq in E.
        apply (pair_key_inj_separable q p (HT q Hq) (HT p Hp)) in E.
        subst q. now rewrite !String.eqb_refl.
      * destruct (String.eqb (fst q) (fst p)) eqn:E1; [|reflexivity].
        destruct (String.eqb (snd q) (snd p)) eqn:E2; [|reflexivity].
        apply String.eqb_eq in E1, E2. apply String.eqb_neq in E.
        exfalso. apply E. destruct p, q. simpl in *. now subst.
  - intros l Hl. apply in_map_iff in Hl. destruct Hl as (e & <- & He).
    destruct (Hlm e He) as (p & Hp & ->). exists p. split; [assumption|].
    apply decode_separable. now apply HT.
Qed.

(** A link between the labels of a pair is there only for a separable
    pair. *)
Lemma sankey_link_separable rows p c :
  In {| SankeyChart.source := Some (fst p);
        SankeyChart.target := Some (snd p);
        SankeyChart.value := c |} (snd (SankeyChart.loadData rows)) ->
  separable p.
Proof.
  intros H. apply sankey_links_In in H. destruct H as (q & _ & H).
  unfold SankeyChart.decode_link in H. simpl fst in H. simpl snd in H.
  inversion H as [[H0 H1 H2]]. destruct p as [s t].
  apply (split_gives_separable (pair_key q)); now symmetry.
Qed.

(** C6, as the code has it.  The flow reducer takes the 10 most frequent
    genres (all genres when there are no more than 10; of genres as
    frequent, those that occur first) and drops the rows of the other
    genres: every node comes from a surviving row, every surviving row has
    its four nodes, and the links are the decoded keys of the transitions
    of the surviving rows, each with the number of transitions of its key.
    Every transition of a surviving row has exactly one link, whose weight
    is the number of times the surviving rows make that transition,
    exactly when no genre or age label of a surviving row has a ["|||"] in
    it or ends with a ["|"]; then there is no other link. *)
Theorem sankey_links_count (rows : list RawRow) :
  let top := SankeyChart.topGenres rows in
  let nodes := fst (SankeyChart.loadData rows) in
  let names := map SankeyChart.name nodes in
  let links := snd (SankeyChart.loadData rows) in
  let link_of p :=
    {| SankeyChart.source := Some (fst p);
       SankeyChart.target := Some (snd p);
       SankeyChart.value := count_pair p (all_transitions rows) |} in
  (NoDup top
   /\ List.length top <= 10
   /\ List.length top
      = Nat.min 10
          (List.length (JS.unique JS.field_eqb (map DSV.genre rows)))
   /\ ((forall r, In r rows -> In (DSV.genre r) top)
       \/ List.length top = 10)
   /\ (forall g, In g top -> exists r, In r rows /\ DSV.genre r = g)
   /\ (forall g r, In g top -> In r rows -> ~ In (DSV.genre r) top ->
         freq (DSV.genre r) rows <= freq g rows)
   /\ (forall g r, In g top -> In r rows -> ~ In (DSV.genre r) top ->
         freq (DSV.genre r) rows = freq g rows ->
         occurs_before g (DSV.genre r) (map DSV.genre rows)))
  /\ (forall d, In d (surviving rows) <-> In d rows /\ In (DSV.genre d) top)
  /\ (forall n, In n nodes ->
        exists d, In d (surviving rows) /\ node_of_row d n)
  /\ (forall d, In d (surviving rows) ->
        In (DSV.genre d) names
        /\ In (DSV.age_category d) names
        /\ In (Some (SankeyChart.movieStatus d)) names
        /\ In (Some (SankeyChart.bestsellerStatus d)) names)
  /\ (forall l, In l links <->
        exists p, In p (all_transitions rows)
          /\ l = SankeyChart.decode_link
                   (pair_key p,
                    occurrences String.eqb (pair_key p)
                      (map pair_key (all_transitions rows))))
  /\ (labels_separable rows <->
      forall p, In p (all_transitions rows) ->
        links_of p links = [link_of p])
  /\ (labels_separable rows ->
      forall l, In l links ->
        exists p, In p (all_transitions rows) /\ l = link_of p).
Proof.
  intros top nodes names links link_of.
  assert (Hties : forall g r, In g top -> In r rows ->
            ~ In (DSV.genre r) top ->
            freq (DSV.genre r) rows = freq g rows ->
            occurs_before g (DSV.genre r) (map DSV.genre rows)).
  { intros g r Hg Hr Hout Hf.
    apply (top_genres_ties 10 rows g (DSV.genre r) Hg Hout); [|exact Hf].
    exists r. now split. }
  pose proof (top_genres_spec 10 rows) as Hspec. cbv zeta in Hspec.
  change (D3.top_keys 10 (genre_counts rows)) with top in Hspec.
  destruct Hspec as (Hnd & Hlen & Hsrc & Hmost).
  pose proof (top_genres_count 10 rows) as Hcount. cbv zeta in Hcount.
  change (D3.top_keys 10 (genre_counts rows)) with top in Hcount.
  destruct Hcount as (Hmin & Hfull).
  split; [repeat split; assumption|].
  split.
  { intros d. unfold surviving, survives. rewrite filter_In.
    fold top. now rewrite includes_In. }
  split.
  { intros n Hn. destruct (sankey_nodes_ok rows) as (nm & Hnodes & _ & Hs & _).
    unfold nodes in Hn. rewrite Hnodes in Hn. apply in_map_iff in Hn.
    destruct Hn as ([k n'] & <- & Hin).
    destruct (Hs k n' Hin) as (_ & d & Hd & Hof).
    exists d. split; [|assumption].
    apply (proj1 (processed_surviving rows d) Hd). }
  split.
  { intros d Hd.
    destruct (sankey_node_names rows) as (nm & _ & Hnames & _ & _ & Hc).
    unfold names, nodes. rewrite Hnames. apply Hc.
    now apply processed_surviving. }
  split; [intros l; apply sankey_links_In|].
  split.
  - split.
    + intros Hsep. apply (sankey_links_separable rows Hsep).
    + intros H. apply transitions_separable. intros p Hp.
      apply (sankey_link_separable rows p
               (count_pair p (all_transitions rows))).
      assert (Hin : In (link_of p) (links_of p links))
        by (rewrite (H p Hp); now left).
      unfold links_of in Hin. apply filter_In in Hin. apply Hin.
  - intros Hsep. apply (sankey_links_separable rows Hsep).
Qed.

Lemma sankey_links_count_witness :
  let rows :=
    [ DSV.Build_DSVRowString (Some "Sci-Fi|Fantasy") (Some "Adult")
        (Some "1994") (Some "TRUE") (Some "false");
      DSV.Build_DSVRowString (Some "Sci-Fi|Fantasy") (Some "Teen")
        (Some "1996") None (Some "") ] in
  labels_separable rows
  /\ links_of ("Sci-Fi|Fantasy", "Adult") (snd (SankeyChart.loadData rows))
     = [ {| SankeyChart.source := Some "Sci-Fi|Fantasy";
            SankeyChart.target := Some "Adult";
            SankeyChart.value := 1 |} ].
Proof.
  intros rows.
  assert (Hsep : labels_separable rows).
  { intros d Hd. vm_compute in Hd.
    destruct Hd as [<-|[<-|[]]]; repeat split. }
  split; [exact Hsep|].
  apply (proj1 (proj1 (proj2 (proj2 (proj2 (proj2 (proj2
           (sankey_links_count rows)))))))
           Hsep ("Sci-Fi|Fantasy", "Adult")).
  vm_compute. now left.
Defined.

(** C6 fails on the code in three ways.  A label with the separator in it
    is cut at the separator, and a label that ends with a bar loses the
    bar to the separator, so their transitions have no link; and a row
    whose genre, age category and movie status are one label adds two to
    the weight of one link. *)
Lemma flow_links_not_as_specified :
  ~ flow_links_as_specified
      [ DSV.Build_DSVRowString (Some "a|||b") (Some "c") (Some "1994")
          (Some "false") (Some "false") ]
  /\ ~ flow_links_as_specified
         [ DSV.Build_DSVRowString (Some "Adapted To Movie")
             (Some "Adapted To Movie") (Some "1994")
             (Some "false") (Some "true") ]
  /\ ~ flow_links_as_specified
         [ DSV.Build_DSVRowString (Some "a|") (Some "b") (Some "1994")
             (Some "false") (Some "false") ].
Proof.
  split; [|split].
  - intros H. destruct (H ("a|||b", "c")) as (l & Hl & _).
    + left. reflexivity.
    + discriminate Hl.
  - intros H.
    destruct (H ("Adapted To Movie", "Adapted To Movie")) as (l & Hl & Hv).
    + left. reflexivity.
    + vm_compute in Hl. inversion Hl; subst l. discriminate Hv.
  - intros H. destruct (H ("a|", "b")) as (l & Hl & _).
    + left. reflexivity.
    + discriminate Hl.
Qed.

(** C10.  For a row the flow reducer processes, the bestseller label is
    ["Bestseller"] when the [bestseller_status] field reads ["true"] in any
    mix of cases and ["Not Bestseller"] otherwise, a missing or empty field
    included; likewise the movie label from [adapted_to_movie].  The row
    is not excluded: both labels are nodes (of layer 3 and 2 unless a genre
    or an age category bears the same name), and the link from the movie
    label to the bestseller label counts the row. *)
Theorem sankey_status_labels (rows : list RawRow) (r : RawRow) :
  In r rows ->
  survives rows r = true ->
  let nodes := fst (SankeyChart.loadData rows) in
  let links := snd (SankeyChart.loadData rows) in
  let bs := SankeyChart.bestsellerStatus r in
  let ms := SankeyChart.movieStatus r in
  bs = (if says_true (DSV.bestseller_status r)
        then "Bestseller" else "Not Bestseller")
  /\ ms = (if says_true (DSV.adapted_to_movie r)
           then "Adapted To Movie" else "Not Adapted To Movie")
  /\ (DSV.bestseller_status r = None \/ DSV.bestseller_status r = Some "" ->
      bs = "Not Bestseller")
  /\ (DSV.adapted_to_movie r = None \/ DSV.adapted_to_movie r = Some "" ->
      ms = "Not Adapted To Movie")
  /\ (exists n, In n nodes /\ SankeyChart.name n = Some bs
        /\ ((forall d, In d (surviving rows) ->
               DSV.genre d <> Some bs /\ DSV.age_category d <> Some bs) ->
            SankeyChart.layer n = 3))
  /\ (exists n, In n nodes /\ SankeyChart.name n = Some ms
        /\ ((forall d, In d (surviving rows) ->
               DSV.genre d <> Some ms /\ DSV.age_category d <> Some ms) ->
            SankeyChart.layer n = 2))
  /\ (exists l, In l links
        /\ SankeyChart.source l = Some ms /\ SankeyChart.target l = Some bs
        /\ 1 <= SankeyChart.value l).
Proof.
  intros Hr Hs nodes links bs ms.
  assert (Hsurv : In r (surviving rows)).
  { unfold surviving. apply filter_In. now split. }
  assert (Hbs : bs = (if says_true (DSV.bestseller_status r)
                      then "Bestseller" else "Not Bestseller")).
  { unfold bs, SankeyChart.bestsellerStatus. now rewrite is_true_says_true. }
  assert (Hms : ms = (if says_true (DSV.adapted_to_movie r)
                      then "Adapted To Movie" else "Not Adapted To Movie")).
  { unfold ms, SankeyChart.movieStatus. now rewrite is_true_says_true. }
  destruct (sankey_nodes_ok rows) as (nm & Hnodes & Hnd & Hsound & Hcompl).
  fold nodes in Hnodes.
  assert (Hnode : forall k, In k (map fst nm) ->
            exists n, In n nodes /\ SankeyChart.name n = k
              /\ exists d, In d (surviving rows) /\ node_of_row d n).
  { intros k Hk. apply in_map_iff in Hk. destruct Hk as ([k' n] & Hk' & Hin).
    simpl in Hk'. subst k'.
    destruct (Hsound k n Hin) as (Hname & d & Hd & Hof).
    exists n. split; [|split; [assumption|]].
    - rewrite Hnodes. change n with (snd (k, n)). now apply in_map.
    - exists d. split; [|assumption].
      apply (proj1 (processed_surviving rows d) Hd). }
  destruct (Hcompl r (proj2 (processed_surviving rows r) Hsurv))
    as (_ & _ & Hkm & Hkb).
  split; [exact Hbs|]. split; [exact Hms|].
  split; [intros [E|E]; rewrite Hbs, E; reflexivity|].
  split; [intros [E|E]; rewrite Hms, E; reflexivity|].
  split; [|split].
  - destruct (Hnode _ Hkb) as (n & Hn & Hname & d & Hd & Hof).
    exists n. split; [assumption|]. split; [assumption|].
    intros Hfresh. destruct (Hfresh d Hd) as [Hg Ha].
    destruct Hof as [[_ E]|[[_ E]|[[_ E]|[E _]]]]; try assumption.
    + rewrite Hname in E. exfalso. apply Hg. now symmetry.
    + rewrite Hname in E. exfalso. apply Ha. now symmetry.
    + rewrite Hname in E. inversion E as [E'].
      exfalso. apply (status_labels_differ d r). now symmetry.
  - destruct (Hnode _ Hkm) as (n & Hn & Hname & d & Hd & Hof).
    exists n. split; [assumption|]. split; [assumption|].
    intros Hfresh. destruct (Hfresh d Hd) as [Hg Ha].
    destruct Hof as [[_ E]|[[_ E]|[[E _]|[_ E]]]]; try assumption.
    + rewrite Hname in E. exfalso. apply Hg. now symmetry.
    + rewrite Hname in E. exfalso. apply Ha. now symmetry.
    + rewrite Hname in E. inversion E as [E'].
      exfalso. now apply (status_labels_differ r d).
  - set (p := (ms, bs)).
    assert (Hp : In p (all_transitions rows)).
    { unfold all_transitions. apply in_flat_map. exists r.
      split; [assumption|]. right. right. now left. }
    assert (Hfree : bar_free p) by apply (status_no_bar r).
    exists (SankeyChart.decode_link
              (pair_key p,
               occurrences String.eqb (pair_key p)
                 (map pair_key (all_transitions rows)))).
    split.
    + unfold links. rewrite sankey_links. apply in_map.
      apply (counted_In String.eqb String.eqb_eq). split; [|reflexivity].
      now apply in_map.
    + rewrite (decode_pair_key p _ Hfree). simpl.
      repeat split. unfold occurrences.
      assert (Hk : In (pair_key p)
                     (filter (String.eqb (pair_key p))
                        (map pair_key (all_transitions rows)))).
      { apply filter_In. split; [now apply in_map|apply String.eqb_refl]. }
      destruct (filter _ _); [destruct Hk|simpl; lia].
Qed.

Lemma sankey_status_labels_witness :
  let r := DSV.Build_DSVRowString (Some "Fiction") (Some "Adult")
             (Some "1994") (Some "TRUE") None in
  let rows :=
    [ r; DSV.Build_DSVRowString (Some "Poetry") (Some "Teen") (Some "1996")
           (Some "yes") (Some "tRuE") ] in
  let nodes := fst (SankeyChart.loadData rows) in
  let links := snd (SankeyChart.loadData rows) in
  let bs := SankeyChart.bestsellerStatus r in
  let ms := SankeyChart.movieStatus r in
  bs = (if says_true (DSV.bestseller_status r)
        then "Bestseller" else "Not Bestseller")
  /\ ms = (if says_true (DSV.adapted_to_movie r)
           then "Adapted To Movie" else "Not Adapted To Movie")
  /\ (DSV.bestseller_status r = None \/ DSV.bestseller_status r = Some "" ->
      bs = "Not Bestseller")
  /\ (DSV.adapted_to_movie r = None \/ DSV.adapted_to_movie r = Some "" ->
      ms = "Not Adapted To Movie")
  /\ (exists n, In n nodes /\ SankeyChart.name n = Some bs
        /\ ((forall d, In d (surviving rows) ->
               DSV.genre d <> Some bs /\ DSV.age_category d <> Some bs) ->
            SankeyChart.layer n = 3))
  /\ (exists n, In n nodes /\ SankeyChart.name n = Some ms
        /\ ((forall d, In d (surviving rows) ->
               DSV.genre d <> Some ms /\ DSV.age_category d <> Some ms) ->
            SankeyChart.layer n = 2))
  /\ (exists l, In l links
        /\ SankeyChart.source l = Some ms /\ SankeyChart.target l = Some bs
        /\ 1 <= SankeyChart.value l).
Proof.
  apply (sankey_status_labels
           [ DSV.Build_DSVRowString (Some "Fiction") (Some "Adult")
               (Some "1994") (Some "TRUE") None;
             DSV.Build_DSVRowString (Some "Poetry") (Some "Teen")
               (Some "1996") (Some "yes") (Some "tRuE") ]).
  - simpl. left. reflexivity.
  - reflexivity.
Defined.

(** ** Drawing *)

Lemma is_zero_falsy x : Tracker.is_zero x = true -> JS.falsy x = true.
Proof. destruct x as [s|s| |s m e]; try reflexivity; destruct s; discriminate. Qed.

Lemma not_falsy_not_zero x : JS.falsy x = false -> Tracker.is_zero x = false.
Proof.
  intros H. destruct (Tracker.is_zero x) eqn:E; [|reflexivity].
  apply is_zero_falsy in E. congruence.
Qed.

(** C7.  When the aggregated data of a chart is empty, or the width or the
    height of its viewport is 0, its draw effect draws nothing: the marks
    of the [svg] stay as they were, and an [svg] without marks stays
    without marks. *)
Theorem draw_effect_suppressed (c : chart) (data : chart_data c)
    (size : Tracker.ComponentSize) (svg : list SVG.mark) :
  data_empty c data
  \/ Tracker.is_zero (Tracker.width size) = true
  \/ Tracker.is_zero (Tracker.height size) = true ->
  draw_effect c data size svg = svg
  /\ draw_effect c data size [] = [].
Proof.
  intros H.
  assert (G : forall s, draw_effect c data size s = s).
  { intros s. destruct c; simpl in *.
    - unfold StackedBarChart.draw_effect.
      destruct data as [|b bars]; [reflexivity|].
      destruct H as [H|[H|H]]; [discriminate H| |]; rewrite H;
        [reflexivity|now rewrite orb_true_r].
    - unfold GenreDecadeHeatmap.draw_effect.
      destruct data as [|d data]; [reflexivity|].
      destruct H as [H|[H|H]]; [discriminate H| |]; rewrite H;
        [reflexivity|now rewrite orb_true_r].
    - unfold SankeyChart.draw_effect. destruct data as [nodes links].
      simpl in *.
      destruct H as [[H|H]|[H|H]].
      + now rewrite H.
      + rewrite H. simpl. now rewrite orb_true_r.
      + destruct (_ || _)%bool; [reflexivity|].
        now rewrite (is_zero_falsy _ H).
      + destruct (_ || _)%bool; [reflexivity|].
        rewrite (is_zero_falsy _ H). now rewrite orb_true_r. }
  split; apply G.
Qed.

Lemma draw_effect_suppressed_witness :
  let data := [ {| GenreDecadeHeatmap.genre := Some "Fiction";
                   GenreDecadeHeatmap.decade := JS.of_Z 1990;
                   GenreDecadeHeatmap.count := 2 |} ] in
  let size := {| Tracker.width := JS.of_Z 0;
                 Tracker.height := JS.of_Z 480 |} in
  draw_effect Heatmap data size [SVG.Background] = [SVG.Background]
  /\ draw_effect Heatmap data size [] = [].
Proof.
  apply (draw_effect_suppressed Heatmap).
  right. left. reflexivity.
Defined.

(** Otherwise the effect clears the [svg] and draws the chart. *)
Lemma draw_effect_draws (c : chart) (data : chart_data c)
    (size : Tracker.ComponentSize) (svg : list SVG.mark) :
  ~ data_empty c data ->
  JS.falsy (Tracker.width size) = false ->
  JS.falsy (Tracker.height size) = false ->
  draw_effect c data size svg = drawChart c data size.
Proof.
  intros Hd Hw Hh.
  pose proof (not_falsy_not_zero _ Hw) as Zw.
  pose proof (not_falsy_not_zero _ Hh) as Zh.
  destruct c; simpl in *.
  - destruct data as [|b bars]; [now elim Hd|].
    unfold StackedBarChart.draw_effect. now rewrite Zw, Zh.
  - destruct data as [|d data]; [now elim Hd|].
    unfold GenreDecadeHeatmap.draw_effect. now rewrite Zw, Zh.
  - destruct data as [[|n nodes] [|l links]]; simpl in *;
      try (exfalso; apply Hd; tauto).
    unfold SankeyChart.draw_effect.
    cbn [List.length Nat.eqb orb]. now rewrite Hw, Hh.
Qed.

(** ** Resize notifications *)

Lemma last_default {A : Type} (l : list A) : forall x d d',
  last (x :: l) d = last (x :: l) d'.
Proof.
  induction l as [|y l IH]; intros x d d'; [reflexivity|].
  change (last (y :: l) d = last (y :: l) d'). apply IH.
Qed.

Lemma run_within wait ns : forall t a,
  within wait t ns ->
  Tracker.run wait ns (Some (t, a))
  = [(fst (last ns (t, a)) + wait, snd (last ns (t, a)))].
Proof.
  induction ns as [|[t' a'] ns IH]; intros t a H.
  - reflexivity.
  - destruct H as [[H1 H2] H]. simpl in H1, H2, H.
    cbn [Tracker.run Tracker.call Tracker.expire fst snd].
    replace (t + wait <=? t')%nat with false
      by (symmetry; apply Nat.leb_gt; lia).
    cbn [fst app]. etransitivity; [apply (IH t' a' H)|].
    destruct ns as [|n ns]; [reflexivity|].
    now rewrite (last_default ns n (t', a') (t, a)).
Qed.

Lemma run_burst wait ns :
  burst wait ns ->
  exists n, latest ns = Some n
            /\ Tracker.run wait ns None = [(fst n + wait, snd n)].
Proof.
  destruct ns as [|[t a] ns]; intros H; [destruct H|].
  exists (last ns (t, a)). split; [reflexivity|].
  simpl in H. cbn [Tracker.run Tracker.call Tracker.expire fst snd app].
  now apply run_within.
Qed.

(** C2 fails on the code: the Sankey chart has no debounce, and publishes
    both measurements of a burst of two. *)
Lemma sankey_resize_not_debounced :
  let s1 := {| Tracker.width := JS.of_Z 800; Tracker.height := JS.of_Z 600 |} in
  let s2 := {| Tracker.width := JS.of_Z 640; Tracker.height := JS.of_Z 480 |} in
  burst 200 [(0, s1); (50, s2)]
  /\ size_updates Sankey [(0, s1); (50, s2)] = [(0, s1); (50, s2)]
  /\ ~ coalesces Sankey [(0, s1); (50, s2)].
Proof.
  split; [|split].
  - simpl. lia.
  - reflexivity.
  - intros (t & n & _ & H). discriminate H.
Qed.

(** C2, as the code has it.  The stacked bar chart and the heatmap pass
    their resize notifications through a debounce of 200 ms: for a burst
    they publish one update, 200 ms after the last notification and with
    its measurement; the earlier measurements are dropped.  The Sankey
    chart has no debounce: it publishes every measurement as it comes. *)
Theorem resize_updates (c : chart) (ns : list Tracker.stamped) :
  burst 200 ns ->
  match c with
  | Sankey => size_updates c ns = ns
  | _ => exists n, latest ns = Some n
                   /\ size_updates c ns = [(fst n + 200, snd n)]
  end.
Proof.
  intros H. destruct c; simpl; try reflexivity; now apply run_burst.
Qed.

Lemma resize_updates_witness :
  let s1 := {| Tracker.width := JS.of_Z 800; Tracker.height := JS.of_Z 600 |} in
  let s2 := {| Tracker.width := JS.of_Z 640; Tracker.height := JS.of_Z 480 |} in
  exists n, latest [(0, s1); (50, s2)] = Some n
            /\ size_updates StackedBar [(0, s1); (50, s2)]
               = [(fst n + 200, snd n)].
Proof.
  apply (resize_updates StackedBar
           [ (0, {| Tracker.width := JS.of_Z 800;
                    Tracker.height := JS.of_Z 600 |});
             (50, {| Tracker.width := JS.of_Z 640;
                     Tracker.height := JS.of_Z 480 |}) ]).
  simpl. lia.
Defined.

(* ================================================================== *)
(** * Part III.  Further properties of the code                        *)
(* ================================================================== *)

(** ** The cells of a two-level rollup *)

Lemma NoDup_map_pair_left {K1 K2 : Type} (k : K1) (l : list K2) :
  NoDup l -> NoDup (map (fun x => (k, x)) l).
Proof.
  induction 1 as [|x l Hx Hl IH]; simpl; constructor; [|assumption].
  intros H. apply in_map_iff in H. destruct H as (y & E & Hy).
  inversion E; subst. contradiction.
Qed.

Lemma NoDup_flat_map_pairs {K1 K2 V : Type} (m : list (K1 * list (K2 * V))) :
  NoDup (map fst m) ->
  (forall e, In e m -> NoDup (map fst (snd e))) ->
  NoDup (flat_map (fun e => map (fun e2 => (fst e, fst e2)) (snd e)) m).
Proof.
  induction m as [|[k l] m IH]; intros Hnd Hin; simpl; [constructor|].
  inversion Hnd as [|? ? Hk Hnd']; subst.
  apply NoDup_app.
  - rewrite <- (map_map fst (fun x => (k, x))).
    apply NoDup_map_pair_left. apply (Hin (k, l)). now left.
  - apply IH; [assumption|]. intros e He. apply Hin. now right.
  - intros [a b] H1 H2. apply in_map_iff in H1.
    destruct H1 as (e2 & E & _). inversion E; subst a b.
    apply in_flat_map in H2. destruct H2 as ([k' l'] & He & H2).
    apply in_map_iff in H2. destruct H2 as (e3 & E3 & _).
    simpl in E3. inversion E3; subst k'.
    apply Hk. change k with (fst (k, l')). now apply in_map.
Qed.

Section Rollup2Facts.
Context {A K1 K2 : Type}.
Context (keq1 : K1 -> K1 -> bool) (key1 : A -> K1).
Context (keq2 : K2 -> K2 -> bool) (key2 : A -> K2).
Hypothesis keq1_spec :
  forall a b, keq1 (key1 a) (key1 b) = true <-> key1 a = key1 b.
Hypothesis keq2_spec :
  forall a b, keq2 (key2 a) (key2 b) = true <-> key2 a = key2 b.

(** A cell is the pair of keys of a row with the number of rows that
    have both keys. *)
Lemma rollup_cells_In data k1 k2 c :
  In (k1, k2, c) (rollup_cells keq1 keq2 key1 key2 data)
  <-> exists a, In a data /\ k1 = key1 a /\ k2 = key2 a
        /\ c = List.length (same_keys keq1 keq2 key1 key2 a data).
Proof.
  unfold rollup_cells, D3.rollup2, D3.rollup, same_keys.
  destruct (group_ok keq1 key1 keq1_spec data) as (_ & Hs1 & Hc1).
  split.
  - intros H. apply in_flat_map in H. destruct H as ([g m] & Hg & H).
    simpl in H. apply in_map_iff in H. destruct H as ([k c'] & E & Hk).
    simpl in E. inversion E; subst g k c'. clear E.
    apply in_map_iff in Hg. destruct Hg as ([g vs] & E & Hg).
    simpl in E. inversion E; subst g m. clear E.
    destruct (Hs1 _ _ Hg) as (a & Ha & Hk1 & Hvs).
    apply in_map_iff in Hk. destruct Hk as ([k vs2] & E & Hk).
    simpl in E. inversion E; subst k c. clear E.
    destruct (group_ok keq2 key2 keq2_spec vs) as (_ & Hs2 & _).
    destruct (Hs2 _ _ Hk) as (b & Hb & Hk2 & Hvs2).
    assert (Hb' : In b data /\ keq1 k1 (key1 b) = true).
    { rewrite Hvs in Hb. apply filter_In in Hb. exact Hb. }
    destruct Hb' as [Hb1 Hb2].
    assert (Ekb : key1 b = k1).
    { rewrite Hk1 in Hb2 |- *. symmetry. now apply keq1_spec. }
    exists b. repeat split; try assumption; try (now symmetry).
    rewrite Hvs2, Hvs, Ekb, Hk2. reflexivity.
  - intros (a & Ha & -> & -> & ->).
    specialize (Hc1 a Ha). set (vs := filter _ data) in *.
    assert (Hav : In a vs).
    { apply filter_In. split; [assumption|]. now apply keq1_spec. }
    destruct (group_ok keq2 key2 keq2_spec vs) as (_ & _ & Hc2).
    specialize (Hc2 a Hav).
    apply in_flat_map. eexists. split.
    { apply in_map_iff. eexists. split; [reflexivity|exact Hc1]. }
    simpl. apply in_map_iff. eexists. split.
    2:{ apply in_map_iff. eexists. split; [reflexivity|exact Hc2]. }
    reflexivity.
Qed.

(** No two cells have the same pair of keys. *)
Lemma rollup_cells_NoDup data :
  NoDup (map fst (rollup_cells keq1 keq2 key1 key2 data)).
Proof.
  unfold rollup_cells.
  set (m := D3.rollup2 keq1 keq2 (@List.length A) key1 key2 data).
  assert (E : map fst
                (flat_map (fun e => map (fun e2 => (fst e, fst e2, snd e2))
                                         (snd e)) m)
              = flat_map (fun e => map (fun e2 => (fst e, fst e2)) (snd e)) m).
  { induction m as [|e m IH]; simpl; [reflexivity|].
    rewrite map_app, IH, map_map. reflexivity. }
  rewrite E. apply NoDup_flat_map_pairs.
  - unfold m, D3.rollup2. rewrite map_map. simpl.
    apply (group_ok keq1 key1 keq1_spec data).
  - intros e He. unfold m, D3.rollup2 in He. apply in_map_iff in He.
    destruct He as ([g vs] & <- & _). simpl.
    unfold D3.rollup. rewrite map_map. simpl.
    apply (group_ok keq2 key2 keq2_spec vs).
Qed.

Lemma same_keys_self data a :
  In a data -> In a (same_keys keq1 keq2 key1 key2 a data).
Proof.
  intros Ha. unfold same_keys.
  apply filter_In. split; [|now apply keq2_spec].
  apply filter_In. split; [assumption|now apply keq1_spec].
Qed.
End Rollup2Facts.

Lemma map_flat_map_comm {A B C : Type} (f : B -> C) (g : A -> list B) l :
  map f (flat_map g l) = flat_map (fun x => map f (g x)) l.
Proof.
  induction l as [|x l IH]; simpl; [reflexivity|].
  now rewrite map_app, IH.
Qed.

Lemma NoDup_map_inj_in {A B : Type} (f : A -> B) (l : list A) :
  (forall x y, In x l -> In y l -> f x = f y -> x = y) ->
  NoDup l -> NoDup (map f l).
Proof.
  intros Hinj Hnd. induction Hnd as [|x l Hx Hl IH]; simpl; constructor.
  - intros H. apply in_map_iff in H. destruct H as (y & E & Hy).
    assert (y = x) by (apply Hinj; [now right|now left|assumption]).
    subst y. contradiction.
  - apply IH. intros a b Ha Hb. apply Hinj; now right.
Qed.

Lemma NoDup_of_map {A B : Type} (f : A -> B) (l : list A) :
  NoDup (map f l) -> NoDup l.
Proof.
  induction l as [|x l IH]; simpl; intros H; constructor;
    inversion H as [|? ? Hx Hl]; subst.
  - intros Hin. apply Hx. now apply in_map.
  - now apply IH.
Qed.

Lemma Permutation_filter_compat {A : Type} (f : A -> bool) (l l' : list A) :
  Permutation l l' -> Permutation (filter f l) (filter f l').
Proof.
  induction 1 as [|x l l' H IH|x y l|l l' l'' H1 IH1 H2 IH2]; simpl.
  - constructor.
  - destruct (f x); [now constructor|assumption].
  - destruct (f x), (f y); try reflexivity. apply perm_swap.
  - now transitivity (filter f l').
Qed.

(** ** The bars are the groups of rows *)

Lemma bar_loadData_cells rows :
  StackedBarChart.loadData rows = map bar_of_cell (bar_cells rows).
Proof.
  unfold StackedBarChart.loadData, bar_cells, rollup_cells.
  rewrite map_flat_map_comm. apply flat_map_ext. intros [g m].
  rewrite map_map. reflexivity.
Qed.

Lemma bar_cells_In rows g a c :
  In (g, a, c) (bar_cells rows)
  <-> exists r, In r rows /\ g = DSV.genre r /\ a = DSV.age_category r
        /\ c = List.length (same_genre_age r rows).
Proof.
  apply (rollup_cells_In JS.field_eqb DSV.genre JS.field_eqb DSV.age_category
           (fun a b => field_eqb_spec _ _) (fun a b => field_eqb_spec _ _)).
Qed.

Lemma bar_cells_NoDup rows : NoDup (map fst (bar_cells rows)).
Proof.
  apply (rollup_cells_NoDup JS.field_eqb DSV.genre JS.field_eqb
           DSV.age_category
           (fun a b => field_eqb_spec _ _) (fun a b => field_eqb_spec _ _)).
Qed.

Lemma same_genre_age_length rows r :
  List.length (same_genre_age r rows) <= List.length rows.
Proof.
  unfold same_genre_age.
  etransitivity; [apply filter_length_le|apply filter_length_le].
Qed.

Lemma bar_bars_are_rows rows b :
  In b (StackedBarChart.loadData rows) <->
  exists r, In r rows
    /\ b = {| StackedBarChart.category := JS.nullish (DSV.genre r) "Unknown";
              StackedBarChart.stack :=
                JS.nullish (DSV.age_category r) "Unknown";
              StackedBarChart.value :=
                List.length (same_genre_age r rows) |}.
Proof.
  rewrite bar_loadData_cells, in_map_iff. split.
  - intros ([[g a] c] & <- & Hc). apply bar_cells_In in Hc.
    destruct Hc as (r & Hr & -> & -> & ->). exists r. now split.
  - intros (r & Hr & ->). exists (DSV.genre r, DSV.age_category r,
                                  List.length (same_genre_age r rows)).
    split; [reflexivity|]. apply bar_cells_In. exists r. now repeat split.
Qed.

(** X1.  The bars are exactly the groups of the rows: a bar is emitted for
    every row, labelled with the genre and the age category of the row
    (["Unknown"] for a missing one), and its value is the number of rows
    with that genre and age category.  No bar has the value 0, and there
    are no bars exactly when there are no rows. *)
Theorem bar_bars_are_row_groups (rows : list RawRow) :
  (forall b, In b (StackedBarChart.loadData rows) <->
     exists r, In r rows
       /\ b = {| StackedBarChart.category :=
                   JS.nullish (DSV.genre r) "Unknown";
                 StackedBarChart.stack :=
                   JS.nullish (DSV.age_category r) "Unknown";
                 StackedBarChart.value :=
                   List.length (same_genre_age r rows) |})
  /\ (forall b, In b (StackedBarChart.loadData rows) ->
        1 <= StackedBarChart.value b <= List.length rows)
  /\ (StackedBarChart.loadData rows = [] <-> rows = []).
Proof.
  pose proof (bar_bars_are_rows rows) as Hchar.
  split; [exact Hchar|split].
  - intros b Hb. apply Hchar in Hb. destruct Hb as (r & Hr & ->). simpl.
    split; [|apply same_genre_age_length].
    pose proof (same_genre_age_self rows r Hr) as H.
    destruct (same_genre_age r rows); [destruct H|simpl; lia].
  - split.
    + intros E. destruct rows as [|r rows]; [reflexivity|].
      assert (H : In {| StackedBarChart.category :=
                          JS.nullish (DSV.genre r) "Unknown";
                        StackedBarChart.stack :=
                          JS.nullish (DSV.age_category r) "Unknown";
                        StackedBarChart.value :=
                          List.length (same_genre_age r (r :: rows)) |}
                   (StackedBarChart.loadData (r :: rows))).
      { apply Hchar. exists r. split; [now left|reflexivity]. }
      rewrite E in H. destruct H.
    + intros ->. reflexivity.
Qed.

(** X2.  The bars do not depend on the order of the rows: reordering the
    rows reorders the bars and nothing else. *)
Theorem bar_bars_of_permuted_rows (rows rows' : list RawRow) :
  Permutation rows rows' ->
  Permutation (StackedBarChart.loadData rows)
              (StackedBarChart.loadData rows').
Proof.
  intros Hp. rewrite !bar_loadData_cells. apply Permutation_map.
  apply NoDup_Permutation.
  - apply (NoDup_of_map fst), bar_cells_NoDup.
  - apply (NoDup_of_map fst), bar_cells_NoDup.
  - assert (Hfilter : forall r, List.length (same_genre_age r rows)
                                = List.length (same_genre_age r rows')).
    { intros r. unfold same_genre_age. apply Permutation_length.
      now repeat apply Permutation_filter_compat. }
    intros [[g a] c]. rewrite !bar_cells_In. split.
    + intros (r & Hr & -> & -> & ->). exists r.
      repeat split; [now apply (Permutation_in _ Hp)|apply Hfilter].
    + intros (r & Hr & -> & -> & ->). exists r.
      repeat split; [now apply (Permutation_in _ (Permutation_sym Hp))|].
      symmetry. apply Hfilter.
Qed.

Lemma bar_bars_of_permuted_rows_witness :
  let r1 := DSV.Build_DSVRowString (Some "Fiction") (Some "Adult")
              (Some "1994") (Some "false") (Some "false") in
  let r2 := DSV.Build_DSVRowString (Some "Poetry") None
              (Some "1996") (Some "true") (Some "false") in
  Permutation (StackedBarChart.loadData [r1; r2])
              (StackedBarChart.loadData [r2; r1]).
Proof.
  apply (bar_bars_of_permuted_rows
           [ DSV.Build_DSVRowString (Some "Fiction") (Some "Adult")
               (Some "1994") (Some "false") (Some "false");
             DSV.Build_DSVRowString (Some "Poetry") None
               (Some "1996") (Some "true") (Some "false") ]).
  apply perm_swap.
Defined.

Lemma filter_filter_andb {A : Type} (f g : A -> bool) l :
  filter f (filter g l) = filter (fun x => g x && f x) l.
Proof.
  induction l as [|x l IH]; simpl; [reflexivity|].
  destruct (g x); simpl; [|assumption].
  destruct (f x); now rewrite IH.
Qed.

(** X3.  When no row misses its genre or its age category, no two bars have
    the same category and stack, and the value of a bar is the number of
    rows with its labels. *)
Theorem bar_one_bar_per_label_pair (rows : list RawRow) :
  (forall r, In r rows ->
     DSV.genre r <> None /\ DSV.age_category r <> None) ->
  NoDup (map (fun b => (StackedBarChart.category b, StackedBarChart.stack b))
             (StackedBarChart.loadData rows))
  /\ (forall b, In b (StackedBarChart.loadData rows) ->
        StackedBarChart.value b = List.length (rows_labelled b rows)).
Proof.
  intros Hdef. split.
  - assert (E : map (fun b => (StackedBarChart.category b,
                               StackedBarChart.stack b))
                    (StackedBarChart.loadData rows)
                = map (fun k => (JS.nullish (fst k) "Unknown",
                                 JS.nullish (snd k) "Unknown"))
                    (map fst (bar_cells rows))).
    { rewrite bar_loadData_cells, !map_map. apply map_ext.
      intros [[g a] c]. reflexivity. }
    rewrite E. clear E. apply NoDup_map_inj_in; [|apply bar_cells_NoDup].
    intros [g a] [g' a'] H H' E.
    apply in_map_iff in H, H'.
    destruct H as ([[g0 a0] c] & E0 & Hc).
    destruct H' as ([[g1 a1] c'] & E1 & Hc').
    simpl in E0, E1. inversion E0; subst g0 a0. inversion E1; subst g1 a1.
    apply bar_cells_In in Hc, Hc'.
    destruct Hc as (r & Hr & -> & -> & _).
    destruct Hc' as (r' & Hr' & -> & -> & _).
    destruct (Hdef r Hr) as [Hg Ha]. destruct (Hdef r' Hr') as [Hg' Ha'].
    simpl in E.
    destruct (DSV.genre r), (DSV.genre r'), (DSV.age_category r),
      (DSV.age_category r'); try congruence.
    simpl in E. congruence.
  - intros b Hb.
    destruct (bar_bars_are_rows rows b) as [H _].
    destruct (H Hb) as (r & Hr & ->). simpl.
    unfold same_genre_age, rows_labelled. simpl.
    rewrite filter_filter_andb. f_equal. apply filter_ext_in.
    intros x Hx. destruct (Hdef r Hr) as [Hg Ha].
    destruct (Hdef x Hx) as [Hg' Ha'].
    destruct (DSV.genre r), (DSV.genre x), (DSV.age_category r),
      (DSV.age_category x); try congruence.
    simpl. now rewrite (String.eqb_sym s0 s), (String.eqb_sym s2 s1).
Qed.

Lemma bar_one_bar_per_label_pair_witness :
  let rows :=
    [ DSV.Build_DSVRowString (Some "Fiction") (Some "Adult") (Some "1994")
        (Some "false") (Some "false");
      DSV.Build_DSVRowString (Some "Fiction") (Some "Teen") (Some "1996")
        (Some "true") (Some "false") ] in
  NoDup (map (fun b => (StackedBarChart.category b, StackedBarChart.stack b))
             (StackedBarChart.loadData rows))
  /\ (forall b, In b (StackedBarChart.loadData rows) ->
        StackedBarChart.value b = List.length (rows_labelled b rows)).
Proof.
  apply (bar_one_bar_per_label_pair
           [ DSV.Build_DSVRowString (Some "Fiction") (Some "Adult")
               (Some "1994") (Some "false") (Some "false");
             DSV.Build_DSVRowString (Some "Fiction") (Some "Teen")
               (Some "1996") (Some "true") (Some "false") ]).
  intros r Hr. simpl in Hr.
  destruct Hr as [<-|[<-|[]]]; split; discriminate.
Defined.

(** Without that, a missing genre and the genre ["Unknown"] give two bars
    with the same labels. *)
Lemma bar_two_bars_one_label_pair :
  StackedBarChart.loadData
    [ DSV.Build_DSVRowString None (Some "Adult") (Some "1994")
        (Some "false") (Some "false");
      DSV.Build_DSVRowString (Some "Unknown") (Some "Adult") (Some "1996")
        (Some "false") (Some "false") ]
  = [ {| StackedBarChart.category := "Unknown";
         StackedBarChart.stack := "Adult";
         StackedBarChart.value := 1 |};
      {| StackedBarChart.category := "Unknown";
         StackedBarChart.stack := "Adult";
         StackedBarChart.value := 1 |} ].
Proof. reflexivity. Qed.

(** ** The cells of the heatmap *)

Lemma heat_loadData_cells rows :
  GenreDecadeHeatmap.loadData rows = map heat_of_cell (heat_cells rows).
Proof.
  unfold GenreDecadeHeatmap.loadData, GenreDecadeHeatmap.grouped,
    heat_cells, rollup_cells.
  rewrite map_flat_map_comm. apply flat_map_ext. intros [g m].
  rewrite map_map. reflexivity.
Qed.

Lemma heat_cells_In rows g k c :
  In (g, k, c) (heat_cells rows)
  <-> exists r, In r rows
        /\ g = GenreDecadeHeatmap.genre_key
                 (GenreDecadeHeatmap.topGenres rows) r
        /\ k = JS.map_key (GenreDecadeHeatmap.decade_key r)
        /\ c = List.length (same_cell rows r).
Proof.
  apply (rollup_cells_In JS.field_eqb
           (GenreDecadeHeatmap.genre_key (GenreDecadeHeatmap.topGenres rows))
           JS.same_value_zero
           (fun d => JS.map_key (GenreDecadeHeatmap.decade_key d))
           (fun a b => field_eqb_spec _ _)
           (fun a b => same_value_zero_map_key _ _)).
Qed.

Lemma heat_cells_NoDup rows : NoDup (map fst (heat_cells rows)).
Proof.
  apply (rollup_cells_NoDup JS.field_eqb
           (GenreDecadeHeatmap.genre_key (GenreDecadeHeatmap.topGenres rows))
           JS.same_value_zero
           (fun d => JS.map_key (GenreDecadeHeatmap.decade_key d))
           (fun a b => field_eqb_spec _ _)
           (fun a b => same_value_zero_map_key _ _)).
Qed.

Lemma heat_data_are_rows rows d :
  In d (GenreDecadeHeatmap.loadData rows) <->
  exists r, In r rows
    /\ d = {| GenreDecadeHeatmap.genre :=
                GenreDecadeHeatmap.genre_key
                  (GenreDecadeHeatmap.topGenres rows) r;
              GenreDecadeHeatmap.decade :=
                JS.map_key (GenreDecadeHeatmap.decade_key r);
              GenreDecadeHeatmap.count := List.length (same_cell rows r) |}.
Proof.
  rewrite heat_loadData_cells, in_map_iff. split.
  - intros ([[g k] c] & <- & Hc). apply heat_cells_In in Hc.
    destruct Hc as (r & Hr & -> & -> & ->). exists r. now split.
  - intros (r & Hr & ->).
    exists (GenreDecadeHeatmap.genre_key (GenreDecadeHeatmap.topGenres rows) r,
            JS.map_key (GenreDecadeHeatmap.decade_key r),
            List.length (same_cell rows r)).
    split; [reflexivity|]. apply heat_cells_In. exists r. now repeat split.
Qed.

(** X4.  The heatmap data are exactly the cells of the rows: a datum for
    every row, with the genre label and the decade of the row and the
    number of rows that share both.  No two data have the same genre and
    decade, no count is 0, a decade is never -0, and there are no data
    exactly when there are no rows. *)
Theorem heatmap_data_are_row_cells (rows : list RawRow) :
  let top := GenreDecadeHeatmap.topGenres rows in
  let data := GenreDecadeHeatmap.loadData rows in
  (forall d, In d data <->
     exists r, In r rows
       /\ d = {| GenreDecadeHeatmap.genre :=
                   GenreDecadeHeatmap.genre_key top r;
                 GenreDecadeHeatmap.decade :=
                   JS.map_key (GenreDecadeHeatmap.decade_key r);
                 GenreDecadeHeatmap.count :=
                   List.length (same_cell rows r) |})
  /\ NoDup (map (fun d => (GenreDecadeHeatmap.genre d,
                           GenreDecadeHeatmap.decade d)) data)
  /\ (forall d, In d data ->
        1 <= GenreDecadeHeatmap.count d <= List.length rows
        /\ GenreDecadeHeatmap.decade d <> S754_zero true)
  /\ (data = [] <-> rows = []).
Proof.
  intros top data.
  pose proof (heat_data_are_rows rows) as Hchar. fold top data in Hchar.
  split; [exact Hchar|split; [|split]].
  - unfold data. rewrite heat_loadData_cells, map_map.
    replace (map _ (heat_cells rows)) with (map fst (heat_cells rows))
      by (apply map_ext; now intros [[g k] c]).
    apply heat_cells_NoDup.
  - intros d Hd. apply Hchar in Hd. destruct Hd as (r & Hr & ->). simpl.
    repeat split.
    + now apply same_cell_count.
    + unfold same_cell.
      etransitivity; [apply filter_length_le|apply filter_length_le].
    + now destruct (GenreDecadeHeatmap.decade_key r).
  - split.
    + intros E. destruct rows as [|r rows]; [reflexivity|].
      pose proof (heat_row_datum (r :: rows) r (or_introl eq_refl)) as H.
      fold data in H. rewrite E in H. destruct H.
    + intros ->. reflexivity.
Qed.

(** ** Years that are blank or negative *)

Lemma trim_start_blank l : forallb JS.is_ws l = true -> JS.trim_start l = [].
Proof.
  induction l as [|c l IH]; simpl; [reflexivity|].
  intros H. apply andb_prop in H. destruct H as [Hc Hl].
  rewrite Hc. now apply IH.
Qed.

Lemma trim_blank l : forallb JS.is_ws l = true -> JS.trim l = [].
Proof.
  intros H. unfold JS.trim. now rewrite (trim_start_blank l H).
Qed.

(** X5.  A row whose publication year is empty or blank is numeric for the
    coercion: its decade is 0, and it is counted in the cell of decade 0
    under its genre label. *)
Theorem heatmap_blank_year_is_decade_0 (rows : list RawRow) (r : RawRow)
    (s : string) :
  In r rows ->
  DSV.publicationYear r = Some s ->
  blank s = true ->
  numeric_year r = true
  /\ GenreDecadeHeatmap.decade_key r = JS.of_Z 0
  /\ In {| GenreDecadeHeatmap.genre :=
             GenreDecadeHeatmap.genre_key
               (GenreDecadeHeatmap.topGenres rows) r;
           GenreDecadeHeatmap.decade := JS.of_Z 0;
           GenreDecadeHeatmap.count := List.length (same_cell rows r) |}
        (GenreDecadeHeatmap.loadData rows).
Proof.
  intros Hr Hy Hb.
  assert (Hn : JS.to_number (DSV.publicationYear r) = JS.of_Z 0).
  { rewrite Hy. unfold JS.to_number. now rewrite (trim_blank _ Hb). }
  assert (Hd : GenreDecadeHeatmap.decade_key r = JS.of_Z 0).
  { rewrite decade_key_number, Hn. reflexivity. }
  split; [|split; [exact Hd|]].
  - unfold numeric_year. now rewrite Hn.
  - pose proof (heat_row_datum rows r Hr) as H. now rewrite Hd in H.
Qed.

Lemma heatmap_blank_year_is_decade_0_witness :
  let r := DSV.Build_DSVRowString (Some "Fiction") (Some "Adult")
             (Some "") (Some "false") (Some "false") in
  numeric_year r = true
  /\ GenreDecadeHeatmap.decade_key r = JS.of_Z 0
  /\ In {| GenreDecadeHeatmap.genre :=
             GenreDecadeHeatmap.genre_key
               (GenreDecadeHeatmap.topGenres [r]) r;
           GenreDecadeHeatmap.decade := JS.of_Z 0;
           GenreDecadeHeatmap.count := List.length (same_cell [r] r) |}
        (GenreDecadeHeatmap.loadData [r]).
Proof.
  apply (heatmap_blank_year_is_decade_0
           [ DSV.Build_DSVRowString (Some "Fiction") (Some "Adult")
               (Some "") (Some "false") (Some "false") ] _ "").
  - simpl. left. reflexivity.
  - reflexivity.
  - reflexivity.
Defined.

Lemma decade_of_negative_year n :
  (0 < n < 10000)%Z ->
  JS.map_key (decade_of_number (JS.decimal_value true n 0))
  = JS.of_Z (10 * (- n / 10)).
Proof.
  intros Hn. apply number_eqb_eq.
  apply (all_from_spec decade_exact_neg (Z.to_nat 9999) 1%Z).
  - vm_compute. reflexivity.
  - rewrite Z2Nat.id; lia.
Qed.

Lemma parse_unsigned_numeral_signed (sg : bool) l v :
  l <> [] -> numeral 0 l = Some v ->
  JS.parse_unsigned_decimal sg l = JS.decimal_value sg v 0.
Proof.
  intros Hne H. unfold JS.parse_unsigned_decimal.
  destruct (list_eq_dec ascii_dec l (list_ascii_of_string "Infinity"))
    as [->|_]; [discriminate H|].
  rewrite (read_digits_numeral l 0%Z 0 v H). simpl.
  destruct l as [|c l]; [congruence|]. simpl. reflexivity.
Qed.

Lemma to_number_negative_year s n :
  negative_year_literal s = Some n ->
  JS.to_number (Some s) = JS.decimal_value true n 0.
Proof.
  unfold negative_year_literal, JS.to_number. intros H.
  destruct (list_ascii_of_string s) as [|c0 l0] eqn:E; [discriminate|].
  destruct (Ascii.eqb_spec c0 "-") as [->|Hne].
  2:{ destruct c0 as [[] [] [] [] [] [] [] []]; try discriminate H.
      now elim Hne. }
  destruct l0 as [|c l]; [discriminate|].
  rewrite trim_id.
  - cbn [JS.parse_number].
    apply parse_unsigned_numeral_signed; [discriminate|assumption].
  - intros x [<-|Hx]; [reflexivity|].
    apply (numeral_last_digit _ _ _ H x Hx).
Qed.

(** X6.  The decade of a negative year rounds down, not towards 0: for a
    year written as ["-"] and a decimal numeral [n] between 1 and 9999 the
    decade is [10 * (- n / 10)] (the year -5 is of decade -10), and the row
    is counted in the cell of that decade. *)
Theorem heatmap_decade_of_negative_year (rows : list RawRow) (r : RawRow)
    (s : string) (n : Z) :
  In r rows ->
  DSV.publicationYear r = Some s ->
  negative_year_literal s = Some n ->
  (0 < n < 10000)%Z ->
  (10 * (- n / 10) <= - n < 10 * (- n / 10) + 10)%Z
  /\ In {| GenreDecadeHeatmap.genre :=
             GenreDecadeHeatmap.genre_key
               (GenreDecadeHeatmap.topGenres rows) r;
           GenreDecadeHeatmap.decade := JS.of_Z (10 * (- n / 10));
           GenreDecadeHeatmap.count := List.length (same_cell rows r) |}
        (GenreDecadeHeatmap.loadData rows).
Proof.
  intros Hr Hy Hs Hn. split.
  - pose proof (Z.div_mod (- n) 10 ltac:(lia)) as E.
    pose proof (Z.mod_pos_bound (- n) 10 ltac:(lia)) as B. lia.
  - pose proof (heat_row_datum rows r Hr) as H.
    rewrite decade_key_number, Hy, (to_number_negative_year s n Hs) in H.
    now rewrite (decade_of_negative_year n Hn) in H.
Qed.

Lemma heatmap_decade_of_negative_year_witness :
  let r := DSV.Build_DSVRowString (Some "Epic") (Some "Adult")
             (Some "-5") (Some "false") (Some "false") in
  (10 * (- 5 / 10) <= - 5 < 10 * (- 5 / 10) + 10)%Z
  /\ In {| GenreDecadeHeatmap.genre :=
             GenreDecadeHeatmap.genre_key
               (GenreDecadeHeatmap.topGenres [r]) r;
           GenreDecadeHeatmap.decade := JS.of_Z (10 * (- 5 / 10));
           GenreDecadeHeatmap.count := List.length (same_cell [r] r) |}
        (GenreDecadeHeatmap.loadData [r]).
Proof.
  apply (heatmap_decade_of_negative_year
           [ DSV.Build_DSVRowString (Some "Epic") (Some "Adult")
               (Some "-5") (Some "false") (Some "false") ] _ "-5" 5%Z).
  - simpl. left. reflexivity.
  - reflexivity.
  - reflexivity.
  - lia.
Defined.

(** ** The heatmap chart: axes, highlight and legend *)

Lemma StronglySorted_map {A B : Type} (R : A -> A -> Prop)
    (R' : B -> B -> Prop) (f : A -> B) (l : list A) :
  (forall a b, In a l -> In b l -> R a b -> R' (f a) (f b)) ->
  StronglySorted R l -> StronglySorted R' (map f l).
Proof.
  intros H Hs. induction Hs as [|a l Hs IH Ha]; simpl; constructor.
  - apply IH. intros x y Hx Hy. apply H; now right.
  - apply Forall_forall. intros y Hy. apply in_map_iff in Hy.
    destruct Hy as (b & <- & Hb). rewrite Forall_forall in Ha.
    apply H; [now left|now right|now apply Ha].
Qed.

Lemma genreCounts_NoDup data : NoDup (map fst (HeatmapDraw.genreCounts data)).
Proof.
  unfold HeatmapDraw.genreCounts, D3.rollup. rewrite map_map. simpl.
  apply (group_ok JS.field_eqb GenreDecadeHeatmap.genre
           (fun a b => field_eqb_spec _ _)).
Qed.

Lemma genreCounts_In data g c :
  In (g, c) (HeatmapDraw.genreCounts data)
  <-> (exists d, In d data /\ GenreDecadeHeatmap.genre d = g)
      /\ c = genre_total g data.
Proof.
  unfold HeatmapDraw.genreCounts, D3.rollup, genre_total.
  destruct (group_ok JS.field_eqb GenreDecadeHeatmap.genre
              (fun a b => field_eqb_spec _ _) data) as (_ & Hs & Hc).
  rewrite in_map_iff. split.
  - intros ([g' vs] & E & Hin). simpl in E. inversion E; subst g' c.
    destruct (Hs _ _ Hin) as (d & Hd & -> & ->).
    split; [exists d; now split|reflexivity].
  - intros ((d & Hd & <-) & ->). eexists. split; [|apply (Hc d Hd)].
    reflexivity.
Qed.

Lemma genreCounts_keys data g :
  In g (map fst (HeatmapDraw.genreCounts data))
  <-> exists d, In d data /\ GenreDecadeHeatmap.genre d = g.
Proof.
  rewrite in_map_iff. split.
  - intros ([g' c] & E & Hin). simpl in E. subst g'.
    now apply genreCounts_In in Hin.
  - intros H. exists (g, genre_total g data). split; [reflexivity|].
    apply genreCounts_In. now split.
Qed.

Lemma has_Other_spec data :
  JS.map_has JS.field_eqb (Some "Other") (HeatmapDraw.genreCounts data)
  = existsb HeatmapDraw.is_Other (map GenreDecadeHeatmap.genre data).
Proof.
  apply eq_true_iff_eq. unfold JS.map_has.
  rewrite !existsb_exists. split.
  - intros ([g c] & Hin & E). simpl in E. apply field_eqb_spec in E. subst g.
    apply genreCounts_In in Hin. destruct Hin as ((d & Hd & Hg) & _).
    exists (Some "Other"). split; [|reflexivity].
    rewrite <- Hg. now apply in_map.
  - intros (g & Hg & E). apply field_eqb_spec in E. subst g.
    apply in_map_iff in Hg. destruct Hg as (d & Hg & Hd).
    exists (Some "Other", genre_total (Some "Other") data).
    split; [|reflexivity]. apply genreCounts_In. split; [|reflexivity].
    exists d. now split.
Qed.

(** The genres of the y domain before ["Other"]. *)
Lemma heatmap_genres_pre (data : list GenreDecadeHeatmap.HeatmapData) :
  let gc := HeatmapDraw.genreCounts data in
  let sorted :=
    D3.sort D3.by_count_desc
      (filter (fun e => negb (HeatmapDraw.is_Other (fst e))) gc) in
  (forall g, In g (map fst sorted) <->
     (exists d, In d data /\ GenreDecadeHeatmap.genre d = g)
     /\ g <> Some "Other")
  /\ NoDup (map fst sorted).
Proof.
  intros gc sorted.
  set (others := filter (fun e => negb (HeatmapDraw.is_Other (fst e))) gc)
    in *.
  assert (Hperm : Permutation sorted others) by apply sort_perm.
  split.
  - intros g. rewrite <- genreCounts_keys. fold gc.
    rewrite !in_map_iff. split.
    + intros ([g' c] & E & Hin). simpl in E. subst g'.
      apply (Permutation_in _ Hperm) in Hin. apply filter_In in Hin.
      destruct Hin as [Hin Hn]. simpl in Hn. split.
      * exists (g, c). now split.
      * intros ->. discriminate Hn.
    + intros (([g' c] & E & Hin) & Hne). simpl in E. subst g'.
      exists (g, c). split; [reflexivity|].
      apply (Permutation_in _ (Permutation_sym Hperm)).
      apply filter_In. split; [assumption|]. simpl.
      unfold HeatmapDraw.is_Other.
      destruct (JS.field_eqb g (Some "Other")) eqn:E; [|reflexivity].
      apply field_eqb_spec in E. contradiction.
  - apply (Permutation_NoDup (l := map fst others)).
    + apply Permutation_map. now symmetry.
    + unfold others.
      pose proof (genreCounts_NoDup data) as H. fold gc in H.
      clear -H. induction gc as [|[g c] l IH]; simpl; [constructor|].
      inversion H as [|? ? Hg Hl]; subst.
      destruct (negb (HeatmapDraw.is_Other g)); simpl; [|now apply IH].
      constructor; [|now apply IH].
      intros Hin. apply Hg. apply in_map_iff in Hin.
      destruct Hin as (e & E & He). apply filter_In in He.
      rewrite <- E. apply in_map. apply He.
Qed.

Lemma has_Other_In (data : list GenreDecadeHeatmap.HeatmapData) :
  existsb HeatmapDraw.is_Other (map GenreDecadeHeatmap.genre data) = true
  <-> exists d, In d data /\ GenreDecadeHeatmap.genre d = Some "Other".
Proof.
  rewrite existsb_exists. split.
  - intros (g & Hg & E). apply field_eqb_spec in E. subst g.
    apply in_map_iff in Hg. destruct Hg as (d & Hg & Hd). now exists d.
  - intros (d & Hd & Hg). exists (Some "Other").
    split; [|reflexivity]. rewrite <- Hg. now apply in_map.
Qed.

Lemma heatmap_genres_In (data : list GenreDecadeHeatmap.HeatmapData) g :
  In g (HeatmapDraw.genres data)
  <-> exists d, In d data /\ GenreDecadeHeatmap.genre d = g.
Proof.
  unfold HeatmapDraw.genres. rewrite has_Other_spec.
  destruct (heatmap_genres_pre data) as [Hpre _]. cbv zeta in Hpre.
  rewrite in_app_iff, Hpre.
  pose proof (has_Other_In data) as Hother.
  destruct (existsb _ _).
  - pose proof (proj1 Hother eq_refl) as Ho. split.
    + intros [[H _]|[<-|[]]]; assumption.
    + intros H. destruct (JS.field_eqb g (Some "Other")) eqn:Eg.
      * apply field_eqb_spec in Eg. right. now left.
      * left. split; [assumption|]. intros ->.
        now rewrite field_eqb_refl in Eg.
  - split.
    + intros [[H _]|[]]. assumption.
    + intros H. left. split; [assumption|]. intros ->.
      assert (false = true); [|discriminate]. now apply Hother.
Qed.

Lemma heatmap_genres_NoDup (data : list GenreDecadeHeatmap.HeatmapData) :
  NoDup (HeatmapDraw.genres data).
Proof.
  unfold HeatmapDraw.genres.
  destruct (heatmap_genres_pre data) as [Hpre Hnd]. cbv zeta in Hpre, Hnd.
  apply NoDup_app; [assumption| |].
  - destruct (JS.map_has _ _ _); repeat constructor; intros [].
  - intros g Hg Hin. apply Hpre in Hg. destruct Hg as [_ Hne].
    destruct (JS.map_has _ _ _); [|destruct Hin].
    destruct Hin as [<-|[]]. now apply Hne.
Qed.

(** X7.  The y axis of the heatmap has one band for every genre of the
    data and no other: every cell has its band.  The genres come by
    descending total count, except that ["Other"], when the data have it,
    comes last whatever its count.  They are the distinct genres of the
    data in another order. *)
Theorem heatmap_y_domain (data : list GenreDecadeHeatmap.HeatmapData) :
  let genres := HeatmapDraw.genres data in
  (forall g, In g genres <->
     exists d, In d data /\ GenreDecadeHeatmap.genre d = g)
  /\ NoDup genres
  /\ (exists pre,
       genres = pre ++ (if existsb HeatmapDraw.is_Other
                             (map GenreDecadeHeatmap.genre data)
                        then [Some "Other"] else [])
       /\ ~ In (Some "Other") pre
       /\ StronglySorted
            (fun g h => genre_total h data <= genre_total g data) pre)
  /\ Permutation genres
       (JS.unique JS.field_eqb (map GenreDecadeHeatmap.genre data)).
Proof.
  intros genres.
  split; [intros g; apply heatmap_genres_In|].
  split; [apply heatmap_genres_NoDup|]. split.
  - unfold genres, HeatmapDraw.genres. rewrite has_Other_spec.
    destruct (heatmap_genres_pre data) as [Hpre _]. cbv zeta in Hpre.
    eexists. split; [reflexivity|]. split.
    + intros H. apply Hpre in H. now destruct H.
    + apply (StronglySorted_map (fun a b => snd b <= snd a)).
      2:{ apply sort_descending. }
      intros [g c] [h c'] Hg Hh Hle. simpl in *.
      apply (Permutation_in _ (sort_perm _ _)) in Hg, Hh.
      apply filter_In in Hg, Hh. destruct Hg as [Hg _], Hh as [Hh _].
      apply genreCounts_In in Hg, Hh.
      destruct Hg as (_ & ->), Hh as (_ & ->). exact Hle.
  - apply NoDup_Permutation;
      [apply heatmap_genres_NoDup|apply (unique_NoDup _ field_eqb_spec)|].
    intros g. unfold genres.
    rewrite heatmap_genres_In, (unique_In _ field_eqb_spec), in_map_iff.
    split; intros (d & H1 & H2); exists d; now split.
Qed.

Lemma same_value_zero_iff x y :
  JS.same_value_zero x y = true <-> JS.map_key x = JS.map_key y.
Proof.
  rewrite <- same_value_zero_map_key.
  destruct x as [s| s| |s m e], y as [s'| s'| |s' m' e']; reflexivity.
Qed.

Lemma map_key_idem x : JS.map_key (JS.map_key x) = JS.map_key x.
Proof. now destruct x. Qed.

Section MapGet.
Context {K V : Type} (keq : K -> K -> bool).

Lemma map_get_Some_In (m : list (K * V)) q v :
  JS.map_get keq q m = Some v -> exists k, In (k, v) m /\ keq k q = true.
Proof.
  induction m as [|[k0 v0] m IH]; simpl; [discriminate|].
  destruct (keq k0 q) eqn:E.
  - intros H. inversion H; subst. exists k0. split; [now left|assumption].
  - intros H. destruct (IH H) as (k & Hin & Hk). exists k.
    split; [now right|assumption].
Qed.

Lemma map_get_None_all (m : list (K * V)) q :
  JS.map_get keq q m = None -> forall e, In e m -> keq (fst e) q = false.
Proof.
  induction m as [|[k0 v0] m IH]; simpl; [intros _ e []|].
  destruct (keq k0 q) eqn:E; [discriminate|].
  intros H e [<-|He]; [assumption|now apply IH].
Qed.
End MapGet.

Lemma max_count_ge v d :
  In d v -> GenreDecadeHeatmap.count d <= HeatmapDraw.max_count v.
Proof.
  unfold HeatmapDraw.max_count.
  induction v as [|x v IH]; intros H; [destruct H|]. simpl.
  destruct H as [->|H]; [lia|]. specialize (IH H). lia.
Qed.

Lemma max_count_attained v :
  v <> [] ->
  exists d, In d v /\ GenreDecadeHeatmap.count d = HeatmapDraw.max_count v.
Proof.
  unfold HeatmapDraw.max_count.
  induction v as [|x v IH]; intros H; [congruence|]. simpl.
  destruct v as [|y v].
  - exists x. split; [now left|simpl; lia].
  - destruct IH as (d & Hd & E); [discriminate|].
    destruct (Nat.max_spec (GenreDecadeHeatmap.count x)
                (fold_right Nat.max 0
                   (map GenreDecadeHeatmap.count (y :: v)))) as [[_ M]|[_ M]].
    + exists d. split; [now right|]. now rewrite M.
    + exists x. split; [now left|]. now rewrite M.
Qed.

(** The groups of the cells that are not ['Other'], by decade. *)
Lemma maxByDecade_In data k m :
  In (k, m) (HeatmapDraw.maxByDecade data) <->
  exists d, In d data
    /\ GenreDecadeHeatmap.genre d <> Some "Other"
    /\ k = JS.map_key (GenreDecadeHeatmap.decade d)
    /\ m = HeatmapDraw.max_count
             (filter (fun x => JS.same_value_zero k
                                 (JS.map_key (GenreDecadeHeatmap.decade x)))
                (filter (fun x => negb (HeatmapDraw.is_Other
                                          (GenreDecadeHeatmap.genre x)))
                   data)).
Proof.
  unfold HeatmapDraw.maxByDecade, D3.rollup.
  set (F := filter _ data).
  destruct (group_ok JS.same_value_zero
              (fun d => JS.map_key (GenreDecadeHeatmap.decade d))
              (fun a b => same_value_zero_map_key _ _) F) as (_ & Hs & Hc).
  assert (HF : forall d, In d F <->
            In d data /\ GenreDecadeHeatmap.genre d <> Some "Other").
  { intros d. unfold F. rewrite filter_In. unfold HeatmapDraw.is_Other.
    split; intros [H1 H2]; (split; [assumption|]).
    - intros E. rewrite E in H2. discriminate H2.
    - destruct (JS.field_eqb _ _) eqn:E; [|reflexivity].
      apply field_eqb_spec in E. contradiction. }
  rewrite in_map_iff. split.
  - intros ([k' vs] & E & Hin). simpl in E. inversion E; subst k' m.
    destruct (Hs _ _ Hin) as (d & Hd & -> & ->).
    apply HF in Hd. destruct Hd as [Hd Hg]. exists d. now repeat split.
  - intros (d & Hd & Hg & -> & ->).
    eexists. split; [|apply (Hc d (proj2 (HF d) (conj Hd Hg)))]. reflexivity.
Qed.

Lemma maxByDecade_NoDup data : NoDup (map fst (HeatmapDraw.maxByDecade data)).
Proof.
  unfold HeatmapDraw.maxByDecade, D3.rollup. rewrite map_map. simpl.
  apply (group_ok JS.same_value_zero
           (fun d => JS.map_key (GenreDecadeHeatmap.decade d))
           (fun a b => same_value_zero_map_key _ _)).
Qed.

(** The maximum the highlight compares a cell with. *)
Lemma maxByDecade_get data d :
  In d data -> GenreDecadeHeatmap.genre d <> Some "Other" ->
  JS.map_get JS.same_value_zero (GenreDecadeHeatmap.decade d)
    (HeatmapDraw.maxByDecade data)
  = Some (HeatmapDraw.max_count
            (filter (fun x => JS.same_value_zero
                                (JS.map_key (GenreDecadeHeatmap.decade d))
                                (JS.map_key (GenreDecadeHeatmap.decade x)))
               (filter (fun x => negb (HeatmapDraw.is_Other
                                         (GenreDecadeHeatmap.genre x)))
                  data))).
Proof.
  intros Hd Hg.
  assert (Hin : In (JS.map_key (GenreDecadeHeatmap.decade d),
                    HeatmapDraw.max_count
                      (filter (fun x => JS.same_value_zero
                                 (JS.map_key (GenreDecadeHeatmap.decade d))
                                 (JS.map_key (GenreDecadeHeatmap.decade x)))
                         (filter (fun x => negb (HeatmapDraw.is_Other
                                                   (GenreDecadeHeatmap.genre x)))
                            data)))
                   (HeatmapDraw.maxByDecade data)).
  { apply maxByDecade_In. exists d. now repeat split. }
  destruct (JS.map_get JS.same_value_zero (GenreDecadeHeatmap.decade d)
              (HeatmapDraw.maxByDecade data)) as [m|] eqn:E.
  - apply map_get_Some_In in E. destruct E as (k & Hk & Ek).
    assert (k = JS.map_key (GenreDecadeHeatmap.decade d)).
    { apply same_value_zero_iff in Ek.
      pose proof Hk as Hk'. apply maxByDecade_In in Hk'.
      destruct Hk' as (x & _ & _ & Ex & _).
      rewrite Ex in Ek |- *. now rewrite map_key_idem in Ek. }
    subst k. f_equal.
    apply (NoDup_map_inv_pair _ (maxByDecade_NoDup data) _ _ _ Hk Hin).
  - apply (map_get_None_all _ _ _ E) in Hin. simpl in Hin.
    assert (JS.same_value_zero (JS.map_key (GenreDecadeHeatmap.decade d))
              (GenreDecadeHeatmap.decade d) = true); [|congruence].
    apply same_value_zero_iff. apply map_key_idem.
Qed.

(** X8.  The highlighted cells of the heatmap are the strongest cells of
    their decade among the genres that are not ["Other"]: an ["Other"]
    cell is never highlighted, a highlighted cell has a count no smaller
    than any other such cell of its decade, and every decade with such a
    cell has a highlighted one. *)
Theorem heatmap_dominant_cells (data : list GenreDecadeHeatmap.HeatmapData) :
  (forall d, HeatmapDraw.dominant data d = true ->
     GenreDecadeHeatmap.genre d <> Some "Other")
  /\ (forall d d', In d data -> In d' data ->
        HeatmapDraw.dominant data d = true ->
        GenreDecadeHeatmap.genre d' <> Some "Other" ->
        same_decade d d' = true ->
        GenreDecadeHeatmap.count d' <= GenreDecadeHeatmap.count d)
  /\ (forall d, In d data -> GenreDecadeHeatmap.genre d <> Some "Other" ->
        exists d', In d' data /\ same_decade d d' = true
                   /\ HeatmapDraw.dominant data d' = true).
Proof.
  assert (Hnot : forall g, negb (HeatmapDraw.is_Other g) = true
                           <-> g <> Some "Other").
  { intros g. unfold HeatmapDraw.is_Other.
    destruct (JS.field_eqb g (Some "Other")) eqn:E; simpl.
    - apply field_eqb_spec in E. split; [discriminate|congruence].
    - split; [|reflexivity]. intros _ ->.
      now rewrite field_eqb_refl in E. }
  split; [|split].
  - intros d H. unfold HeatmapDraw.dominant in H.
    apply andb_prop in H. now apply Hnot.
  - intros d d' Hd Hd' H Hg' Hsame. unfold HeatmapDraw.dominant in H.
    apply andb_prop in H. destruct H as [Hg H]. apply Hnot in Hg.
    rewrite (maxByDecade_get data d Hd Hg) in H.
    apply Nat.eqb_eq in H. rewrite H. apply max_count_ge.
    apply filter_In. split.
    + apply filter_In. split; [assumption|now apply Hnot].
    + apply same_value_zero_iff. rewrite !map_key_idem.
      now apply same_value_zero_iff.
  - intros d Hd Hg.
    set (v := filter (fun x => JS.same_value_zero
                         (JS.map_key (GenreDecadeHeatmap.decade d))
                         (JS.map_key (GenreDecadeHeatmap.decade x)))
                (filter (fun x => negb (HeatmapDraw.is_Other
                                          (GenreDecadeHeatmap.genre x)))
                   data)).
    assert (Hv : In d v).
    { apply filter_In. split.
      - apply filter_In. split; [assumption|now apply Hnot].
      - now apply same_value_zero_iff. }
    destruct (max_count_attained v) as (d' & Hd' & Hmax).
    { intros E. rewrite E in Hv. destruct Hv. }
    apply filter_In in Hd'. destruct Hd' as [Hd' Hk].
    apply filter_In in Hd'. destruct Hd' as [Hd' Hg'].
    apply Hnot in Hg'.
    apply same_value_zero_iff in Hk. rewrite !map_key_idem in Hk.
    exists d'. split; [assumption|]. split.
    + now apply same_value_zero_iff.
    + unfold HeatmapDraw.dominant.
      rewrite (proj2 (Hnot _) Hg'), (maxByDecade_get data d' Hd' Hg').
      rewrite <- Hk. fold v. simpl. now apply Nat.eqb_eq.
Qed.

(** X9.  The colour scale of the heatmap covers every count, from 0 to a
    maximum that is at least 1, and its legend has between 2 and 20
    swatches however large the maximum is. *)
Theorem heatmap_legend_bounds (data : list GenreDecadeHeatmap.HeatmapData) :
  (forall d, In d data ->
     GenreDecadeHeatmap.count d <= GenreDecadeHeatmap.maxCount data)
  /\ 1 <= GenreDecadeHeatmap.maxCount data
  /\ 2 <= GenreDecadeHeatmap.legendStops data <= 20.
Proof.
  assert (Hmax : forall d, In d data ->
            GenreDecadeHeatmap.count d
            <= fold_right Nat.max 0 (map GenreDecadeHeatmap.count data)).
  { apply max_count_ge. }
  assert (H1 : 1 <= GenreDecadeHeatmap.maxCount data).
  { unfold GenreDecadeHeatmap.maxCount. destruct (fold_right _ _ _); lia. }
  split; [|split; [exact H1|]].
  - intros d Hd. specialize (Hmax d Hd).
    unfold GenreDecadeHeatmap.maxCount. destruct (fold_right _ _ _); lia.
  - unfold GenreDecadeHeatmap.legendStops.
    set (m := GenreDecadeHeatmap.maxCount data) in *.
    set (s := Nat.max 1 (m / 10)).
    assert (Hs : 1 <= s) by (unfold s; lia).
    assert (Hsm : s <= m).
    { assert (m / 10 <= m) by (apply Nat.Div0.div_le_upper_bound; lia).
      unfold s. lia. }
    assert (Hm : m < 10 * s + 10).
    { pose proof (Nat.div_mod_eq m 10) as E.
      pose proof (Nat.mod_upper_bound m 10 ltac:(lia)). unfold s. lia. }
    split.
    + apply Nat.div_le_lower_bound; lia.
    + assert ((m + s) / s < 21); [|lia].
      apply Nat.Div0.div_lt_upper_bound. nia.
Qed.

(** ** The flow graph of the Sankey diagram *)

(** X10.  No two nodes of the flow graph have the same name, every node
    has one of the layers 0 to 3, and every row the reducer processes has
    its four nodes: its genre, its age category, its movie label and its
    bestseller label. *)
Theorem sankey_nodes_distinct (rows : list RawRow) :
  let nodes := fst (SankeyChart.loadData rows) in
  let names := map SankeyChart.name nodes in
  NoDup names
  /\ (forall n, In n nodes -> SankeyChart.layer n <= 3)
  /\ (forall d, In d (surviving rows) ->
        In (DSV.genre d) names
        /\ In (DSV.age_category d) names
        /\ In (Some (SankeyChart.movieStatus d)) names
        /\ In (Some (SankeyChart.bestsellerStatus d)) names).
Proof.
  intros nodes names.
  destruct (sankey_node_names rows) as (nm & Hn & Hnames & Hnd & Hs & Hc).
  fold nodes in Hn, Hnames. fold names in Hnames.
  split; [|split].
  - now rewrite Hnames.
  - intros n Hin. rewrite Hn in Hin. apply in_map_iff in Hin.
    destruct Hin as ([k n'] & <- & Hin).
    destruct (Hs k n' Hin) as (_ & d & _ & Hof). simpl.
    destruct Hof as [[E _]|[[E _]|[[E _]|[E _]]]]; rewrite E; lia.
  - intros d Hd. rewrite Hnames. apply Hc.
    now apply processed_surviving.
Qed.

Section CountTotal.
Context {K : Type} (keq : K -> K -> bool).

Lemma bump_total (m : list (K * nat)) k :
  list_sum (map snd (bump keq m k)) = S (list_sum (map snd m)).
Proof.
  unfold bump. induction m as [|[k0 v0] m IH]; simpl; [reflexivity|].
  destruct (keq k0 k); simpl; [lia|]. rewrite IH. lia.
Qed.

Lemma counted_total ks :
  list_sum (map snd (counted keq ks)) = List.length ks.
Proof.
  unfold counted. induction ks as [|k ks IH] using rev_ind; [reflexivity|].
  rewrite fold_left_app. simpl. rewrite bump_total, IH, length_app.
  simpl. lia.
Qed.

Lemma bump_length (m : list (K * nat)) k :
  List.length (bump keq m k) <= S (List.length m).
Proof.
  unfold bump. generalize (match JS.map_get keq k m with
                           | Some n => n | None => 0 end + 1).
  induction m as [|[k0 v0] m IH]; intros v; simpl; [lia|].
  destruct (keq k0 k); simpl; [lia|]. specialize (IH v). lia.
Qed.

Lemma counted_length ks : List.length (counted keq ks) <= List.length ks.
Proof.
  unfold counted. induction ks as [|k ks IH] using rev_ind; [simpl; lia|].
  rewrite fold_left_app. simpl.
  pose proof (bump_length (fold_left (bump keq) ks []) k).
  rewrite length_app. simpl. lia.
Qed.
End CountTotal.

Lemma all_transitions_length rows :
  List.length (all_transitions rows) = 3 * List.length (surviving rows).
Proof.
  unfold all_transitions. induction (surviving rows) as [|d l IH];
    [reflexivity|].
  simpl. rewrite IH. lia.
Qed.

Lemma sankey_weights_sum (rows : list RawRow) :
  list_sum (map SankeyChart.value (snd (SankeyChart.loadData rows)))
  = 3 * List.length (surviving rows).
Proof.
  rewrite sankey_links, <- all_transitions_length, map_map. simpl.
  rewrite <- (length_map pair_key (all_transitions rows)).
  apply counted_total.
Qed.

(** X11.  Every row the reducer processes adds 3 to the weights of the
    links, whatever its labels: the weights add up to three times the
    number of processed rows, and there are at most that many links. *)
Theorem sankey_link_weights_total (rows : list RawRow) :
  let links := snd (SankeyChart.loadData rows) in
  list_sum (map SankeyChart.value links) = 3 * List.length (surviving rows)
  /\ List.length links <= 3 * List.length (surviving rows).
Proof.
  intros links. unfold links. split.
  - apply sankey_weights_sum.
  - rewrite sankey_links, <- all_transitions_length, length_map.
    rewrite <- (length_map pair_key (all_transitions rows)).
    apply counted_length.
Qed.

Lemma sankey_links_decoded rows l :
  labels_bar_free rows ->
  In l (snd (SankeyChart.loadData rows)) ->
  exists p, In p (all_transitions rows)
    /\ SankeyChart.source l = Some (fst p)
    /\ SankeyChart.target l = Some (snd p).
Proof.
  intros Hfree Hl. rewrite sankey_links in Hl. apply in_map_iff in Hl.
  destruct Hl as ([k c] & <- & He).
  apply (counted_In String.eqb String.eqb_eq) in He.
  destruct He as (Hk & _). apply in_map_iff in Hk.
  destruct Hk as (p & <- & Hp). exists p. split; [assumption|].
  rewrite (decode_pair_key p _ (transitions_bar_free rows Hfree p Hp)).
  now split.
Qed.

(** X12.  When every row the reducer processes has a genre and an age
    category, and none of these labels has a ["|"] in it, every link joins
    two nodes of the graph: its source and its target are names of
    nodes. *)
Theorem sankey_links_join_nodes (rows : list RawRow) :
  labels_bar_free rows ->
  (forall d, In d (surviving rows) ->
     DSV.genre d <> None /\ DSV.age_category d <> None) ->
  let names := map SankeyChart.name (fst (SankeyChart.loadData rows)) in
  forall l, In l (snd (SankeyChart.loadData rows)) ->
    In (SankeyChart.source l) names /\ In (SankeyChart.target l) names.
Proof.
  intros Hfree Hdef names l Hl.
  destruct (sankey_links_decoded rows l Hfree Hl) as (p & Hp & -> & ->).
  unfold all_transitions in Hp. apply in_flat_map in Hp.
  destruct Hp as (d & Hd & Hp).
  destruct (sankey_node_names rows) as (nm & _ & Hnames & _ & _ & Hc).
  fold names in Hnames.
  destruct (Hc d (proj2 (processed_surviving rows d) Hd))
    as (Hg & Ha & Hm & Hb).
  rewrite <- Hnames in Hg, Ha, Hm, Hb.
  destruct (Hdef d Hd) as [Dg Da].
  assert (Eg : Some (JS.String_ (DSV.genre d)) = DSV.genre d)
    by (destruct (DSV.genre d); [reflexivity|congruence]).
  assert (Ea : Some (JS.String_ (DSV.age_category d)) = DSV.age_category d)
    by (destruct (DSV.age_category d); [reflexivity|congruence]).
  destruct Hp as [<-|[<-|[<-|[]]]]; simpl; rewrite ?Eg, ?Ea; now split.
Qed.

Lemma sankey_links_join_nodes_witness :
  let rows :=
    [ DSV.Build_DSVRowString (Some "Fiction") (Some "Adult") (Some "1994")
        (Some "TRUE") (Some "false");
      DSV.Build_DSVRowString (Some "Fiction") (Some "Teen") (Some "1996")
        None (Some "") ] in
  let names := map SankeyChart.name (fst (SankeyChart.loadData rows)) in
  In (Some "Teen") names /\ In (Some "Not Adapted To Movie") names.
Proof.
  intros rows names.
  apply (sankey_links_join_nodes rows) with
    (l := {| SankeyChart.source := Some "Teen";
             SankeyChart.target := Some "Not Adapted To Movie";
             SankeyChart.value := 1 |}).
  - intros d Hd. vm_compute in Hd.
    destruct Hd as [<-|[<-|[]]]; split; reflexivity.
  - intros d Hd. vm_compute in Hd.
    destruct Hd as [<-|[<-|[]]]; split; discriminate.
  - vm_compute. tauto.
Defined.

(** A row without an age category gives a link from ["undefined"], which
    is the name of no node: the node of the missing label has no name. *)
Lemma sankey_link_without_node :
  SankeyChart.loadData
    [ DSV.Build_DSVRowString (Some "Fiction") None (Some "1994")
        (Some "true") (Some "true") ]
  = ([ {| SankeyChart.name := Some "Fiction"; SankeyChart.layer := 0 |};
       {| SankeyChart.name := None; SankeyChart.layer := 1 |};
       {| SankeyChart.name := Some "Adapted To Movie";
          SankeyChart.layer := 2 |};
       {| SankeyChart.name := Some "Bestseller"; SankeyChart.layer := 3 |} ],
     [ {| SankeyChart.source := Some "Fiction";
          SankeyChart.target := Some "undefined";
          SankeyChart.value := 1 |};
       {| SankeyChart.source := Some "undefined";
          SankeyChart.target := Some "Adapted To Movie";
          SankeyChart.value := 1 |};
       {| SankeyChart.source := Some "Adapted To Movie";
          SankeyChart.target := Some "Bestseller";
          SankeyChart.value := 1 |} ]).
Proof. reflexivity. Qed.

(** X13.  A link key is decoded to the labels it was made of, as long as
    neither has a ["|"] in it; a missing label comes back as the string
    ["undefined"].  Keys of different pairs of such labels differ. *)
Theorem link_key_round_trip (s t : JS.field) (v : nat) :
  has_bar (JS.String_ s) = false ->
  has_bar (JS.String_ t) = false ->
  SankeyChart.decode_link (SankeyChart.link_key s t, v)
  = {| SankeyChart.source := Some (JS.String_ s);
       SankeyChart.target := Some (JS.String_ t);
       SankeyChart.value := v |}
  /\ (forall s' t',
        has_bar (JS.String_ s') = false ->
        has_bar (JS.String_ t') = false ->
        SankeyChart.link_key s t = SankeyChart.link_key s' t' ->
        JS.String_ s = JS.String_ s' /\ JS.String_ t = JS.String_ t').
Proof.
  intros Hs Ht. split.
  - apply (decode_pair_key (JS.String_ s, JS.String_ t) v). now split.
  - intros s' t' Hs' Ht' E.
    assert (H : (JS.String_ s, JS.String_ t)
                = (JS.String_ s', JS.String_ t')).
    { apply pair_key_inj; [now split|now split|exact E]. }
    now inversion H.
Qed.

Lemma link_key_round_trip_witness :
  SankeyChart.decode_link (SankeyChart.link_key (Some "Fiction") None, 2)
  = {| SankeyChart.source := Some (JS.String_ (Some "Fiction"));
       SankeyChart.target := Some (JS.String_ None);
       SankeyChart.value := 2 |}
  /\ (forall s' t',
        has_bar (JS.String_ s') = false ->
        has_bar (JS.String_ t') = false ->
        SankeyChart.link_key (Some "Fiction") None
        = SankeyChart.link_key s' t' ->
        JS.String_ (Some "Fiction") = JS.String_ s'
        /\ JS.String_ None = JS.String_ t').
Proof.
  apply (link_key_round_trip (Some "Fiction") None 2); reflexivity.
Defined.


(** ** From the rows to the marks *)

Lemma surviving_nonempty rows : rows <> [] -> surviving rows <> [].
Proof.
  intros Hne.
  assert (Hc : genre_counts rows <> []).
  { destruct rows as [|r rows]; [congruence|].
    pose proof (genre_counts_complete (r :: rows) r (or_introl eq_refl)) as H.
    intros E. rewrite E in H. destruct H. }
  assert (Hs : D3.sort D3.by_count_desc (genre_counts rows) <> []).
  { intros E. apply Hc.
    apply Permutation_nil. rewrite <- E. apply sort_perm. }
  assert (Ht : exists g, In g (SankeyChart.topGenres rows)).
  { unfold SankeyChart.topGenres, D3.top_keys. fold (genre_counts rows).
    destruct (D3.sort D3.by_count_desc (genre_counts rows)) as [|e s];
      [congruence|].
    exists (fst e). now left. }
  destruct Ht as (g & Hg).
  destruct (top_genres_spec 10 rows) as (_ & _ & Hrow & _).
  destruct (Hrow g Hg) as (r & Hr & Eg).
  intros E.
  assert (Hin : In r (surviving rows)).
  { apply filter_In. split; [assumption|].
    unfold survives. apply includes_In. now rewrite Eg. }
  rewrite E in Hin. destruct Hin.
Qed.

Lemma sankey_data_nonempty rows :
  rows <> [] ->
  fst (SankeyChart.loadData rows) <> []
  /\ snd (SankeyChart.loadData rows) <> [].
Proof.
  intros Hne. pose proof (surviving_nonempty rows Hne) as Hs.
  destruct (surviving rows) as [|d l] eqn:E; [congruence|].
  assert (Hd : In d (surviving rows)) by (rewrite E; now left).
  split.
  - destruct (sankey_node_names rows) as (nm & _ & Hnames & _ & _ & Hc).
    destruct (Hc d (proj2 (processed_surviving rows d) Hd)) as (Hg & _).
    rewrite <- Hnames in Hg. intros E'. rewrite E' in Hg. destruct Hg.
  - intros E'.
    pose proof (sankey_weights_sum rows) as H.
    rewrite E', E in H. simpl in H. lia.
Qed.

Lemma bar_loadData_nonempty rows :
  rows <> [] -> StackedBarChart.loadData rows <> [].
Proof.
  destruct rows as [|r rows]; [congruence|]. intros _ E.
  assert (H : In {| StackedBarChart.category :=
                      JS.nullish (DSV.genre r) "Unknown";
                    StackedBarChart.stack :=
                      JS.nullish (DSV.age_category r) "Unknown";
                    StackedBarChart.value :=
                      List.length (same_genre_age r (r :: rows)) |}
               (StackedBarChart.loadData (r :: rows))).
  { apply bar_bars_are_rows. exists r. split; [now left|reflexivity]. }
  rewrite E in H. destruct H.
Qed.

Lemma heat_loadData_nonempty rows :
  rows <> [] -> GenreDecadeHeatmap.loadData rows <> [].
Proof.
  destruct rows as [|r rows]; [congruence|]. intros _ E.
  pose proof (heat_row_datum (r :: rows) r (or_introl eq_refl)) as H.
  rewrite E in H. destruct H.
Qed.

(** ** The layout of the Sankey diagram *)

Lemma find_from_spec nodes : forall i id j,
  SankeyChart.find_from i nodes id = Some j ->
  exists n, nth_error nodes (j - i) = Some n
            /\ i <= j /\ SankeyChart.name n = id.
Proof.
  induction nodes as [|n0 nodes IH]; intros i id j H; [discriminate|].
  simpl in H. destruct (SankeyChart.find_from (S i) nodes id) as [j'|] eqn:E.
  - inversion H; subst j'. destruct (IH _ _ _ E) as (n & Hn & Hle & Hid).
    exists n. replace (j - i) with (S (j - S i)) by lia.
    split; [exact Hn|]. split; [lia|assumption].
  - destruct (JS.field_eqb (SankeyChart.name n0) id) eqn:F; [|discriminate].
    inversion H; subst j. exists n0. rewrite Nat.sub_diag.
    split; [reflexivity|]. split; [lia|now apply field_eqb_spec].
Qed.

Lemma find_from_In nodes : forall i n,
  In n nodes -> SankeyChart.find_from i nodes (SankeyChart.name n) <> None.
Proof.
  induction nodes as [|n0 nodes IH]; intros i n Hn; [destruct Hn|].
  simpl. destruct (SankeyChart.find_from (S i) nodes (SankeyChart.name n))
    eqn:E; [discriminate|].
  destruct Hn as [->|Hn].
  - now rewrite field_eqb_refl.
  - exfalso. now apply (IH (S i) n Hn).
Qed.

(** A name finds a node of that name, when there is one. *)
Lemma find_name nodes id :
  In id (map SankeyChart.name nodes) ->
  exists j n, SankeyChart.find nodes id = Some j
              /\ nth_error nodes j = Some n /\ SankeyChart.name n = id.
Proof.
  intros H. apply in_map_iff in H. destruct H as (n & <- & Hn).
  unfold SankeyChart.find.
  destruct (SankeyChart.find_from 0 nodes (SankeyChart.name n)) as [j|] eqn:E.
  - destruct (find_from_spec _ _ _ _ E) as (n' & Hn' & _ & Hid).
    rewrite Nat.sub_0_r in Hn'. exists j, n'. now repeat split.
  - exfalso. now apply (find_from_In nodes 0 n Hn).
Qed.

(** The edges of the layout are the links between the nodes they name. *)
Lemma computeNodeLinks_spec nodes links :
  (forall l, In l links ->
     SankeyChart.find nodes (SankeyChart.source l) <> None
     /\ SankeyChart.find nodes (SankeyChart.target l) <> None) ->
  exists edges,
    SankeyChart.computeNodeLinks nodes links = Some edges
    /\ forall u v, In (u, v) edges <->
         exists l, In l links
           /\ SankeyChart.find nodes (SankeyChart.source l) = Some u
           /\ SankeyChart.find nodes (SankeyChart.target l) = Some v.
Proof.
  induction links as [|l links IH]; intros H.
  - exists []. split; [reflexivity|]. intros u v. split; [intros []|].
    intros (l & [] & _).
  - destruct IH as (edges & He & Hin).
    { intros l' Hl'. apply H. now right. }
    destruct (H l (or_introl eq_refl)) as [Hs Ht].
    destruct (SankeyChart.find nodes (SankeyChart.source l)) as [s|] eqn:Es;
      [|congruence].
    destruct (SankeyChart.find nodes (SankeyChart.target l)) as [t|] eqn:Et;
      [|congruence].
    exists ((s, t) :: edges). split.
    + simpl. now rewrite Es, Et, He.
    + intros u v. simpl. rewrite Hin. split.
      * intros [E|(l' & Hl' & H1 & H2)].
        -- inversion E; subst. exists l. now repeat split; [left| |].
        -- exists l'. now repeat split; [right| |].
      * intros (l' & [<-|Hl'] & H1 & H2).
        -- left. congruence.
        -- right. exists l'. now repeat split.
Qed.

Lemma successors_In edges current v :
  In v (SankeyChart.successors edges current)
  <-> exists u, In u current /\ In (u, v) edges.
Proof.
  unfold SankeyChart.successors.
  rewrite (unique_In _ Nat.eqb_eq), in_flat_map. split.
  - intros (u & Hu & Hv). apply in_map_iff in Hv.
    destruct Hv as ([u' v'] & <- & He). apply filter_In in He.
    destruct He as [He E]. simpl in E. apply Nat.eqb_eq in E. subst u'.
    exists u. now split.
  - intros (u & Hu & He). exists u. split; [assumption|].
    apply in_map_iff. exists (u, v). split; [reflexivity|].
    apply filter_In. split; [assumption|]. simpl. apply Nat.eqb_refl.
Qed.

Lemma predecessors_In edges current u :
  In u (SankeyChart.predecessors edges current)
  <-> exists v, In v current /\ In (u, v) edges.
Proof.
  unfold SankeyChart.predecessors.
  rewrite (unique_In _ Nat.eqb_eq), in_flat_map. split.
  - intros (v & Hv & Hu). apply in_map_iff in Hu.
    destruct Hu as ([u' v'] & <- & He). apply filter_In in He.
    destruct He as [He E]. simpl in E. apply Nat.eqb_eq in E. subst v'.
    exists v. now split.
  - intros (v & Hv & He). exists v. split; [assumption|].
    apply in_map_iff. exists (u, v). split; [reflexivity|].
    apply filter_In. split; [assumption|]. simpl. apply Nat.eqb_refl.
Qed.

(** *** The loop of the depths and of the heights *)

Section Sweep.
Variable step : list nat -> list nat.

Lemma sweep_nil k : SankeyChart.sweep k step [] = Some 0.
Proof. now destruct k. Qed.

(** The loop makes [m] rounds when the current set is empty after [m]
    rounds and not before, and [m] is no more than the bound. *)
Lemma sweep_exact : forall m k current,
  m <= k ->
  rounds m step current = [] ->
  (forall i, i < m -> rounds i step current <> []) ->
  SankeyChart.sweep k step current = Some m.
Proof.
  induction m as [|m IH]; intros k current Hk Hm Hlt.
  - simpl in Hm. subst current. apply sweep_nil.
  - destruct current as [|x current].
    { exfalso. apply (Hlt 0); [lia|reflexivity]. }
    destruct k as [|k]; [lia|]. simpl.
    rewrite (IH k (step (x :: current))); [reflexivity|lia|exact Hm|].
    intros i Hi. apply (Hlt (S i)). lia.
Qed.

Lemma sweep_terminates : forall m k current,
  m <= k -> rounds m step current = [] ->
  SankeyChart.sweep k step current <> None.
Proof.
  induction m as [|m IH]; intros k current Hk Hm.
  - simpl in Hm. subst current. now rewrite sweep_nil.
  - destruct current as [|x current]; [now rewrite sweep_nil|].
    destruct k as [|k]; [lia|]. simpl.
    specialize (IH k (step (x :: current)) ltac:(lia) Hm).
    destruct (SankeyChart.sweep k step (step (x :: current)));
      [discriminate|congruence].
Qed.

(** A property that a round passes on from one level to the next holds
    after [j] rounds at the level [i + j]. *)
Lemma rounds_invariant (Inv : nat -> list nat -> Prop) :
  (forall i current, Inv i current -> Inv (S i) (step current)) ->
  forall j i current, Inv i current -> Inv (j + i) (rounds j step current).
Proof.
  intros Hstep. induction j as [|j IH]; intros i current H; [exact H|].
  simpl. replace (S (j + i)) with (j + S i) by lia.
  apply IH. now apply Hstep.
Qed.
End Sweep.

Lemma empty_list {A : Type} (l : list A) : (forall x, ~ In x l) -> l = [].
Proof.
  destruct l as [|x l]; [reflexivity|]. intros H. elim (H x). now left.
Qed.

(** *** Graphs whose edges go from a layer to the next *)

Section Layered.
Variable nodes : list SankeyChart.MyNode.
Variable edges : list (nat * nat).

Hypothesis layers : forall n, In n nodes -> SankeyChart.layer n <= 3.
Hypothesis layered : forall u v, In (u, v) edges ->
  exists nu nv, nth_error nodes u = Some nu /\ nth_error nodes v = Some nv
                /\ SankeyChart.layer nv = S (SankeyChart.layer nu).

Lemma all_from_layer_0 : from_layer nodes 0 (seq 0 (List.length nodes)).
Proof.
  intros u Hu. apply in_seq in Hu.
  destruct (nth_error nodes u) as [n|] eqn:E.
  - exists n. split; [reflexivity|lia].
  - apply nth_error_None in E. lia.
Qed.

Lemma all_to_layer_0 : to_layer nodes 0 (seq 0 (List.length nodes)).
Proof.
  intros u Hu. apply in_seq in Hu.
  destruct (nth_error nodes u) as [n|] eqn:E.
  - exists n. split; [reflexivity|].
    apply nth_error_In in E. specialize (layers n E). lia.
  - apply nth_error_None in E. lia.
Qed.

Lemma successors_from_layer j current :
  from_layer nodes j current ->
  from_layer nodes (S j) (SankeyChart.successors edges current).
Proof.
  intros H v Hv. apply successors_In in Hv. destruct Hv as (u & Hu & He).
  destruct (layered u v He) as (nu & nv & Eu & Ev & El).
  destruct (H u Hu) as (n & En & Hj).
  exists nv. split; [assumption|]. rewrite Eu in En. inversion En; subst. lia.
Qed.

Lemma predecessors_to_layer j current :
  to_layer nodes j current ->
  to_layer nodes (S j) (SankeyChart.predecessors edges current).
Proof.
  intros H u Hu. apply predecessors_In in Hu. destruct Hu as (v & Hv & He).
  destruct (layered u v He) as (nu & nv & Eu & Ev & El).
  destruct (H v Hv) as (n & En & Hj).
  exists nu. split; [assumption|]. rewrite Ev in En. inversion En; subst. lia.
Qed.

Lemma successors_rounds_4 :
  rounds 4 (SankeyChart.successors edges) (seq 0 (List.length nodes)) = [].
Proof.
  apply empty_list. intros u Hu.
  pose proof (rounds_invariant (SankeyChart.successors edges)
                (from_layer nodes)
                successors_from_layer 4 0 _ all_from_layer_0) as H.
  destruct (H u Hu) as (n & En & Hn).
  apply nth_error_In in En. specialize (layers n En). lia.
Qed.

Lemma predecessors_rounds_4 :
  rounds 4 (SankeyChart.predecessors edges) (seq 0 (List.length nodes)) = [].
Proof.
  apply empty_list. intros u Hu.
  pose proof (rounds_invariant (SankeyChart.predecessors edges)
                (to_layer nodes)
                predecessors_to_layer 4 0 _ all_to_layer_0) as H.
  destruct (H u Hu) as (n & En & Hn). lia.
Qed.

(** With a path of three edges, the depths take four rounds and the
    heights end in time: no link is circular. *)
Lemma layered_depths u0 u1 u2 u3 :
  In (u0, u1) edges -> In (u1, u2) edges -> In (u2, u3) edges ->
  4 <= List.length nodes ->
  SankeyChart.computeNodeDepths (List.length nodes) edges = Some 4
  /\ SankeyChart.computeNodeHeights (List.length nodes) edges <> None.
Proof.
  intros E1 E2 E3 Hn. split.
  - apply sweep_exact; [assumption|apply successors_rounds_4|].
    assert (H0 : In u0 (rounds 0 (SankeyChart.successors edges)
                          (seq 0 (List.length nodes)))).
    { cbn [rounds]. destruct (layered _ _ E1) as (nu & _ & Eu & _).
      apply in_seq. split; [lia|]. simpl. apply nth_error_Some. congruence. }
    assert (H1 : In u1 (rounds 1 (SankeyChart.successors edges)
                          (seq 0 (List.length nodes)))).
    { simpl. apply successors_In. now exists u0. }
    assert (H2 : In u2 (rounds 2 (SankeyChart.successors edges)
                          (seq 0 (List.length nodes)))).
    { simpl. apply successors_In. exists u1. split; [exact H1|assumption]. }
    assert (H3 : In u3 (rounds 3 (SankeyChart.successors edges)
                          (seq 0 (List.length nodes)))).
    { simpl. apply successors_In. exists u2. split; [exact H2|assumption]. }
    intros i Hi E.
    destruct i as [|[|[|[|i]]]]; [| | |  |lia];
      [rewrite E in H0|rewrite E in H1|rewrite E in H2|rewrite E in H3];
      contradiction.
  - apply (sweep_terminates _ 4); [assumption|apply predecessors_rounds_4].
Qed.
End Layered.

(** *** The graph of the loaded rows *)

Lemma some_String_ (x : JS.field) : x <> None -> Some (JS.String_ x) = x.
Proof. destruct x; [reflexivity|congruence]. Qed.

(** When the labels keep to their columns, the layer of a node is the
    column of its name. *)
Lemma layered_node_layer rows n d :
  labels_layered rows ->
  In n (fst (SankeyChart.loadData rows)) -> In d (surviving rows) ->
  (SankeyChart.name n = DSV.genre d -> SankeyChart.layer n = 0)
  /\ (SankeyChart.name n = DSV.age_category d -> SankeyChart.layer n = 1)
  /\ (SankeyChart.name n = Some (SankeyChart.movieStatus d) ->
      SankeyChart.layer n = 2)
  /\ (SankeyChart.name n = Some (SankeyChart.bestsellerStatus d) ->
      SankeyChart.layer n = 3).
Proof.
  intros [_ Hrole] Hn Hd.
  destruct (sankey_node_origin rows n Hn) as (d0 & Hd0 & Hof).
  pose proof (Hrole d d0 Hd Hd0) as (_ & _ & A1 & A2 & A3 & A4 & A5).
  pose proof (Hrole d0 d Hd0 Hd) as (_ & _ & B1 & B2 & B3 & B4 & B5).
  pose proof (status_labels_differ d0 d) as S1.
  pose proof (status_labels_differ d d0) as S2.
  destruct Hof as [[L E]|[[L E]|[[L E]|[L E]]]];
    repeat split; intros H; try assumption; exfalso; congruence.
Qed.

Lemma in_names rows d :
  In d (surviving rows) ->
  let names := map SankeyChart.name (fst (SankeyChart.loadData rows)) in
  In (DSV.genre d) names
  /\ In (DSV.age_category d) names
  /\ In (Some (SankeyChart.movieStatus d)) names
  /\ In (Some (SankeyChart.bestsellerStatus d)) names.
Proof.
  intros Hd names.
  destruct (sankey_node_names rows) as (nm & _ & Hnames & _ & _ & Hc).
  unfold names. rewrite Hnames. apply Hc. now apply processed_surviving.
Qed.

(** A name of the column [k] finds a node of the layer [k]. *)
Lemma find_layer rows d :
  labels_layered rows -> In d (surviving rows) ->
  let nodes := fst (SankeyChart.loadData rows) in
  (exists u n, SankeyChart.find nodes (DSV.genre d) = Some u
     /\ nth_error nodes u = Some n /\ SankeyChart.layer n = 0)
  /\ (exists u n, SankeyChart.find nodes (DSV.age_category d) = Some u
        /\ nth_error nodes u = Some n /\ SankeyChart.layer n = 1)
  /\ (exists u n,
        SankeyChart.find nodes (Some (SankeyChart.movieStatus d)) = Some u
        /\ nth_error nodes u = Some n /\ SankeyChart.layer n = 2)
  /\ (exists u n,
        SankeyChart.find nodes (Some (SankeyChart.bestsellerStatus d))
        = Some u
        /\ nth_error nodes u = Some n /\ SankeyChart.layer n = 3).
Proof.
  intros Hlay Hd nodes.
  destruct (in_names rows d Hd) as (Hg & Ha & Hm & Hb).
  assert (H : forall id, In id (map SankeyChart.name nodes) ->
            exists u n, SankeyChart.find nodes id = Some u
              /\ nth_error nodes u = Some n /\ SankeyChart.name n = id
              /\ In n nodes).
  { intros id Hid. destruct (find_name nodes id Hid) as (u & n & E & En & Hn).
    exists u, n. repeat split; try assumption.
    now apply nth_error_In in En. }
  destruct (H _ Hg) as (ug & ng & Eg & Eng & Hng & Ig).
  destruct (H _ Ha) as (ua & na & Ea & Ena & Hna & Ia).
  destruct (H _ Hm) as (um & nm & Em & Enm & Hnm & Im).
  destruct (H _ Hb) as (ub & nb & Eb & Enb & Hnb & Ib).
  repeat split.
  - exists ug, ng. repeat split; try assumption.
    now apply (layered_node_layer rows ng d Hlay Ig Hd).
  - exists ua, na. repeat split; try assumption.
    now apply (layered_node_layer rows na d Hlay Ia Hd).
  - exists um, nm. repeat split; try assumption.
    now apply (layered_node_layer rows nm d Hlay Im Hd).
  - exists ub, nb. repeat split; try assumption.
    now apply (layered_node_layer rows nb d Hlay Ib Hd).
Qed.

(** The link of a transition of a surviving row is a link of the data,
    and every link is one. *)
Lemma layered_links rows :
  labels_layered rows ->
  let links := snd (SankeyChart.loadData rows) in
  (forall d p, In d (surviving rows) -> In p (transitions d) ->
     exists l, In l links
       /\ SankeyChart.source l = Some (fst p)
       /\ SankeyChart.target l = Some (snd p))
  /\ (forall l, In l links ->
        exists d p, In d (surviving rows) /\ In p (transitions d)
          /\ SankeyChart.source l = Some (fst p)
          /\ SankeyChart.target l = Some (snd p)).
Proof.
  intros [Hsep _] links.
  destruct (sankey_links_separable rows Hsep) as [H1 H2]. split.
  - intros d p Hd Hp.
    assert (HT : In p (all_transitions rows)).
    { unfold all_transitions. apply in_flat_map. exists d. now split. }
    specialize (H1 p HT).
    exists {| SankeyChart.source := Some (fst p);
              SankeyChart.target := Some (snd p);
              SankeyChart.value := count_pair p (all_transitions rows) |}.
    split; [|split; reflexivity].
    assert (Hin : In {| SankeyChart.source := Some (fst p);
                        SankeyChart.target := Some (snd p);
                        SankeyChart.value :=
                          count_pair p (all_transitions rows) |}
                    (links_of p (snd (SankeyChart.loadData rows))))
      by (rewrite H1; now left).
    unfold links_of in Hin. apply filter_In in Hin. apply Hin.
  - intros l Hl. destruct (H2 l Hl) as (p & Hp & ->).
    unfold all_transitions in Hp. apply in_flat_map in Hp.
    destruct Hp as (d & Hd & Hp). exists d, p. now repeat split.
Qed.

(** The source and the target of a transition, as the nodes are named. *)
Lemma transition_fields rows d p :
  labels_layered rows -> In d (surviving rows) -> In p (transitions d) ->
  (Some (fst p) = DSV.genre d /\ Some (snd p) = DSV.age_category d)
  \/ (Some (fst p) = DSV.age_category d
      /\ Some (snd p) = Some (SankeyChart.movieStatus d))
  \/ (Some (fst p) = Some (SankeyChart.movieStatus d)
      /\ Some (snd p) = Some (SankeyChart.bestsellerStatus d)).
Proof.
  intros [_ Hrole] Hd Hp.
  destruct (Hrole d d Hd Hd) as (Hg & Ha & _).
  destruct Hp as [<-|[<-|[<-|[]]]]; simpl.
  - left. split; now apply some_String_.
  - right. left. split; [now apply some_String_|reflexivity].
  - right. right. now split.
Qed.

(** When the labels of the surviving rows keep to their columns, the
    layout does not throw, and it has four columns. *)
Lemma layout_layered rows :
  rows <> [] -> labels_layered rows ->
  SankeyChart.layout (fst (SankeyChart.loadData rows))
    (snd (SankeyChart.loadData rows)) = Some 4.
Proof.
  intros Hne Hlay.
  set (nodes := fst (SankeyChart.loadData rows)).
  set (links := snd (SankeyChart.loadData rows)).
  destruct (layered_links rows Hlay) as [Hto Hfrom]. fold links in Hto, Hfrom.
  assert (Hlayers : forall n, In n nodes -> SankeyChart.layer n <= 3).
  { intros n Hn. destruct (sankey_node_origin rows n Hn) as (d & _ & Hof).
    destruct Hof as [[E _]|[[E _]|[[E _]|[E _]]]]; rewrite E; lia. }
  (* every link joins a node to a node of the next layer *)
  assert (Hres : forall l, In l links ->
            exists u v nu nv,
              SankeyChart.find nodes (SankeyChart.source l) = Some u
              /\ SankeyChart.find nodes (SankeyChart.target l) = Some v
              /\ nth_error nodes u = Some nu /\ nth_error nodes v = Some nv
              /\ SankeyChart.layer nv = S (SankeyChart.layer nu)).
  { intros l Hl. destruct (Hfrom l Hl) as (d & p & Hd & Hp & Es & Et).
    destruct (find_layer rows d Hlay Hd)
      as ((ug & ng & Eg & Eng & Lg) & (ua & na & Ea & Ena & La)
          & (um & nm & Em & Enm & Lm) & (ub & nb & Eb & Enb & Lb)).
    fold nodes in Eg, Eng, Ea, Ena, Em, Enm, Eb, Enb.
    rewrite Es, Et.
    destruct (transition_fields rows d p Hlay Hd Hp)
      as [[-> ->]|[[-> ->]|[-> ->]]].
    - exists ug, ua, ng, na. repeat split; try assumption. lia.
    - exists ua, um, na, nm. repeat split; try assumption. lia.
    - exists um, ub, nm, nb. repeat split; try assumption. lia. }
  destruct (computeNodeLinks_spec nodes links) as (edges & He & Hedges).
  { intros l Hl. destruct (Hres l Hl) as (u & v & _ & _ & -> & -> & _).
    split; discriminate. }
  assert (Hlayered : forall u v, In (u, v) edges ->
            exists nu nv, nth_error nodes u = Some nu
              /\ nth_error nodes v = Some nv
              /\ SankeyChart.layer nv = S (SankeyChart.layer nu)).
  { intros u v Huv. apply Hedges in Huv.
    destruct Huv as (l & Hl & Eu & Ev).
    destruct (Hres l Hl) as (u' & v' & nu & nv & Eu' & Ev' & H).
    rewrite Eu in Eu'. rewrite Ev in Ev'.
    inversion Eu'; inversion Ev'; subst. exists nu, nv. exact H. }
  (* the path of a surviving row *)
  assert (Hex : exists d0, In d0 (surviving rows)).
  { pose proof (surviving_nonempty rows Hne) as H.
    destruct (surviving rows) as [|d0 rest]; [congruence|].
    exists d0. now left. }
  destruct Hex as (d0 & Hd0).
  destruct (find_layer rows d0 Hlay Hd0)
    as ((ug & ng & Eg & Eng & Lg) & (ua & na & Ea & Ena & La)
        & (um & nm & Em & Enm & Lm) & (ub & nb & Eb & Enb & Lb)).
  fold nodes in Eg, Eng, Ea, Ena, Em, Enm, Eb, Enb.
  assert (Hpath : In (ug, ua) edges /\ In (ua, um) edges
                  /\ In (um, ub) edges).
  { assert (Hp : forall p, In p (transitions d0) ->
              forall u v,
                SankeyChart.find nodes (Some (fst p)) = Some u ->
                SankeyChart.find nodes (Some (snd p)) = Some v ->
                In (u, v) edges).
    { intros p Hp u v Eu Ev. apply Hedges.
      destruct (Hto d0 p Hd0 Hp) as (l & Hl & Els & Elt).
      exists l. rewrite Els, Elt. now repeat split. }
    destruct Hlay as [_ Hrole].
    destruct (Hrole d0 d0 Hd0 Hd0) as (Hg & Ha & _).
    repeat split.
    - apply (Hp (JS.String_ (DSV.genre d0),
                 JS.String_ (DSV.age_category d0))).
      + now left.
      + simpl. now rewrite (some_String_ _ Hg).
      + simpl. now rewrite (some_String_ _ Ha).
    - apply (Hp (JS.String_ (DSV.age_category d0),
                 SankeyChart.movieStatus d0)).
      + right. now left.
      + simpl. now rewrite (some_String_ _ Ha).
      + assumption.
    - apply (Hp (SankeyChart.movieStatus d0,
                 SankeyChart.bestsellerStatus d0)).
      + right. right. now left.
      + assumption.
      + assumption. }
  destruct Hpath as (P1 & P2 & P3).
  (* at least four nodes *)
  assert (Hn : 4 <= List.length nodes).
  { assert (Hnd : NoDup [ug; ua; um; ub]).
    { assert (D : forall u v nu nv, nth_error nodes u = Some nu ->
                nth_error nodes v = Some nv ->
                SankeyChart.layer nu <> SankeyChart.layer nv -> u <> v)
        by (intros u v nu nv Eu Ev Hl ->; congruence).
      repeat constructor; simpl; intros H;
        repeat destruct H as [H|H]; try contradiction; revert H;
        first [ apply (D _ _ _ _ Ena Eng) | apply (D _ _ _ _ Enm Eng)
              | apply (D _ _ _ _ Enb Eng) | apply (D _ _ _ _ Enm Ena)
              | apply (D _ _ _ _ Enb Ena) | apply (D _ _ _ _ Enb Enm) ];
        lia. }
    assert (Hincl : incl [ug; ua; um; ub] (seq 0 (List.length nodes))).
    { intros u Hu. apply in_seq. split; [lia|]. simpl.
      apply nth_error_Some.
      repeat destruct Hu as [<-|Hu]; try contradiction; congruence. }
    pose proof (NoDup_incl_length Hnd Hincl) as H.
    rewrite length_seq in H. exact H. }
  destruct (layered_depths nodes edges Hlayers Hlayered ug ua um ub
              P1 P2 P3 Hn) as [Hdepth Hheight].
  unfold SankeyChart.layout. fold nodes links. rewrite He. cbv zeta.
  rewrite Hdepth.
  destruct (SankeyChart.computeNodeHeights (List.length nodes) edges);
    [|congruence].
  destruct (List.length nodes) as [|n'] eqn:El; [lia|].
  cbn [Nat.eqb].
  assert (Hcol : SankeyChart.columns_filled 4 nodes = true).
  { unfold SankeyChart.columns_filled. cbn [seq forallb].
    assert (C : forall k nd, In nd nodes -> SankeyChart.layer nd = k ->
              k <= 3 ->
              existsb (fun n => (SankeyChart.column 4 n =? k)%nat) nodes
              = true).
    { intros k nd Hin Hk Hle. apply existsb_exists. exists nd.
      split; [assumption|]. unfold SankeyChart.column. rewrite Hk.
      apply Nat.eqb_eq. cbn [Nat.sub]. lia. }
    rewrite (C 0 ng), (C 1 na), (C 2 nm), (C 3 nb); try reflexivity;
      try lia; try assumption; eapply nth_error_In; eassumption. }
  now rewrite Hcol.
Qed.

(** *** When the layout throws *)

Lemma find_None nodes id :
  ~ In id (map SankeyChart.name nodes) -> SankeyChart.find nodes id = None.
Proof.
  intros H. unfold SankeyChart.find.
  destruct (SankeyChart.find_from 0 nodes id) as [j|] eqn:E; [|reflexivity].
  destruct (find_from_spec _ _ _ _ E) as (n & Hn & _ & Hid).
  elim H. rewrite <- Hid. apply in_map. now apply nth_error_In in Hn.
Qed.

Lemma computeNodeLinks_Some nodes links edges :
  SankeyChart.computeNodeLinks nodes links = Some edges ->
  forall l, In l links ->
    exists u v, SankeyChart.find nodes (SankeyChart.source l) = Some u
                /\ SankeyChart.find nodes (SankeyChart.target l) = Some v
                /\ In (u, v) edges.
Proof.
  revert edges. induction links as [|l0 links IH]; intros edges H l Hl;
    [destruct Hl|].
  simpl in H.
  destruct (SankeyChart.find nodes (SankeyChart.source l0)) as [s|] eqn:Es;
    [|discriminate].
  destruct (SankeyChart.find nodes (SankeyChart.target l0)) as [t|] eqn:Et;
    [|discriminate].
  destruct (SankeyChart.computeNodeLinks nodes links) as [edges'|] eqn:E;
    [|discriminate].
  inversion H; subst edges. destruct Hl as [<-|Hl].
  - exists s, t. repeat split; try assumption. now left.
  - destruct (IH edges' eq_refl l Hl) as (u & v & Eu & Ev & Hin).
    exists u, v. repeat split; try assumption. now right.
Qed.

(** A link that names a node that is not there: the layout throws
    ["missing"]. *)
Lemma layout_missing nodes links l :
  In l links ->
  ~ In (SankeyChart.source l) (map SankeyChart.name nodes)
  \/ ~ In (SankeyChart.target l) (map SankeyChart.name nodes) ->
  SankeyChart.layout nodes links = None.
Proof.
  intros Hl H. unfold SankeyChart.layout.
  destruct (SankeyChart.computeNodeLinks nodes links) as [edges|] eqn:E;
    [|reflexivity].
  destruct (computeNodeLinks_Some _ _ _ E l Hl) as (u & v & Eu & Ev & _).
  destruct H as [H|H]; apply find_None in H; congruence.
Qed.

Lemma sweep_loop edges u : forall k current,
  In u current -> In (u, u) edges ->
  SankeyChart.sweep k (SankeyChart.successors edges) current = None.
Proof.
  induction k as [|k IH]; intros current Hu He.
  - destruct current; [destruct Hu|reflexivity].
  - destruct current as [|x current]; [destruct Hu|]. simpl.
    rewrite IH; [reflexivity| |assumption].
    apply successors_In. exists u. now split.
Qed.

(** A link from a node to itself: the layout throws ["circular link"],
    unless it has thrown before. *)
Lemma layout_circular nodes links l :
  In l links -> SankeyChart.source l = SankeyChart.target l ->
  SankeyChart.layout nodes links = None.
Proof.
  intros Hl H. unfold SankeyChart.layout.
  destruct (SankeyChart.computeNodeLinks nodes links) as [edges|] eqn:E;
    [|reflexivity].
  destruct (computeNodeLinks_Some _ _ _ E l Hl) as (u & v & Eu & Ev & Hin).
  rewrite H, Ev in Eu. inversion Eu; subst v. cbv zeta.
  unfold SankeyChart.computeNodeDepths.
  rewrite (sweep_loop edges u); [reflexivity| |assumption].
  apply in_seq. split; [lia|]. simpl.
  unfold SankeyChart.find in Ev.
  destruct (find_from_spec _ _ _ _ Ev) as (n & Hn & _ & _).
  rewrite Nat.sub_0_r in Hn. apply nth_error_Some. congruence.
Qed.

(** X15.  Load and draw together.  With no rows loaded, each of the three
    charts leaves its [svg] as it is.  With rows loaded and a size that
    has a width and a height, the effect clears the [svg] and draws: the
    bar chart and the heatmap always have marks, and the Sankey diagram
    has its flow and its title when the labels of the surviving rows keep
    to their columns.  When a link of the Sankey data goes from a label
    to itself, or has a label that names no node, the layout throws and
    the [svg] of the Sankey diagram is left without a mark. *)
Theorem chart_draws_loaded_rows (c : chart) (rows : list RawRow)
    (size : Tracker.ComponentSize) (svg : list SVG.mark) :
  let marks := drawChart c (aggregate c rows) size in
  let nodes := fst (SankeyChart.loadData rows) in
  let links := snd (SankeyChart.loadData rows) in
  (rows = [] -> draw_effect c (aggregate c rows) size svg = svg)
  /\ (rows <> [] ->
      JS.falsy (Tracker.width size) = false ->
      JS.falsy (Tracker.height size) = false ->
      draw_effect c (aggregate c rows) size svg = marks)
  /\ (c <> Sankey -> marks <> [])
  /\ (c = Sankey -> rows <> [] -> labels_layered rows ->
      marks
      = [ SVG.Flow (List.length links) (List.length nodes)
            SankeyChart.layerNames;
          SVG.Title "Top 1000 Swapped Books Sankey Diagram" ])
  /\ (c = Sankey ->
      (exists l, In l links
         /\ (SankeyChart.source l = SankeyChart.target l
             \/ ~ In (SankeyChart.source l) (map SankeyChart.name nodes)
             \/ ~ In (SankeyChart.target l) (map SankeyChart.name nodes))) ->
      marks = []).
Proof.
  intros marks nodes links. split; [|split; [|split; [|split]]].
  - intros ->. destruct c; reflexivity.
  - intros Hne Hw Hh. apply draw_effect_draws; [|assumption|assumption].
    destruct c; simpl.
    + now apply bar_loadData_nonempty.
    + now apply heat_loadData_nonempty.
    + destruct (sankey_data_nonempty rows Hne). tauto.
  - intros Hc. destruct c; [discriminate|discriminate|congruence].
  - intros -> Hne Hlay.
    change marks with (SankeyChart.drawChart nodes links size).
    unfold SankeyChart.drawChart, nodes, links.
    now rewrite (layout_layered rows Hne Hlay).
  - intros -> (l & Hl & H).
    change marks with (SankeyChart.drawChart nodes links size).
    unfold SankeyChart.drawChart.
    destruct H as [H|H].
    + now rewrite (layout_circular _ _ l Hl H).
    + now rewrite (layout_missing _ _ l Hl H).
Qed.

Lemma chart_draws_loaded_rows_witness :
  let rows :=
    [ DSV.Build_DSVRowString (Some "Fiction") (Some "Adult") (Some "1994")
        (Some "true") (Some "false");
      DSV.Build_DSVRowString (Some "Fiction") (Some "Teen") (Some "1996")
        (Some "false") (Some "false") ] in
  let size := {| Tracker.width := JS.of_Z 800;
                 Tracker.height := JS.of_Z 600 |} in
  labels_layered rows
  /\ drawChart Sankey (aggregate Sankey rows) size
     = [ SVG.Flow (List.length (snd (SankeyChart.loadData rows)))
           (List.length (fst (SankeyChart.loadData rows)))
           SankeyChart.layerNames;
         SVG.Title "Top 1000 Swapped Books Sankey Diagram" ].
Proof.
  intros rows size.
  assert (Hlay : labels_layered rows).
  { split.
    - intros d Hd. vm_compute in Hd.
      destruct Hd as [<-|[<-|[]]]; repeat split.
    - intros d d' Hd Hd'. vm_compute in Hd, Hd'.
      destruct Hd as [<-|[<-|[]]]; destruct Hd' as [<-|[<-|[]]];
        repeat split; discriminate. }
  split; [exact Hlay|].
  apply (proj1 (proj2 (proj2 (proj2
           (chart_draws_loaded_rows Sankey rows size []))))).
  - reflexivity.
  - discriminate.
  - exact Hlay.
Defined.

(** The Sankey diagram of two rows with labels of their own is drawn; a
    row whose genre is also its age category, and a row without an age
    category, leave the [svg] without a mark. *)
Lemma sankey_draw_examples :
  let size := {| Tracker.width := JS.of_Z 800;
                 Tracker.height := JS.of_Z 600 |} in
  let row g a := DSV.Build_DSVRowString g a (Some "1994")
                   (Some "true") (Some "false") in
  draw_effect Sankey
    (aggregate Sankey [row (Some "Fiction") (Some "Adult");
                       row (Some "Fiction") (Some "Teen")])
    size [SVG.Background]
  = [ SVG.Flow 5 5 SankeyChart.layerNames;
      SVG.Title "Top 1000 Swapped Books Sankey Diagram" ]
  /\ draw_effect Sankey
       (aggregate Sankey [row (Some "Fiction") (Some "Fiction")])
       size [SVG.Background] = []
  /\ draw_effect Sankey (aggregate Sankey [row (Some "Fiction") None])
       size [SVG.Background] = []
  /\ draw_effect Sankey
       (aggregate Sankey [row (Some "Fiction") (Some "Adult");
                          row (Some "Adult") (Some "Teen")])
       size [SVG.Background] = [].
Proof. repeat split; vm_compute; reflexivity. Qed.

(** ** The domains of the scales *)

(** X16.  The x scale of the bar chart and its legend, drawn from the
    rows of the file: the genre labels and the age labels of the rows
    (["Unknown"] for a missing one), each once, and no other label; there
    are never more of either than there are bars. *)
Theorem bar_chart_domains (rows : list RawRow)
    (size : Tracker.ComponentSize) :
  let bars := StackedBarChart.loadData rows in
  let genres :=
    JS.unique String.eqb (map StackedBarChart.category bars) in
  let stacks := JS.unique String.eqb (map StackedBarChart.stack bars) in
  In (SVG.Bars stacks genres) (StackedBarChart.drawChart bars size)
  /\ In (SVG.AxisBand (List.length genres))
        (StackedBarChart.drawChart bars size)
  /\ In (SVG.Legend stacks) (StackedBarChart.drawChart bars size)
  /\ NoDup genres /\ NoDup stacks
  /\ (forall g, In g genres <->
        exists r, In r rows /\ g = JS.nullish (DSV.genre r) "Unknown")
  /\ (forall s, In s stacks <->
        exists r, In r rows
          /\ s = JS.nullish (DSV.age_category r) "Unknown")
  /\ List.length genres <= List.length bars
  /\ List.length stacks <= List.length bars.
Proof.
  intros bars genres stacks.
  split; [right; left; reflexivity|].
  split; [right; right; left; reflexivity|].
  split; [do 7 right; left; reflexivity|].
  split; [apply (unique_NoDup _ String.eqb_eq)|].
  split; [apply (unique_NoDup _ String.eqb_eq)|].
  split; [|split; [|split]].
  - intros g. unfold genres.
    rewrite (unique_In _ String.eqb_eq), in_map_iff. split.
    + intros (b & <- & Hb). apply bar_bars_are_rows in Hb.
      destruct Hb as (r & Hr & ->). now exists r.
    + intros (r & Hr & ->). eexists. split; [|apply bar_bars_are_rows].
      2:{ exists r. split; [exact Hr|reflexivity]. }
      reflexivity.
  - intros s. unfold stacks.
    rewrite (unique_In _ String.eqb_eq), in_map_iff. split.
    + intros (b & <- & Hb). apply bar_bars_are_rows in Hb.
      destruct Hb as (r & Hr & ->). now exists r.
    + intros (r & Hr & ->). eexists. split; [|apply bar_bars_are_rows].
      2:{ exists r. split; [exact Hr|reflexivity]. }
      reflexivity.
  - unfold genres, JS.unique.
    etransitivity; [apply unique_from_length|]. now rewrite length_map.
  - unfold stacks, JS.unique.
    etransitivity; [apply unique_from_length|]. now rewrite length_map.
Qed.

(** X17.  The heatmap never has more than 21 genre bands, whatever the
    number of genres in the file: the genres of its y axis are top genres
    or ["Other"]. *)
Theorem heatmap_at_most_21_genres (rows : list RawRow) :
  let genres := HeatmapDraw.genres (GenreDecadeHeatmap.loadData rows) in
  (forall g, In g genres ->
     g = Some "Other" \/ In g (GenreDecadeHeatmap.topGenres rows))
  /\ List.length genres <= 21.
Proof.
  intros genres.
  assert (Hin : forall g, In g genres ->
            g = Some "Other" \/ In g (GenreDecadeHeatmap.topGenres rows)).
  { intros g Hg. unfold genres in Hg. apply heatmap_genres_In in Hg.
    destruct Hg as (d & Hd & <-).
    assert (Hl : In (GenreDecadeHeatmap.genre d)
                   (map GenreDecadeHeatmap.genre
                      (GenreDecadeHeatmap.loadData rows)))
      by now apply in_map.
    apply heat_labels in Hl.
    destruct Hl as (r & _ & <-). unfold GenreDecadeHeatmap.genre_key.
    destruct (JS.includes _ _) eqn:E; [right|now left].
    now apply includes_In. }
  split; [exact Hin|].
  transitivity
    (List.length (Some "Other" :: GenreDecadeHeatmap.topGenres rows)).
  - apply NoDup_incl_length; [apply heatmap_genres_NoDup|].
    intros g Hg. destruct (Hin g Hg) as [->|H]; [now left|now right].
  - pose proof (top_keys_length 20 (genre_counts rows)) as H.
    unfold genre_counts in H. unfold GenreDecadeHeatmap.topGenres.
    cbn [List.length]. exact (le_n_S _ _ H).
Qed.

Lemma NoDup_map_filter {A B : Type} (f : A -> B) (p : A -> bool) l :
  NoDup (map f l) -> NoDup (map f (filter p l)).
Proof.
  induction l as [|x l IH]; simpl; [constructor|].
  intros H. inversion H as [|? ? Hx Hl]; subst.
  destruct (p x); simpl; [|now apply IH].
  constructor; [|now apply IH].
  intros Hin. apply Hx. apply in_map_iff in Hin.
  destruct Hin as (y & E & Hy). apply filter_In in Hy.
  rewrite <- E. apply in_map. apply Hy.
Qed.

(** X18.  The columns of the Sankey diagram are small whatever the file:
    at most 10 genre nodes, all of them top genres, and at most 2 nodes in
    each of the columns of the movie and the bestseller labels. *)
Theorem sankey_layer_sizes (rows : list RawRow) :
  let nodes := fst (SankeyChart.loadData rows) in
  (forall n, In n (at_layer 0 nodes) ->
     In (SankeyChart.name n) (SankeyChart.topGenres rows))
  /\ List.length (at_layer 0 nodes) <= 10
  /\ List.length (at_layer 2 nodes) <= 2
  /\ List.length (at_layer 3 nodes) <= 2.
Proof.
  intros nodes.
  assert (Hnd : forall k, NoDup (map SankeyChart.name (at_layer k nodes))).
  { intros k. apply NoDup_map_filter.
    destruct (sankey_node_names rows) as (nm & _ & E & Hok & _).
    unfold nodes. rewrite E. exact Hok. }
  assert (H0 : forall n, In n (at_layer 0 nodes) ->
            In (SankeyChart.name n) (SankeyChart.topGenres rows)).
  { intros n Hn. apply filter_In in Hn. destruct Hn as [Hn Hl].
    apply Nat.eqb_eq in Hl.
    destruct (sankey_node_origin rows n Hn) as (d & Hd & Hof).
    destruct Hof as [[_ E]|[[L _]|[[L _]|[L _]]]]; try congruence.
    rewrite E. apply filter_In in Hd. destruct Hd as [_ Hd].
    now apply includes_In. }
  split; [exact H0|]. split; [|split].
  - rewrite <- (length_map SankeyChart.name).
    transitivity (List.length (SankeyChart.topGenres rows)).
    + apply NoDup_incl_length; [apply Hnd|].
      intros g Hg. apply in_map_iff in Hg.
      destruct Hg as (n & <- & Hn). now apply H0.
    + apply top_keys_length.
  - rewrite <- (length_map SankeyChart.name).
    apply (NoDup_incl_length
             (l' := [Some "Adapted To Movie";
                     Some "Not Adapted To Movie"])); [apply Hnd|].
    intros g Hg. apply in_map_iff in Hg. destruct Hg as (n & <- & Hn).
    apply filter_In in Hn. destruct Hn as [Hn Hl]. apply Nat.eqb_eq in Hl.
    destruct (sankey_node_origin rows n Hn) as (d & Hd & Hof).
    destruct Hof as [[L _]|[[L _]|[[_ E]|[L _]]]]; try congruence.
    rewrite E. unfold SankeyChart.movieStatus.
    destruct (SankeyChart.is_true _); simpl; tauto.
  - rewrite <- (length_map SankeyChart.name).
    apply (NoDup_incl_length
             (l' := [Some "Bestseller"; Some "Not Bestseller"]));
      [apply Hnd|].
    intros g Hg. apply in_map_iff in Hg. destruct Hg as (n & <- & Hn).
    apply filter_In in Hn. destruct Hn as [Hn Hl]. apply Nat.eqb_eq in Hl.
    destruct (sankey_node_origin rows n Hn) as (d & Hd & Hof).
    destruct Hof as [[L _]|[[L _]|[[L _]|[_ E]]]]; try congruence.
    rewrite E. unfold SankeyChart.bestsellerStatus.
    destruct (SankeyChart.is_true _); simpl; tauto.
Qed.

(** ** The order of the genres of the heatmap *)

Lemma filter_all_false {A : Type} (f : A -> bool) (l : list A) :
  (forall x, In x l -> f x = false) -> filter f l = [].
Proof.
  induction l as [|x l IH]; intros H; simpl; [reflexivity|].
  rewrite (H x) by now left. apply IH. intros y Hy. apply H. now right.
Qed.

Lemma outer_sum_hit {K V : Type} (keq : K -> K -> bool) (w : V -> nat)
    (keq_spec : forall a b, keq a b = true <-> a = b) (g : K) :
  forall (m : list (K * V)),
  NoDup (map fst m) ->
  list_sum (map (fun e => if keq g (fst e) then w (snd e) else 0) m)
  = match JS.map_get keq g m with Some v => w v | None => 0 end.
Proof.
  induction m as [|[k v] m IH]; intros Hnd; [reflexivity|].
  inversion Hnd as [|? ? Hk Hnd']; subst. simpl.
  destruct (keq k g) eqn:E.
  - apply keq_spec in E. subst k.
    assert (Eg : keq g g = true) by now apply keq_spec.
    rewrite Eg.
    assert (Z : list_sum
                  (map (fun e => if keq g (fst e) then w (snd e) else 0) m)
                = 0).
    { clear -Hk keq_spec. induction m as [|[k v] m IH]; [reflexivity|].
      simpl. destruct (keq g k) eqn:E.
      - apply keq_spec in E. subst k. elim Hk. now left.
      - apply IH. intros H. apply Hk. now right. }
    rewrite Z. lia.
  - destruct (keq g k) eqn:E'.
    + apply keq_spec in E'. subst k.
      assert (keq g g = true) by now apply keq_spec. congruence.
    + now rewrite IH.
Qed.

(** X19.  The count by which the heatmap orders a genre on its y axis is
    the number of rows of the file under that label: for a top genre
    other than ["Other"], the number of rows of that genre. *)
Theorem heatmap_genre_totals (rows : list RawRow) (g : JS.field) :
  let data := GenreDecadeHeatmap.loadData rows in
  genre_total g data = List.length (rows_of_label g rows)
  /\ (In g (GenreDecadeHeatmap.topGenres rows) -> g <> Some "Other" ->
      genre_total g data = freq g rows).
Proof.
  intros data.
  set (top := GenreDecadeHeatmap.topGenres rows).
  set (key1 := GenreDecadeHeatmap.genre_key top).
  assert (Htot : genre_total g data = List.length (rows_of_label g rows)).
  { unfold genre_total, data, GenreDecadeHeatmap.loadData,
      GenreDecadeHeatmap.grouped, D3.rollup2.
    fold top. fold key1.
    set (m := D3.group JS.field_eqb key1 rows).
    destruct (group_ok JS.field_eqb key1 (fun a b => field_eqb_spec _ _)
                rows) as (Hnd & Hs & Hc).
    fold m in Hnd, Hs, Hc.
    transitivity
      (list_sum
         (map (fun e => if JS.field_eqb g (fst e)
                        then List.length (snd e) else 0) m)).
    - clear Hnd Hs Hc. induction m as [|[k vs] m IH]; [reflexivity|].
      simpl. rewrite filter_app, map_app, list_sum_app, IH. f_equal.
      destruct (JS.field_eqb g k) eqn:E.
      + rewrite forallb_filter_id.
        * rewrite !map_map. simpl.
          apply (rollup_length_sum JS.same_value_zero).
        * apply forallb_forall. intros d Hd. apply in_map_iff in Hd.
          destruct Hd as (dc & <- & _). exact E.
      + rewrite filter_all_false; [reflexivity|].
        intros d Hd. apply in_map_iff in Hd.
        destruct Hd as (dc & <- & _). exact E.
    - rewrite (outer_sum_hit JS.field_eqb (@List.length RawRow)
                 field_eqb_spec g m Hnd).
      unfold rows_of_label. fold top. fold key1.
      destruct (JS.map_get JS.field_eqb g m) as [vs|] eqn:E.
      + apply map_get_Some_In in E. destruct E as (k & E & Ek).
        apply field_eqb_spec in Ek. subst k.
        destruct (Hs g vs E) as (a & _ & _ & ->). reflexivity.
      + destruct (filter (same_key JS.field_eqb key1 g) rows)
          as [|a l] eqn:F; [reflexivity|].
        assert (Ha : In a (filter (same_key JS.field_eqb key1 g) rows))
          by (rewrite F; now left).
        apply filter_In in Ha. destruct Ha as [Ha Ek].
        unfold same_key in Ek. apply field_eqb_spec in Ek.
        pose proof (Hc a Ha) as Hin. rewrite <- Ek in Hin.
        pose proof (map_get_None_all _ _ _ E _ Hin) as Hnone.
        simpl in Hnone. rewrite field_eqb_refl in Hnone. discriminate. }
  split; [exact Htot|].
  intros Hg Hne. rewrite Htot. unfold rows_of_label, freq. fold top.
  f_equal. apply filter_ext. intros r. unfold same_key.
  fold key1. unfold key1, GenreDecadeHeatmap.genre_key.
  destruct (JS.includes top (DSV.genre r)) eqn:E; [reflexivity|].
  assert (N : DSV.genre r <> g).
  { intros <-. apply includes_not_In in E. contradiction. }
  transitivity false.
  - destruct (JS.field_eqb g (Some "Other")) eqn:F; [|reflexivity].
    apply field_eqb_spec in F. contradiction.
  - symmetry. destruct (JS.field_eqb g (DSV.genre r)) eqn:F; [|reflexivity].
    apply field_eqb_spec in F. congruence.
Qed.

Lemma heatmap_genre_totals_witness :
  let rows :=
    [ DSV.Build_DSVRowString (Some "Fiction") (Some "Adult") (Some "1994")
        (Some "true") (Some "false");
      DSV.Build_DSVRowString (Some "Fiction") (Some "Teen") (Some "2001")
        (Some "false") (Some "false") ] in
  genre_total (Some "Fiction") (GenreDecadeHeatmap.loadData rows)
  = freq (Some "Fiction") rows.
Proof.
  intros rows.
  apply (proj2 (heatmap_genre_totals rows (Some "Fiction"))).
  - vm_compute. now left.
  - discriminate.
Defined.
